(** * Icecast-kh: the MP3/ICY format plugin and the relay/slave subsystem

    A shallow embedding of [src/format_mp3.c] and [src/slave.c] and the
    properties of the specification that concern them.

    Conventions of the embedding.
    - C [int]s are [Z]; every place where the source computes in an unsigned
      type says so and writes the wrap-around out ([to_uint]).
    - A byte is a [Byte.byte]; a buffer is a [list byte].
    - A pointer that is only compared is an address ([Z]); a pointer that is
      dereferenced is the record it points to, [None] (or [Null]) when NULL.
    - Calls into collaborators whose code is not part of these two files (the
      socket layer, the MPEG resynchroniser, libc) are inputs of the model:
      an explicit argument or a [Variable] of a [Section]. *)

From Stdlib Require Import ZArith List Lia Bool String Ascii DecimalString.
From Stdlib.Strings Require Import Byte.
From stdpp Require Import base list gmap strings.

Import ListNotations.
Local Open Scope Z_scope.

(** The length of a buffer as the C code sees it. *)
Definition blen {A} (l : list A) : Z := Z.of_nat (length l).

(** Conversion of a C [int] to [unsigned int]. *)
Definition to_uint (z : Z) : Z := z mod 2 ^ 32.

#[global] Instance byte_eq_dec : EqDecision byte := Byte.byte_eq_dec.

(** The value of an [unsigned char]. *)
Definition byte_val (b : byte) : Z := Z.of_N (Byte.to_N b).

(** *** libc and the HTTP parser

    [atoi] on a header or query value, as the C library computes it:
    [(int) strtol (s, NULL, 10)].  [strtol] skips leading white space, takes
    an optional sign and then decimal digits, and stops at the limits of
    [long] when the number is larger; the conversion to [int] keeps the low
    32 bits. *)

Definition is_space (c : ascii) : bool :=
  let n := nat_of_ascii c in
  (Nat.eqb n 32 || (Nat.leb 9 n && Nat.leb n 13))%bool.

Fixpoint skip_spaces (s : string) : string :=
  match s with
  | String c s' => if is_space c then skip_spaces s' else s
  | EmptyString => s
  end.

Fixpoint digits (acc : Z) (s : string) : Z :=
  match s with
  | String c s' =>
      let n := Z.of_nat (nat_of_ascii c) in
      if (48 <=? n) && (n <=? 57) then digits (acc * 10 + (n - 48)) s' else acc
  | EmptyString => acc
  end.

(** Conversion of an integer to a 32-bit [int]. *)
Definition to_int (z : Z) : Z := (z + 2 ^ 31) mod 2 ^ 32 - 2 ^ 31.

(** The limits of a 64-bit [long], at which [strtol] stops. *)
Definition to_long (z : Z) : Z := Z.max (- 2 ^ 63) (Z.min (2 ^ 63 - 1) z).

Definition strtol (s : string) : Z :=
  to_long
    match skip_spaces s with
    | String "-" s' => - digits 0 s'
    | String "+" s' => digits 0 s'
    | s' => digits 0 s'
    end.

Definition atoi (s : string) : Z := to_int (strtol s).

(** [%u] and [%d] of a value that is not negative. *)
Definition decimal (z : Z) : string := NilZero.string_of_uint (N.to_uint (Z.to_N z)).

Definition crlf : string := String "013" (String "010" EmptyString).

(** The variables of a parsed request or response ([httpp_getvar],
    [httpp_get_query_param]): a finite map from names to values. *)
Definition vars : Type := gmap string string.

(** [strstr (s, pat) != NULL] *)
Definition contains (pat s : string) : bool :=
  match String.index 0 pat s with
  | Some _ => true
  | None => false
  end.

(** ** format_mp3.c *)

Module FormatMp3.

(** *** Reference-counted blocks

    Reference counts are not modelled: no claim depends on them.  A metadata
    refbuf is its address (which is what listeners compare) and its bytes. *)

Record meta_t := mk_meta {
  m_addr : Z;
  m_data : list byte
}.

(** A queue block: its payload and the metadata refbuf attached to it. *)
Record refbuf_t := mk_refbuf {
  data : list byte;
  associated : option meta_t
}.

(** [static refbuf_t blank_meta = { 0, 1, NULL, NULL, "\001StreamTitle='';", 17 }]:
    sixteen characters and the terminating NUL. *)
Definition blank_meta_data : list byte :=
  x01 :: list_byte_of_string "StreamTitle='';" ++ [x00].

(** [client_mp3->associated]: NULL after calloc, the static [blank_meta], or a
    metadata refbuf of the source. *)
Inductive assoc_ptr :=
| Null
| Blank
| Ref (m : meta_t).

(** *** The listener

    The fields of [client_t] and of its [mp3_client_data] that the writers
    use.  The two internal format flags are kept as booleans. *)

Record client_t := mk_client {
  in_metadata : bool;            (* CLIENT_IN_METADATA *)
  using_blank_meta : bool;       (* CLIENT_USING_BLANK_META *)
  pos : Z;
  queue_pos : Z;
  counter : Z;
  schedule_ms : Z;
  refbuf : refbuf_t;
  interval : Z;
  since_meta_block : Z;
  metadata_offset : Z;
  cl_associated : assoc_ptr
}.

(** What one non-blocking send does with the [len] bytes it is offered: it
    fails, or the socket has room for some number of them. *)
Inductive sock :=
| SockErr
| SockRoom (room : Z).

Definition sock_send (s : sock) (len : Z) : Z :=
  match s with
  | SockErr => -1
  | SockRoom room => Z.min (Z.max 0 room) len
  end.

(** What reached the wire, in order. *)
Inductive wire :=
| Audio (bs : list byte)       (* payload bytes *)
| MetaPart (bs : list byte)    (* metadata bytes of a block that is not complete yet *)
| MetaEnd (bs : list byte).    (* the last bytes of a metadata block: the insert is complete *)

Definition ztake {A} (n : Z) (l : list A) : list A := firstn (Z.to_nat n) l.
Definition zdrop {A} (n : Z) (l : list A) : list A := skipn (Z.to_nat n) l.

Definition non_null {A} (p : option A) : bool :=
  match p with Some _ => true | None => false end.

(** [associated && associated != client_mp3->associated] *)
Definition meta_changed (a : option meta_t) (mine : assoc_ptr) : option meta_t :=
  match a with
  | None => None
  | Some m =>
      match mine with
      | Ref m' => if Z.eqb (m_addr m) (m_addr m') then None else Some m
      | _ => Some m
      end
  end.

(** The metadata bytes [send_icy_metadata] decides to send, their length as the
    code computes it, and the listener after the bookkeeping of that choice.
    [None]: the code dereferences a NULL [client_mp3->associated]. *)
Definition icy_metadata_choice (c : client_t) (rb : refbuf_t)
  : option (list byte * Z * client_t) :=
  if in_metadata c then
    match cl_associated c with
    | Null => None
    | Blank =>
        Some (zdrop (metadata_offset c) blank_meta_data,
              blen blank_meta_data - metadata_offset c, c)
    | Ref m =>
        Some (zdrop (metadata_offset c) (m_data m),
              blen (m_data m) - metadata_offset c, c)
    end
  else
    match meta_changed (associated rb) (cl_associated c) with
    | Some m =>
        Some (m_data m, blen (m_data m),
              mk_client (in_metadata c) false (pos c) (queue_pos c) (counter c)
                (schedule_ms c) (refbuf c) (interval c) (since_meta_block c)
                (metadata_offset c) (Ref m))
    | None =>
        if non_null (associated rb) || using_blank_meta c then
          Some ([x00], 1, c)
        else
          Some (zdrop (metadata_offset c) blank_meta_data,
                blen blank_meta_data - metadata_offset c,
                mk_client (in_metadata c) true (pos c) (queue_pos c) (counter c)
                  (schedule_ms c) (refbuf c) (interval c) (since_meta_block c)
                  (metadata_offset c) Blank)
    end.

(** [send_icy_metadata]: the listener afterwards, the return value and what was
    written. *)
Definition send_icy_metadata (c : client_t) (rb : refbuf_t) (s : sock)
  : option (client_t * Z * list wire) :=
  match icy_metadata_choice c rb with
  | None => None
  | Some (metadata, meta_len, c1) =>
      let block_len := blen (data rb) - pos c1 in
      let block_len := if interval c1 <? block_len then interval c1 else block_len in
      let ret := sock_send s (meta_len + block_len) in
      if meta_len <=? ret then
        let queue_bytes := ret - meta_len in
        Some (mk_client false (using_blank_meta c1) (pos c1 + queue_bytes)
                (queue_pos c1 + queue_bytes) (counter c1 + queue_bytes)
                (schedule_ms c1) (refbuf c1) (interval c1) queue_bytes 0
                (cl_associated c1),
              ret,
              [MetaEnd metadata; Audio (ztake queue_bytes (zdrop (pos c1) (data rb)))])
      else
        Some (mk_client true (using_blank_meta c1) (pos c1) (queue_pos c1) (counter c1)
                (schedule_ms c1 + 150) (refbuf c1) (interval c1) (since_meta_block c1)
                (if 0 <? ret then metadata_offset c1 + ret else metadata_offset c1)
                (cl_associated c1),
              ret,
              if 0 <? ret then [MetaPart (ztake ret metadata)] else [])
  end.

(** [format_mp3_write_buf_to_client] *)
Definition format_mp3_write_buf_to_client (c : client_t) (s : sock)
  : option (client_t * Z * list wire) :=
  let rb := refbuf c in
  if negb (interval c =? 0) && (interval c =? since_meta_block c) then
    send_icy_metadata c rb s
  else
    let len := blen (data rb) - pos c in
    let len :=
      if negb (interval c =? 0) && (interval c - since_meta_block c <? len)
      then interval c - since_meta_block c else len in
    let len := if 2900 <? len then 2900 else len in
    if negb (len =? 0) then
      let ret := sock_send s len in
      let sched := if ret <? len then schedule_ms c + 50 else schedule_ms c in
      if 0 <? ret then
        Some (mk_client (in_metadata c) (using_blank_meta c) (pos c + ret)
                (queue_pos c + ret) (counter c + ret) (sched + 4) (refbuf c)
                (interval c) (since_meta_block c + ret) (metadata_offset c)
                (cl_associated c),
              ret, [Audio (ztake ret (zdrop (pos c) (data rb)))])
      else
        Some (mk_client (in_metadata c) (using_blank_meta c) (pos c)
                (queue_pos c) (counter c) (sched + 4) (refbuf c)
                (interval c) (since_meta_block c) (metadata_offset c)
                (cl_associated c),
              ret, [])
    else
      Some (mk_client (in_metadata c) (using_blank_meta c) (pos c)
              (queue_pos c) (counter c) (schedule_ms c + 4) (refbuf c)
              (interval c) (since_meta_block c) (metadata_offset c)
              (cl_associated c),
            -1, []).

(** One visit of the listener by its worker.  Before the write the source may
    have moved the listener on to another queue block, which restarts [pos]. *)
Record tick := mk_tick {
  t_next : option refbuf_t;
  t_sock : sock
}.

Definition move_on (c : client_t) (next : option refbuf_t) : client_t :=
  match next with
  | None => c
  | Some rb =>
      mk_client (in_metadata c) (using_blank_meta c) 0 (queue_pos c) (counter c)
        (schedule_ms c) rb (interval c) (since_meta_block c) (metadata_offset c)
        (cl_associated c)
  end.

(** A run of ticks: the listener at the end and everything written. *)
Fixpoint write_ticks (c : client_t) (ts : list tick) : option (client_t * list wire) :=
  match ts with
  | [] => Some (c, [])
  | t :: ts' =>
      match format_mp3_write_buf_to_client (move_on c (t_next t)) (t_sock t) with
      | None => None
      | Some (c1, _, w) =>
          match write_ticks c1 ts' with
          | None => None
          | Some (c2, w') => Some (c2, w ++ w')
          end
      end
  end.

(** The listener as [format_mp3_create_client_data] leaves it: calloc'ed
    format data with the interval set, at the start of a queue block. *)
Definition new_listener (i : Z) (rb : refbuf_t) : client_t :=
  mk_client false false 0 0 0 0 rb i 0 0 Null.

(** Payload bytes written. *)
Fixpoint payload_total (w : list wire) : Z :=
  match w with
  | [] => 0
  | Audio bs :: w' => blen bs + payload_total w'
  | _ :: w' => payload_total w'
  end.

(** Completed metadata inserts. *)
Fixpoint inserts (w : list wire) : Z :=
  match w with
  | [] => 0
  | MetaEnd _ :: w' => 1 + inserts w'
  | _ :: w' => inserts w'
  end.

(** The payload byte counts between consecutive inserts: one entry per
    completed insert (the payload before it), then the payload written since
    the last one.  [cur] is the payload already counted for the first entry. *)
Fixpoint segments (cur : Z) (w : list wire) : list Z :=
  match w with
  | [] => [cur]
  | Audio bs :: w' => segments (cur + blen bs) w'
  | MetaPart _ :: w' => segments cur w'
  | MetaEnd _ :: w' => cur :: segments 0 w'
  end.

(** *** Ingest: the per-mount state [mp3_state]

    The declarations of format_mp3.h are not part of the two files; the fields
    are the ones format_mp3.c uses, the counters as C [int]s. *)

Record mp3_state := mk_mp3 {
  metadata : list byte;   (* metadata->data: the current broadcast ICY block *)
  url_artist : option (list byte);
  url_title : option (list byte);
  url : option (list byte);
  inline_url : option (list byte);
  update_metadata : Z;
  mp3_interval : Z;   (* interval *)
  inline_metadata_interval : Z;
  offset : Z;
  build_metadata : list byte;   (* char build_metadata[4081] *)
  build_metadata_len : Z;
  build_metadata_offset : Z;
  queue_block_size : Z;
  read_data : option (list byte);   (* the bytes of the block being read, NULL between blocks *)
  read_count : Z
}.

Definition set_metadata (v : list byte) (st : mp3_state) : mp3_state :=
  mk_mp3 v (url_artist st) (url_title st) (url st) (inline_url st) (update_metadata st) (mp3_interval st) (inline_metadata_interval st) (offset st) (build_metadata st) (build_metadata_len st) (build_metadata_offset st) (queue_block_size st) (read_data st) (read_count st).

Definition set_url_title (v : option (list byte)) (st : mp3_state) : mp3_state :=
  mk_mp3 (metadata st) (url_artist st) v (url st) (inline_url st) (update_metadata st) (mp3_interval st) (inline_metadata_interval st) (offset st) (build_metadata st) (build_metadata_len st) (build_metadata_offset st) (queue_block_size st) (read_data st) (read_count st).

Definition set_inline_url (v : option (list byte)) (st : mp3_state) : mp3_state :=
  mk_mp3 (metadata st) (url_artist st) (url_title st) (url st) v (update_metadata st) (mp3_interval st) (inline_metadata_interval st) (offset st) (build_metadata st) (build_metadata_len st) (build_metadata_offset st) (queue_block_size st) (read_data st) (read_count st).

Definition set_update_metadata (v : Z) (st : mp3_state) : mp3_state :=
  mk_mp3 (metadata st) (url_artist st) (url_title st) (url st) (inline_url st) v (mp3_interval st) (inline_metadata_interval st) (offset st) (build_metadata st) (build_metadata_len st) (build_metadata_offset st) (queue_block_size st) (read_data st) (read_count st).

Definition set_offset (v : Z) (st : mp3_state) : mp3_state :=
  mk_mp3 (metadata st) (url_artist st) (url_title st) (url st) (inline_url st) (update_metadata st) (mp3_interval st) (inline_metadata_interval st) v (build_metadata st) (build_metadata_len st) (build_metadata_offset st) (queue_block_size st) (read_data st) (read_count st).

Definition set_build_metadata (v : list byte) (st : mp3_state) : mp3_state :=
  mk_mp3 (metadata st) (url_artist st) (url_title st) (url st) (inline_url st) (update_metadata st) (mp3_interval st) (inline_metadata_interval st) (offset st) v (build_metadata_len st) (build_metadata_offset st) (queue_block_size st) (read_data st) (read_count st).

Definition set_build_metadata_len (v : Z) (st : mp3_state) : mp3_state :=
  mk_mp3 (metadata st) (url_artist st) (url_title st) (url st) (inline_url st) (update_metadata st) (mp3_interval st) (inline_metadata_interval st) (offset st) (build_metadata st) v (build_metadata_offset st) (queue_block_size st) (read_data st) (read_count st).

Definition set_build_metadata_offset (v : Z) (st : mp3_state) : mp3_state :=
  mk_mp3 (metadata st) (url_artist st) (url_title st) (url st) (inline_url st) (update_metadata st) (mp3_interval st) (inline_metadata_interval st) (offset st) (build_metadata st) (build_metadata_len st) v (queue_block_size st) (read_data st) (read_count st).

Definition set_read_data (v : option (list byte)) (st : mp3_state) : mp3_state :=
  mk_mp3 (metadata st) (url_artist st) (url_title st) (url st) (inline_url st) (update_metadata st) (mp3_interval st) (inline_metadata_interval st) (offset st) (build_metadata st) (build_metadata_len st) (build_metadata_offset st) (queue_block_size st) v (read_count st).

Definition set_read_count (v : Z) (st : mp3_state) : mp3_state :=
  mk_mp3 (metadata st) (url_artist st) (url_title st) (url st) (inline_url st) (update_metadata st) (mp3_interval st) (inline_metadata_interval st) (offset st) (build_metadata st) (build_metadata_len st) (build_metadata_offset st) (queue_block_size st) (read_data st) v.

(** *** C strings over a buffer *)

(** The string that starts at a pointer: the bytes before the first NUL. *)
Fixpoint cstr (l : list byte) : list byte :=
  match l with
  | [] => []
  | b :: l' => if Byte.eqb b x00 then [] else b :: cstr l'
  end.

(** [strncmp (p, lit, strlen (lit)) == 0] for a literal [lit]. *)
Definition starts_with (lit p : list byte) : bool :=
  bool_decide (firstn (length lit) (cstr p) = lit).

(** The index of the first occurrence of [pat] in a string that has no NUL. *)
Fixpoint find_sub (pat s : list byte) : option nat :=
  if bool_decide (firstn (length pat) s = pat) then Some O
  else match s with
       | [] => None
       | _ :: s' => option_map S (find_sub pat s')
       end.

(** [strstr (p, pat)], as an index from [p]. *)
Definition strstr (p pat : list byte) : option nat := find_sub pat (cstr p).

(** [strchr (p, c)], as an index from [p]. *)
Definition strchr (p : list byte) (c : byte) : option nat := find_sub [c] (cstr p).

(** [memcmp (a, b, n) == 0].  Both buffers must hold [n] bytes; a comparison
    that would run past the end of one of them counts as a mismatch (in the
    callers below the first byte gives the length of a block, so two blocks of
    different lengths already differ there). *)
Definition memcmp_eq (a b : list byte) (n : Z) : bool :=
  (n <=? blen a) && (n <=? blen b) && bool_decide (ztake n a = ztake n b).

(** [memcpy (dst + off, src, n)] into an array [dst]. *)
Definition memcpy_at (dst : list byte) (off : Z) (src : list byte) (n : Z) : list byte :=
  ztake off dst ++ ztake n src ++ zdrop (off + blen (ztake n src)) dst.

(** *** parse_icy_metadata *)

Definition stream_title : list byte := list_byte_of_string "StreamTitle='".
Definition stream_url : list byte := list_byte_of_string "StreamUrl='".
Definition quote_semi : list byte := list_byte_of_string "';".
Definition semicolon : byte := x3b.   (* the character ; *)

(** The [do ... while (meta_len > 0)] loop over the tokens of a block.  [md] is
    the buffer from the pointer [metadata] on.  Every round consumes at least
    one byte of [meta_len], so [meta_len] rounds of fuel are never used up
    (see [parse_icy_tokens_fuel]). *)
Fixpoint parse_icy_tokens (fuel : nat) (md : list byte) (meta_len : Z) (st : mp3_state)
  : mp3_state :=
  match fuel with
  | O => st
  | S fuel' =>
      let next (used : Z) (st' : mp3_state) :=
        let st'' := set_update_metadata 1 st' in
        if 0 <? meta_len - used
        then parse_icy_tokens fuel' (zdrop used md) (meta_len - used) st''
        else st'' in
      if starts_with stream_title md then
        match strstr (skipn 13 md) quote_semi with
        | None => st
        | Some k =>
            next (13 + Z.of_nat k + 2)
                 (set_url_title (Some (firstn k (skipn 13 md))) st)
        end
      else if starts_with stream_url md then
        match strstr (skipn 11 md) quote_semi with
        | None => st
        | Some k =>
            next (11 + Z.of_nat k + 2)
                 (set_inline_url (Some (firstn k (skipn 11 md))) st)
        end
      else
        match strchr md semicolon with
        | None => st
        | Some k => next (Z.of_nat k + 1) st
        end
  end.

Definition first_byte (l : list byte) : Z :=
  match l with
  | [] => 0
  | b :: _ => byte_val b
  end.

(** [parse_icy_metadata]: the return value and the state afterwards. *)
Definition parse_icy_metadata (st : mp3_state) : Z * mp3_state :=
  let meta_len := build_metadata_len st in
  let md := build_metadata st in
  if (meta_len <=? 1) || memcmp_eq md (metadata st) meta_len then (0, st)
  else if (meta_len <? 16) || (4081 <? meta_len) then (-1, st)
  else if negb (first_byte md * 16 + 1 =? meta_len) then (-1, st)
  else (0, parse_icy_tokens (Z.to_nat (meta_len - 1)) (skipn 1 md) (meta_len - 1) st).

(** *** The inline metadata filter of mp3_get_filter_meta *)

(** [memset (build_metadata, 0, sizeof (build_metadata))] *)
Definition build_metadata_zeroed : list byte := repeat x00 4081.
#[global] Arguments build_metadata_zeroed : simpl never.

(** How the [while (bytes > 0)] loop ends. *)
Inductive filter_result :=
| FilterFail (st : mp3_state)
    (* parse_icy_metadata failed: the caller clears SOURCE_RUNNING and returns NULL *)
| FilterDone (st : mp3_state) (out rest : list byte).
    (* the buffer holds [out] ([refbuf->len] bytes of payload) and then [rest] *)

(** The loop.  The buffer [refbuf->data] is [out ++ src ++ junk]: [out] is the
    payload kept so far ([refbuf->len] bytes), [src] the [bytes] bytes still to
    look at, from the pointer [src] on, and [junk] what lies behind them.
    [bytes], [mp3_block] and [metadata_remaining] are [unsigned int].  Every
    round that continues shortens [src], so [S (length src)] rounds of fuel
    are never used up. *)
Fixpoint filter_loop (fuel : nat) (st : mp3_state) (out src junk : list byte)
  : filter_result :=
  match fuel with
  | O => FilterDone st out (src ++ junk)
  | S fuel' =>
      let bytes := blen src in
      if bytes =? 0 then FilterDone st out (src ++ junk) else
      let mp3_block := to_uint (inline_metadata_interval st - offset st) in
      if bytes <=? mp3_block then
        (* is there only enough to account for mp3 data *)
        FilterDone (set_offset (offset st + bytes) st) (out ++ src) junk
      else if negb (mp3_block =? 0) then
        (* transfer up to the metadata block *)
        filter_loop fuel' (set_offset (offset st + mp3_block) st)
                    (out ++ ztake mp3_block src) (zdrop mp3_block src) junk
      else
        (* process the inline metadata, len == 0 indicates not seen any yet *)
        let st1 :=
          if build_metadata_len st =? 0 then
            set_build_metadata_len (1 + first_byte src * 16)
              (set_build_metadata_offset 0
                 (set_build_metadata build_metadata_zeroed st))
          else st in
        let metadata_remaining :=
          to_uint (build_metadata_len st1 - build_metadata_offset st1) in
        if bytes <? metadata_remaining then
          FilterDone
            (set_build_metadata_offset (build_metadata_offset st1 + bytes)
               (set_build_metadata
                  (memcpy_at (build_metadata st1) (build_metadata_offset st1) src bytes)
                  st1))
            out (src ++ junk)
        else
          (* copy all bytes except the last one, overwrite metadata in the buffer *)
          let st2 :=
            set_build_metadata
              (memcpy_at (build_metadata st1) (build_metadata_offset st1) src
                         (to_uint (metadata_remaining - 1)))
              st1 in
          let src' := zdrop metadata_remaining src in
          let junk' := zdrop (blen src') src ++ junk in
          let '(r, st3) :=
            if 1 <? build_metadata_len st2 then parse_icy_metadata st2 else (0, st2) in
          if r <? 0 then FilterFail st3
          else filter_loop fuel' (set_build_metadata_len 0 (set_offset 0 st3))
                           out src' junk'
  end.

(** *** The source side *)

(** A block as the ingest side sees it: the allocated bytes, the valid length,
    the metadata block attached to it and SOURCE_BLOCK_SYNC. *)
Record block_t := mk_block {
  b_data : list byte;
  b_len : Z;
  b_associated : option (list byte);
  b_sync : bool
}.

(** The bytes a block carries. *)
Definition payload (b : block_t) : list byte := ztake (b_len b) (b_data b).

Section Ingest.

(** The MPEG resynchroniser (mpeg.c) is a collaborator: its state, and
    [mpeg_complete_frames (sync, refbuf, 0)], which gives the state and the
    refbuf afterwards and the number of trailing bytes it left unprocessed;
    [mpeg_data_insert (sync, leftover)]. *)
Variable mpeg_sync : Type.
Variable mpeg_complete_frames : mpeg_sync -> block_t -> mpeg_sync * block_t * Z.
Variable mpeg_data_insert : mpeg_sync -> list byte -> mpeg_sync.

(** The bytes of the ICY metadata refbuf that [mp3_set_title] builds from the
    tags (or the current ones when it gives up).  [mp3_set_title] writes no
    other field of [mp3_state]; the FLV and iceblock companions it chains to
    the refbuf are not modelled. *)
Variable mp3_set_title : mp3_state -> list byte.

(** What the ingest functions use of [source_t], its client and its format. *)
Record source_t := mk_source {
  running : bool;                    (* SOURCE_RUNNING in source->flags *)
  format_data : option mpeg_sync;    (* source->client->format_data *)
  client_pos : Z;                    (* source->client->pos *)
  client_queue_pos : Z;              (* source->client->queue_pos *)
  read_bytes : Z;                    (* source->format->read_bytes *)
  state : mp3_state                  (* source->format->_state *)
}.

Definition set_state (st : mp3_state) (s : source_t) : source_t :=
  mk_source (running s) (format_data s) (client_pos s) (client_queue_pos s)
            (read_bytes s) st.

Definition set_running (v : bool) (s : source_t) : source_t :=
  mk_source v (format_data s) (client_pos s) (client_queue_pos s)
            (read_bytes s) (state s).

Definition set_format_data (v : option mpeg_sync) (s : source_t) : source_t :=
  mk_source (running s) v (client_pos s) (client_queue_pos s)
            (read_bytes s) (state s).

Definition set_client_pos (v : Z) (s : source_t) : source_t :=
  mk_source (running s) (format_data s) v (client_queue_pos s)
            (read_bytes s) (state s).

Definition set_client_queue_pos (v : Z) (s : source_t) : source_t :=
  mk_source (running s) (format_data s) (client_pos s) v
            (read_bytes s) (state s).

Definition set_read_bytes (v : Z) (s : source_t) : source_t :=
  mk_source (running s) (format_data s) (client_pos s) (client_queue_pos s)
            v (state s).

(** [validate_mpeg], entered with the client's [format_data]: the source and
    the refbuf afterwards and the return value.  The statistics event is not
    modelled.  A refbuf from [refbuf_new] is taken to be zero-filled. *)
Definition validate_mpeg (s : source_t) (sync : mpeg_sync) (rb : block_t)
  : source_t * block_t * Z :=
  let '(sync1, rb1, unprocessed) := mpeg_complete_frames sync rb in
  let s1 := set_format_data (Some sync1) s in
  let st := state s1 in
  let done := if b_len rb1 =? 0 then -1 else 0 in
  if (unprocessed <? 0) || (8000 <? unprocessed) then
    (* too much unprocessed really, may not be parsing *)
    if (0 <? unprocessed) && negb (b_len rb1 =? 0) then (s1, rb1, 0)
    else (set_running false s1, rb1, -1)
  else if 0 <? unprocessed then
    let tail := ztake unprocessed (zdrop (b_len rb1) (b_data rb1)) in
    if (0 <? inline_metadata_interval st)
       && (inline_metadata_interval st <=? offset st) then
      (* reached meta but we have a frame fragment, so keep it for later *)
      (set_client_pos 0 (set_format_data (Some (mpeg_data_insert sync1 tail)) s1),
       rb1, done)
    else
      let st1 :=
        if 0 <? inline_metadata_interval st
        then set_offset (offset st - unprocessed) st else st in
      let len :=
        if unprocessed <? queue_block_size st1
        then queue_block_size st1 else unprocessed + 1000 in
      let leftover := tail ++ repeat x00 (Z.to_nat len - length tail) in
      (set_client_pos unprocessed
         (set_state (set_read_count unprocessed (set_read_data (Some leftover) st1)) s1),
       rb1, done)
  else
    (set_client_pos 0 s1, rb1, done).

(** [complete_read] at the call that fills the block: [fresh] are the bytes
    read into the block since it was started (after the [read_count] bytes a
    previous [validate_mpeg] may have carried over).  The calls before it,
    which return 0 and make the caller return NULL, only add to the block.
    The result is the state and the filled block. *)
Definition complete_read (s : source_t) (fresh : list byte) : source_t * list byte :=
  let st := state s in
  let carried :=
    match read_data st with
    | None => []
    | Some d => ztake (read_count st) d
    end in
  let st1 :=
    match read_data st with
    | None => set_read_count 0 st
    | Some _ => st
    end in
  let st2 :=
    if update_metadata st1 =? 0 then st1
    else set_update_metadata 0 (set_metadata (mp3_set_title st1) st1) in
  let block := carried ++ fresh in
  (set_read_bytes (read_bytes s + blen fresh)
     (set_state (set_read_count (read_count st2 + blen fresh)
                   (set_read_data (Some block) st2)) s),
   block).

(** The block handed to the queue: [queue_pos] advanced, the current metadata
    attached, SOURCE_BLOCK_SYNC set. *)
Definition queue_block (s : source_t) (rb : block_t) : source_t * option block_t :=
  (set_client_queue_pos (client_queue_pos s + b_len rb) s,
   Some (mk_block (b_data rb) (b_len rb) (Some (metadata (state s))) true)).

(** [mp3_get_no_meta] *)
Definition mp3_get_no_meta (s : source_t) (fresh : list byte)
  : source_t * option block_t :=
  let '(s1, block) := complete_read s fresh in
  let rb := mk_block block (read_count (state s1)) None false in
  let s2 := set_state (set_read_data None (set_read_count 0 (state s1))) s1 in
  match format_data s2 with
  | Some sync =>
      let '(s3, rb', r) := validate_mpeg s2 sync rb in
      if r <? 0 then (s3, None) else queue_block s3 rb'
  | None => queue_block s2 rb
  end.

(** [mp3_get_filter_meta] *)
Definition mp3_get_filter_meta (s : source_t) (fresh : list byte)
  : source_t * option block_t :=
  let '(s1, block) := complete_read s fresh in
  let bytes := to_uint (read_count (state s1)) in
  let st1 := set_read_data None (state s1) in
  match filter_loop (S (length block)) st1 [] (ztake bytes block) (zdrop bytes block) with
  | FilterFail st2 => (set_running false (set_state st2 s1), None)
  | FilterDone st2 out rest =>
      let s2 := set_state st2 s1 in
      let rb := mk_block (out ++ rest) (blen out) None false in
      (* the data we have just read may of just been metadata *)
      if b_len rb <=? 0 then (s2, None)
      else
        match format_data s2 with
        | Some sync =>
            let '(s3, rb', r) := validate_mpeg s2 sync rb in
            if r <? 0 then (s3, None) else queue_block s3 rb'
        | None => queue_block s2 rb
        end
  end.

(** The blocks a source queues while it reads a sequence of blocks, and the
    source afterwards. *)
Fixpoint ingest (s : source_t) (reads : list (list byte)) : source_t * list block_t :=
  match reads with
  | [] => (s, [])
  | fresh :: reads' =>
      let '(s1, ob) := mp3_get_filter_meta s fresh in
      let '(s2, obs) := ingest s1 reads' in
      (s2, match ob with Some b => b :: obs | None => obs end)
  end.

End Ingest.

(** *** format_mp3_create_client_data *)

(** [#define ICY_METADATA_INTERVAL 16000] *)
Definition ICY_METADATA_INTERVAL : Z := 16000.

Inductive format_type :=
| FORMAT_TYPE_AAC
| FORMAT_TYPE_MPEG
| FORMAT_TYPE_OTHER.

(** The listener while its response is prepared: the flags the function
    reads and writes, the request, the response headers in
    [client->refbuf] (the [refbuf->len] bytes of it) and the fields of the
    calloc'ed [mp3_client_data]. *)
Record listener_t := mk_listener {
  wants_flv : bool;              (* CLIENT_WANTS_FLV *)
  wants_meta : bool;             (* CLIENT_WANTS_META *)
  request : vars;                (* client->parser *)
  response : string;             (* client->refbuf->data, refbuf->len bytes *)
  has_format_data : bool;        (* client->format_data != NULL *)
  specific : bool;               (* client_mp3->specific allocated *)
  l_interval : Z                 (* client_mp3->interval *)
}.

(** The write position in the 4096 bytes of the header buffer: the text before
    [ptr] and [remaining]. *)
Record hbuf := mk_hbuf {
  text : string;
  remaining : Z
}.

(** [bytes = snprintf (ptr, remaining, line); remaining -= bytes; ptr += bytes].
    The line is written whole when it and its NUL fit.  Otherwise it is cut,
    [ptr] moves past what was written and [remaining] (a [size_t]) wraps: what
    the following writes do is undefined, and the model stops with [None]. *)
Definition snprintf (b : hbuf) (line : string) : option hbuf :=
  let bytes := Z.of_nat (String.length line) in
  if bytes <? remaining b
  then Some (mk_hbuf (text b ++ line) (remaining b - bytes))
  else None.

Inductive create_result :=
| NoMemory                        (* calloc failed: -1 *)
| HandedToFlv (c : listener_t)    (* flv_create_client_data did the rest: 0 *)
| HeadersFailed (c : listener_t)  (* format_general_headers failed: -1 *)
| Overflow                        (* a write leaves the 4096 bytes of the buffer *)
| Created (c : listener_t).       (* 0 *)

(** [client->format_data = calloc (1, sizeof (mp3_client_data))] and
    [client->refbuf->len = 0]. *)
Definition attach_client_data (c : listener_t) : listener_t :=
  mk_listener (wants_flv c) (wants_meta c) (request c) "" true false 0.

(** Listeners of AAC and MPEG mounts get an [mpeg_sync] of their own in
    [client_mp3->specific]. *)
Definition attach_specific (type : format_type) (c : listener_t) : listener_t :=
  match type with
  | FORMAT_TYPE_AAC | FORMAT_TYPE_MPEG =>
      mk_listener (wants_flv c) (wants_meta c) (request c) (response c)
                  (has_format_data c) true (l_interval c)
  | FORMAT_TYPE_OTHER => c
  end.

Section CreateClient.

(** flv.c and format.c are collaborators.  [format_general_headers] gives the
    text it left in [client->refbuf] (status line and general headers, closed
    by an empty line), or [None] when it fails. *)
Variable flv_create_client_data : listener_t -> listener_t.
Variable format_general_headers : listener_t -> option string.

Definition format_mp3_create_client_data
           (calloc_ok : bool) (type : format_type) (source_mp3 : mp3_state) (c : listener_t)
  : create_result :=
  if negb calloc_ok then NoMemory else
  let c0 := attach_client_data c in
  if wants_flv c0 then HandedToFlv (flv_create_client_data c0) else
  let c1 := attach_specific type c0 in
  match format_general_headers c1 with
  | None => HeadersFailed c1
  | Some general =>
      (* client->refbuf->len -= 2, on an unsigned length: below 2 it wraps and
         ptr = client->refbuf->data + client->refbuf->len leaves the buffer *)
      if (String.length general <? 2)%nat then Overflow else
      (* remaining = 4096 - client->refbuf->len *)
      let base := String.substring 0 (String.length general - 2) general in
      let b0 := mk_hbuf base (4096 - Z.of_nat (String.length base)) in
      let useragent := request c1 !! "user-agent" in
      let flash :=
        match request c1 !! "x-flash-version" with
        | Some _ => true
        | None => match useragent with
                  | Some ua => contains "MSIE" ua
                  | None => false
                  end
        end in
      (* hack for flash player, it wants a length *)
      match (if flash then snprintf b0 ("Content-Length: 221183499" ++ crlf) else Some b0) with
      | None => Overflow
      | Some b1 =>
      (* avoid browser caching *)
      match snprintf b1 ("Expires: Mon, 26 Jul 1997 05:00:00 GMT" ++ crlf) with
      | None => Overflow
      | Some b2 =>
      match snprintf b2 ("Pragma: no-cache" ++ crlf) with
      | None => Overflow
      | Some b3 =>
      let framing : option (hbuf * bool * Z) :=
        match request c1 !! "iceblocks" with
        | Some _ =>
            match snprintf b3 ("IceBlocks: 1.1" ++ crlf) with
            | None => None
            | Some b4 => Some (b4, true, l_interval c1)
            end
        | None =>
            (* check for shoutcast style metadata inserts *)
            match request c1 !! "icy-metadata" with
            | Some metadata =>
                if negb (atoi metadata =? 0) then
                  let interval :=
                    if 0 <=? mp3_interval source_mp3
                    then mp3_interval source_mp3 else ICY_METADATA_INTERVAL in
                  if negb (interval =? 0) then
                    match snprintf b3 ("icy-metaint:" ++ decimal (to_uint interval) ++ crlf) with
                    | None => None
                    | Some b4 => Some (b4, wants_meta c1, interval)
                    end
                  else Some (b3, wants_meta c1, interval)
                else Some (b3, wants_meta c1, l_interval c1)
            | None => Some (b3, wants_meta c1, l_interval c1)
            end
        end in
      match framing with
      | None => Overflow
      | Some (b4, meta, interval) =>
      match snprintf b4 crlf with
      | None => Overflow
      | Some b5 =>
          (* client->refbuf->len = 4096 - remaining *)
          Created (mk_listener (wants_flv c1) meta (request c1) (text b5)
                               true (specific c1) interval)
      end end end end end
  end.

End CreateClient.

(** [write_mpeg_buf_to_client], the writer of AAC and MPEG mounts, chooses the
    framing by the listener's flags. *)
Inductive framing :=
| Iceblock     (* send_iceblock_to_client *)
| FlvTags      (* write_flv_buf_to_client *)
| RawOrIcy.    (* format_mp3_write_buf_to_client *)


(** *** The ICY stream format, from the words of the specification

    "1 byte L giving 16-byte units, then 16 * L bytes", "in-band blocks at a
    period announced by icy-metaint". *)

(** An inline metadata block: the length byte and sixteen times as many bytes. *)
Definition icy_block (m : list byte) : Prop := blen m = 1 + 16 * first_byte m.



(** *** mp3_set_title: the metadata block for the listeners *)

Definition set_url_artist (v : option (list byte)) (st : mp3_state) : mp3_state :=
  mk_mp3 (metadata st) v (url_title st) (url st) (inline_url st) (update_metadata st) (mp3_interval st) (inline_metadata_interval st) (offset st) (build_metadata st) (build_metadata_len st) (build_metadata_offset st) (queue_block_size st) (read_data st) (read_count st).

Definition set_mp3_interval (v : Z) (st : mp3_state) : mp3_state :=
  mk_mp3 (metadata st) (url_artist st) (url_title st) (url st) (inline_url st) (update_metadata st) v (inline_metadata_interval st) (offset st) (build_metadata st) (build_metadata_len st) (build_metadata_offset st) (queue_block_size st) (read_data st) (read_count st).

Definition set_inline_metadata_interval (v : Z) (st : mp3_state) : mp3_state :=
  mk_mp3 (metadata st) (url_artist st) (url_title st) (url st) (inline_url st) (update_metadata st) (mp3_interval st) v (offset st) (build_metadata st) (build_metadata_len st) (build_metadata_offset st) (queue_block_size st) (read_data st) (read_count st).

Definition set_queue_block_size (v : Z) (st : mp3_state) : mp3_state :=
  mk_mp3 (metadata st) (url_artist st) (url_title st) (url st) (inline_url st) (update_metadata st) (mp3_interval st) (inline_metadata_interval st) (offset st) (build_metadata st) (build_metadata_len st) (build_metadata_offset st) v (read_data st) (read_count st).

(** [strlen] *)
Definition strlen (s : list byte) : Z := blen (cstr s).

(** [#define MAX_META_LEN 255*16] *)
Definition MAX_META_LEN : Z := 255 * 16.

(** The byte an [unsigned char] of that value is. *)
Definition byte_of (z : Z) : byte :=
  match Byte.of_N (Z.to_N (z mod 256)) with
  | Some b => b
  | None => x00
  end.

(** [snprintf (buf + off, n, ...)] where the conversions give the text [out]:
    at most [n - 1] bytes of it are written, and a NUL. *)
Definition snprintf_at (buf : list byte) (off n : Z) (out : list byte) : list byte :=
  if n <=? 0 then buf
  else
    let written := ztake (n - 1) out ++ [x00] in
    memcpy_at buf off written (blen written).

(** [strcat (buf + off, s)].  [None]: the string at [buf + off] does not end
    within the buffer, or [s] and its NUL do not fit behind it. *)
Definition strcat_at (buf : list byte) (off : Z) (s : list byte) : option (list byte) :=
  let k := off + strlen (zdrop off buf) in
  if k + blen s + 1 <=? blen buf
  then Some (memcpy_at buf k (s ++ [x00]) (blen s + 1))
  else None.

(** The length [mp3_set_title] works out for the message, an [unsigned int]. *)
Definition title_len (st : mp3_state) : Z :=
  let opt_len (v : option (list byte)) :=
    match v with Some s => strlen s | None => 0 end in
  (* sizeof (streamtitle) + 2: the StreamTitle, quotes, ; and null *)
  let len := 14 + 2 in
  let len := len + opt_len (url_artist st) in
  let len := len + opt_len (url_title st) in
  let len := if non_null (url_artist st) && non_null (url_title st) then len + 3 else len in
  let len :=
    match inline_url st with
    | Some u => len + (strlen u + 11 + 2)
    | None =>
        match url st with
        | Some u => len + (strlen u + 11 + 2)
        | None => len
        end
    end in
  to_uint len.

(** [mp3_set_title], as far as the ICY metadata refbuf goes: the state
    afterwards.  [None]: the code passes a NULL [url_title] to [%s], or writes
    past the end of the refbuf.  The statistics, the playlist log, the YP
    touch and the FLV and iceblock companions chained to the refbuf are not
    modelled. *)
Definition mp3_set_title (st : mp3_state) : option mp3_state :=
  let len := title_len st in
  if MAX_META_LEN <? len then Some st   (* Metadata too long *)
  else
    (* work out the metadata len byte *)
    let len_byte := (to_uint (len - 1) / 16 + 1) mod 256 in
    (* now we know how much space to allocate, +1 for the len byte *)
    let size := len_byte * 16 + 1 in
    let p := repeat x00 (Z.to_nat size) in
    match url_title st with
    | None => None
    | Some title =>
        let text :=
          match url_artist st with
          | Some artist => cstr artist ++ list_byte_of_string " - " ++ cstr title
          | None => cstr title
          end in
        let out := byte_of len_byte :: stream_title ++ text in
        let r := blen out in
        let p1 := snprintf_at p 0 size out in
        match strcat_at p1 14 quote_semi with
        | None => None
        | Some p2 =>
            (* r > 0 *)
            let r := r + 2 in
            (* size - r is not negative here: strcat has just fitted the
               string and its NUL into the [size] bytes *)
            let with_url (u : list byte) :=
              snprintf_at p2 r (size - r) (stream_url ++ cstr u ++ quote_semi) in
            let p3 :=
              match inline_url st with
              | Some u =>
                  if strlen u + 13 <? size - r then with_url u
                  else match url st with Some u' => with_url u' | None => p2 end
              | None =>
                  match url st with Some u' => with_url u' | None => p2 end
              end in
            Some (set_metadata p3 st)
        end
    end.

(** *** A source without inline metadata *)

Section IngestNoMeta.

Variable mpeg_sync : Type.
Variable mpeg_complete_frames : mpeg_sync -> block_t -> mpeg_sync * block_t * Z.
Variable mpeg_data_insert : mpeg_sync -> list byte -> mpeg_sync.
Variable mp3_set_title : mp3_state -> list byte.

(** The blocks a source queues while [mp3_get_no_meta] is its [get_buffer]
    and it fills a sequence of blocks, and the source afterwards. *)
Fixpoint ingest_no_meta (s : source_t mpeg_sync) (reads : list (list byte))
  : source_t mpeg_sync * list block_t :=
  match reads with
  | [] => (s, [])
  | fresh :: reads' =>
      let '(s1, ob) :=
        mp3_get_no_meta mpeg_sync mpeg_complete_frames mpeg_data_insert mp3_set_title
                        s fresh in
      let '(s2, obs) := ingest_no_meta s1 reads' in
      (s2, match ob with Some b => b :: obs | None => obs end)
  end.

End IngestNoMeta.


(** *** format_mp3_get_plugin and format_mp3_apply_settings *)

(** The two readers and the two writers a plugin of this file can have. *)
Inductive get_buffer_fn :=
| Get_no_meta          (* mp3_get_no_meta *)
| Get_filter_meta.     (* mp3_get_filter_meta *)

Inductive write_buf_fn :=
| Write_mp3            (* format_mp3_write_buf_to_client *)
| Write_mpeg.          (* write_mpeg_buf_to_client *)

(** What the two functions use of [format_plugin_t]. *)
Record format_plugin_t := mk_plugin {
  p_type : format_type;
  p_parser : vars;                     (* the headers the source client sent *)
  contenttype : option string;
  charset : option string;
  get_buffer : option get_buffer_fn;
  write_buf_to_client : option write_buf_fn;
  p_state : option mp3_state           (* plugin->_state *)
}.

(** The source client: CLIENT_META_INSTREAM and whether [format_data] holds an
    [mpeg_sync]. *)
Record source_client := mk_source_client {
  meta_instream : bool;
  has_sync : bool
}.

(** What the two functions use of [mount_proxy]. *)
Record mount_proxy := mk_mount {
  mp3_meta_interval : Z;
  mount_charset : option string;
  mount_queue_block_size : Z
}.

(** [format_mp3_get_plugin].  calloc, refbuf_new, malloc and strdup are taken
    to succeed.  [None]: the source sent icy-metaint and [client] is NULL, so
    that [client->flags] is read through a null pointer. *)
Definition format_mp3_get_plugin (plugin : format_plugin_t) (client : option source_client)
  : option (format_plugin_t * option source_client) :=
  let ctype :=
    match p_parser plugin !! "content-type" with
    | Some s => s
    | None => "audio/mpeg"%string   (* old clients without content types *)
    end in
  (* calloc (1, sizeof (mp3_state)), then the blank metadata and the interval *)
  let state :=
    mk_mp3 blank_meta_data None None None None 0 (-1) 0 0 build_metadata_zeroed 0 0 0
           None 0 in
  let reading : option (get_buffer_fn * mp3_state * option source_client) :=
    match p_parser plugin !! "icy-metaint" with
    | Some metadata =>
        match client with
        | None => None
        | Some c =>
            let c1 := mk_source_client true (has_sync c) in
            let state1 := set_inline_metadata_interval (atoi metadata) state in
            if 0 <? inline_metadata_interval state1 then
              Some (Get_filter_meta,
                    set_mp3_interval (inline_metadata_interval state1)
                                     (set_offset 0 state1),
                    Some c1)
            else Some (Get_no_meta, state1, Some c1)
        end
    | None => Some (Get_no_meta, state, client)
    end in
  match reading with
  | None => None
  | Some (reader, state2, client2) =>
      let mpeg :=
        match p_type plugin with
        | FORMAT_TYPE_AAC | FORMAT_TYPE_MPEG => true
        | FORMAT_TYPE_OTHER => false
        end in
      match client2 with
      | Some c =>
          if mpeg then
            Some (mk_plugin (p_type plugin) (p_parser plugin) (Some ctype) (charset plugin)
                            (Some reader) (Some Write_mpeg) (Some state2),
                  Some (mk_source_client (meta_instream c) true))
          else
            Some (mk_plugin (p_type plugin) (p_parser plugin) (Some ctype) (charset plugin)
                            (Some reader) (Some Write_mp3) (Some state2),
                  client2)
      | None =>
          Some (mk_plugin (p_type plugin) (p_parser plugin) (Some ctype) (charset plugin)
                          (Some reader) (Some Write_mp3) (Some state2),
                client2)
      end
  end.

(** [format_mp3_apply_settings] *)
Definition format_mp3_apply_settings (format : format_plugin_t) (mount : option mount_proxy)
  : format_plugin_t :=
  match p_state format with
  | None => format
  | Some source_mp3 =>
      let st := set_queue_block_size 1400 (set_mp3_interval (-1) source_mp3) in
      let cs : option string := None in
      let '(st, cs) :=
        match mount with
        | Some m =>
            let st1 :=
              if 0 <=? mp3_meta_interval m
              then set_mp3_interval (mp3_meta_interval m) st else st in
            let cs1 :=
              match mount_charset m with
              | Some c => Some c
              | None => cs
              end in
            let st2 :=
              if negb (mount_queue_block_size m =? 0)
              then set_queue_block_size (mount_queue_block_size m) st1 else st1 in
            (st2, cs1)
        | None => (st, cs)
        end in
      let st :=
        if mp3_interval st <? 0 then
          let st1 := set_mp3_interval ICY_METADATA_INTERVAL st in
          match p_parser format !! "icy-metaint" with
          | Some metadata =>
              let interval := atoi metadata in
              if 0 <? interval then set_mp3_interval interval st1 else st1
          | None => st1
          end
        else st in
      let cs :=
        match cs with
        | Some c => Some c
        | None => Some "ISO8859-1"%string
        end in
      mk_plugin (p_type format) (p_parser format) (contenttype format) cs
                (get_buffer format) (write_buf_to_client format) (Some st)
  end.


End FormatMp3.

(** ** slave.c *)

Module Slave.

(** [%d] *)
Definition decimal_int (z : Z) : string :=
  if z <? 0 then "-" ++ decimal (- z) else decimal z.

(** *** Redirect peers *)

Record redirect_host := mk_redirect {
  server : string;
  port : Z;
  next_update : Z        (* time_t *)
}.

(** [redirectors] and [global.redirect_count]. *)
Record redirect_state := mk_redirects {
  redirectors : list redirect_host;
  redirect_count : Z
}.

(** What redirect_client reads of the listener. *)
Record listener_t := mk_listener {
  username : option string;
  password : option string;
  queryargs : option string   (* httpp_getvar (client->parser, HTTPP_VAR_QUERYARGS) *)
}.

(** [checking->next_update && checking->next_update+10 < time(NULL)] *)
Definition expired (now : Z) (h : redirect_host) : bool :=
  negb (next_update h =? 0) && (next_update h + 10 <? now).

(** The Location of the 302: [alloca (len)] and
    [snprintf (location, len, "http://%s%s%s%s%s:%d%s%s", ...)], which keeps at
    most [len - 1] characters. *)
Definition redirect_location (mountpoint : string) (c : listener_t) (h : redirect_host)
  : string :=
  let args := match queryargs c with Some a => a | None => "" end in
  let len := (String.length mountpoint + String.length (server h) + 15
              + String.length args)%nat in
  let '(user, colon, pass, at_sign, len) :=
    match username c, password c with
    | Some u, Some p => (u, ":", p, "@", (len + String.length u + String.length p)%nat)
    | _, _ => ("", "", "", "", len)
    end in
  String.substring 0 (len - 1)
    ("http://" ++ user ++ colon ++ pass ++ at_sign ++ server h ++ ":"
     ++ decimal_int (port h) ++ mountpoint ++ args).

(** The walk of redirect_client over the list: the hosts kept, the number
    dropped, and the hosts a 302 was sent for with its Location.  [which] is
    the random selection, counted down. *)
Fixpoint redirect_walk (now which : Z) (mountpoint : string) (c : listener_t)
         (hosts : list redirect_host)
  : list redirect_host * Z * list (redirect_host * string) :=
  match hosts with
  | [] => ([], 0, [])
  | checking :: rest =>
      if expired now checking then
        (* no streamlist request, expire slave for now *)
        let which' := if 0 <? which then which - 1 else which in
        let '(kept, dropped, sent) := redirect_walk now which' mountpoint c rest in
        (kept, dropped + 1, sent)
      else
        let which' := which - 1 in
        let '(kept, dropped, sent) := redirect_walk now which' mountpoint c rest in
        (checking :: kept, dropped,
         if which' =? 0
         then (checking, redirect_location mountpoint c checking) :: sent
         else sent)
  end.

(** [redirect_client]: the state afterwards, the return value and the 302s
    sent.  [which] stands for the value drawn with [rand ()]; [now] for
    [time (NULL)], taken to be the same for every host of one walk. *)
Definition redirect_client (now which : Z) (mountpoint : string) (c : listener_t)
           (g : redirect_state)
  : redirect_state * Z * list (redirect_host * string) :=
  if redirect_count g =? 0 then (g, 0, [])
  else
    let '(kept, dropped, sent) := redirect_walk now which mountpoint c (redirectors g) in
    (mk_redirects kept (redirect_count g - dropped),
     match sent with [] => 0 | _ => 1 end,
     sent).

(** [find_slave_host]: the first entry for the server and port, as its
    position in the list. *)
Definition same_host (srv : string) (prt : Z) (h : redirect_host) : Prop :=
  server h = srv /\ port h = prt.

#[global] Instance same_host_dec srv prt h : Decision (same_host srv prt h).
Proof. unfold same_host. apply _. Defined.

Definition find_slave_host (srv : string) (prt : Z) (hosts : list redirect_host)
  : option (nat * redirect_host) :=
  list_find (same_host srv prt) hosts.

(** [redirector_add] *)
Definition redirector_add (now : Z) (srv : string) (prt interval : Z) (g : redirect_state)
  : redirect_state :=
  let redirect :=
    mk_redirect srv prt (if interval =? 0 then 0 else now + interval) in
  mk_redirects (redirect :: redirectors g) (redirect_count g + 1).

(** [redirector_update].  [query] are the query parameters of the request,
    [max_redirects] is [config->max_redirects]; the comparison with
    [global.redirect_count] is made in [unsigned int]. *)
Definition redirector_update (now max_redirects : Z) (query : vars) (g : redirect_state)
  : redirect_state :=
  match query !! "rserver" with
  | None => g
  | Some rserver =>
  match query !! "rport" with
  | None => g
  | Some value =>
  let rport := atoi value in
  if rport <=? 0 then g else
  match query !! "interval" with
  | None => g
  | Some value =>
  let interval := atoi value in
  if interval <? 5 then g else
  match find_slave_host rserver rport (redirectors g) with
  | None =>
      let allowed := to_uint max_redirects in
      if to_uint (redirect_count g) <? allowed
      then redirector_add now rserver rport interval g
      else g
  | Some (i, redirect) =>
      (* touch update *)
      mk_redirects
        (<[i := mk_redirect (server redirect) (port redirect) (now + interval)]>
           (redirectors g))
        (redirect_count g)
  end end end end.

(** *** Relays *)

Record relay_server_master := mk_master {
  m_ip : string;
  m_port : Z;
  m_mount : string;
  m_bind : option string;
  m_timeout : Z;
  m_skip : bool
}.

(** [relay->source], as far as this file looks into it: which source it is and
    whether that source has a client. *)
Record source_ref := mk_source_ref {
  src_id : Z;
  src_has_client : bool
}.

(** [relay_server].  [in_use] points into [masters]: it is a position. *)
#[local] Unset Elimination Schemes.
Inductive relay_server := mk_relay {
  localmount : string;
  masters : list relay_server_master;
  r_username : option string;
  r_password : option string;
  mp3metadata : Z;
  on_demand : Z;
  interval : Z;
  running : Z;
  cleanup : Z;
  source : option source_ref;
  in_use : option nat;
  new_details : option relay_server
}.
#[local] Set Elimination Schemes.

Definition set_source (v : option source_ref) (r : relay_server) : relay_server :=
  mk_relay (localmount r) (masters r) (r_username r) (r_password r) (mp3metadata r)
           (on_demand r) (interval r) (running r) (cleanup r) v (in_use r)
           (new_details r).

Definition set_on_demand (v : Z) (r : relay_server) : relay_server :=
  mk_relay (localmount r) (masters r) (r_username r) (r_password r) (mp3metadata r)
           v (interval r) (running r) (cleanup r) (source r) (in_use r)
           (new_details r).

Definition set_new_details (v : option relay_server) (r : relay_server) : relay_server :=
  mk_relay (localmount r) (masters r) (r_username r) (r_password r) (mp3metadata r)
           (on_demand r) (interval r) (running r) (cleanup r) (source r) (in_use r) v.

Definition set_in_use (v : option nat) (r : relay_server) : relay_server :=
  mk_relay (localmount r) (masters r) (r_username r) (r_password r) (mp3metadata r)
           (on_demand r) (interval r) (running r) (cleanup r) (source r) v
           (new_details r).

Definition set_masters (v : list relay_server_master) (r : relay_server) : relay_server :=
  mk_relay (localmount r) v (r_username r) (r_password r) (mp3metadata r)
           (on_demand r) (interval r) (running r) (cleanup r) (source r) (in_use r)
           (new_details r).

Definition set_running (v : Z) (r : relay_server) : relay_server :=
  mk_relay (localmount r) (masters r) (r_username r) (r_password r) (mp3metadata r)
           (on_demand r) (interval r) v (cleanup r) (source r) (in_use r)
           (new_details r).

Definition set_skip (v : bool) (m : relay_server_master) : relay_server_master :=
  mk_master (m_ip m) (m_port m) (m_mount m) (m_bind m) (m_timeout m) v.

(** [relay_copy]: the copy, and the relay copied, whose [source] the function
    clears. *)
Definition relay_copy (r : relay_server) : relay_server * relay_server :=
  (mk_relay (localmount r)
            (map (fun from => mk_master (m_ip from) (m_port from) (m_mount from)
                                        (m_bind from) (m_timeout from) false)
                 (masters r))
            (r_username r) (r_password r) (mp3metadata r) (on_demand r) (interval r)
            1 0 None None None,
   set_source None r).

(** The comparison of the two lists of masters in relay_has_changed: [true]
    when the inner loop stops at a pair that differs in mount, ip or port, or
    when one list is longer than the other. *)
Fixpoint masters_differ (olds news : list relay_server_master) : bool :=
  match olds, news with
  | oldmaster :: olds', newmaster :: news' =>
      if negb (String.eqb (m_mount newmaster) (m_mount oldmaster)) then true
      else if negb (String.eqb (m_ip newmaster) (m_ip oldmaster)) then true
      else if negb (m_port newmaster =? m_port oldmaster) then true
      else masters_differ olds' news'
  | [], [] => false
  | _, _ => true
  end.

(** [relay_has_changed (new, old)]: the return value and both relays
    afterwards. *)
Definition relay_has_changed (new old : relay_server)
  : Z * relay_server * relay_server :=
  if masters_differ (masters old) (masters new) then (1, set_source (source old) new, old)
  else if negb (mp3metadata new =? mp3metadata old)
       then (1, set_source (source old) new, old)
  else (0, new,
        if negb (on_demand new =? on_demand old)
        then set_on_demand (on_demand new) old else old).

(** What update_relay_set does besides building lists. *)
Inductive effect :=
| Installed (r : relay_server)    (* relay_install: a client is created for the relay *)
| Restarting (r : relay_server)   (* an existing relay was given [new_details] *)
| Woken (src : Z).                (* [source->client->schedule_ms = 0] *)

(** The inner loop of update_relay_set: the first relay of [current] with the
    local mount, with the relays before and after it. *)
Fixpoint find_existing (mount : string) (current : list relay_server)
  : option (list relay_server * relay_server * list relay_server) :=
  match current with
  | [] => None
  | existing_relay :: rest =>
      if String.eqb mount (localmount existing_relay)
      then Some ([], existing_relay, rest)
      else match find_existing mount rest with
           | Some (before, found, after) => Some (existing_relay :: before, found, after)
           | None => None
           end
  end.

(** [update_relay_set (&current, updated)]: the list returned, what is left
    of [current], the relays of [updated] afterwards and the effects.
    [ice_running] is [global.running == ICE_RUNNING]. *)
Fixpoint update_relay_set (ice_running : bool) (current updated new_list : list relay_server)
  : list relay_server * list relay_server * list relay_server * list effect :=
  match updated with
  | [] => (new_list, current, [], [])
  | relay :: rest =>
      match find_existing (localmount relay) current with
      | Some (before, existing_relay, after) =>
          let '(new, relay', effects) :=
            if ice_running then
              let '(changed, relay1, existing1) := relay_has_changed relay existing_relay in
              if negb (changed =? 0) then
                let '(copy, relay2) := relay_copy relay1 in
                (copy, relay2,
                 Restarting (set_new_details (Some copy) existing1)
                 :: match source existing1 with
                    | Some src => if src_has_client src then [Woken (src_id src)] else []
                    | None => []
                    end)
              else (existing1, relay1, [])
            else (existing_relay, relay, []) in
          let '(result, current', rest', effects') :=
            update_relay_set ice_running (before ++ after) rest (new :: new_list) in
          (result, current', relay' :: rest', effects ++ effects')
      | None =>
          (* new one, copy and insert *)
          let '(copy, relay') := relay_copy relay in
          let '(result, current', rest', effects') :=
            update_relay_set ice_running current rest (copy :: new_list) in
          (result, current', relay' :: rest', Installed copy :: effects')
      end
  end.

(** *** Opening the upstream connection *)

(** Where a connection goes. *)
Record target := mk_target {
  t_server : string;
  t_port : Z;
  t_mount : string
}.

(** What comes of one connection: [connection_init] fails, the response
    cannot be read or parsed, it is a 302, it carries an error message, or it
    is accepted.  A 302 comes with what [httpp_getvar (parser, "location")]
    gives: the Location header, or NULL when the reply has none. *)
Inductive reply :=
| ConnectFailed
| NoResponse
| Redirect (location : option string)
| Refused (message : string)
| Accepted.

(** How an attempt ends: with [return 0], on the failure path (the [break]s
    and the end of the loop, which lead to [return -1]), or in
    [strncmp (uri, "http://", 7)] with [uri] NULL, from which the function
    does not return. *)
Inductive ending :=
| Connected
| GaveUp
| NullRead.

(** [strcspn (s, ":/")] *)
Fixpoint host_length (s : string) : nat :=
  match s with
  | EmptyString => O
  | String c s' =>
      if (Ascii.eqb c ":" || Ascii.eqb c "/")%bool then O else S (host_length s')
  end.

(** The new target after a 302: [uri] is the Location past its "http://". *)
Definition redirect_target (uri : string) : target :=
  let mount :=
    match String.index 0 "/" uri with
    | Some k => String.substring k (String.length uri - k) uri
    | None => "/"
    end in
  let len := host_length uri in
  let port :=
    match String.get len uri with
    | Some ":"%char => atoi (String.substring (S len) (String.length uri - S len) uri)
    | _ => 80
    end in
  mk_target (String.substring 0 len uri) port mount.

Section OpenRelay.

(** The network: the reply to the [n]-th connection of an attempt, made to a
    target. *)
Variable upstream : nat -> target -> reply.

(** The loop [while (redirects < 10)], with [left = 10 - redirects] rounds to
    go: how it ends, and the connections made. *)
Fixpoint connect_loop (left redirects : nat) (t : target) : ending * list target :=
  match left with
  | O => (GaveUp, [])
  | S left' =>
      match upstream redirects t with
      | ConnectFailed => (GaveUp, [t])
      | NoResponse => (GaveUp, [t])
      | Redirect None =>
          (* uri = httpp_getvar (parser, "location") is NULL *)
          (NullRead, [t])
      | Redirect (Some location) =>
          (* better retry the connection again but with different details *)
          if negb (String.prefix "http://" location) then (GaveUp, [t])
          else
            let uri := String.substring 7 (String.length location - 7) location in
            let '(e, ts) := connect_loop left' (S redirects) (redirect_target uri) in
            (e, t :: ts)
      | Refused _ => (GaveUp, [t])
      | Accepted => (Connected, [t])
      end
  end.

(** [open_relay_connection (client, relay, master)], [master] being the entry
    at position [i] of [relay->masters]: the return value, the relay
    afterwards and the connections made.  [None]: a 302 without a Location
    header was received and the code reads through the NULL pointer. *)
Definition open_relay_connection (relay : relay_server) (i : nat) (master : relay_server_master)
  : option (Z * relay_server * list target) :=
  let '(e, ts) := connect_loop 10 0 (mk_target (m_ip master) (m_port master) (m_mount master)) in
  (* relay->in_use = master, in the first round *)
  let relay1 := set_in_use (Some i) relay in
  match e with
  | Connected => Some (0, relay1, ts)
  | GaveUp =>
      (* failed, better clean up: if (relay->in_use) relay->in_use->skip = 1 *)
      Some (-1, set_masters (<[i := set_skip true master]> (masters relay1)) relay1, ts)
  | NullRead => None
  end.

End OpenRelay.

(** *** Starting relays *)

(** [global.running], [global.new_connections_slowdown] and the counter
    [relays_connecting], which relay_start_lock protects. *)
Record globals := mk_globals {
  ice_running : bool;                 (* global.running == ICE_RUNNING *)
  new_connections_slowdown : Z;
  relays_connecting : Z
}.

Inductive client_ops :=
| relay_client_ops      (* relay_read *)
| relay_startup_ops     (* relay_startup *)
| relay_init_ops.       (* relay_initialise *)

(** The client of a relay. *)
Record relay_client := mk_relay_client {
  shared_data : relay_server;
  ops : client_ops;
  schedule_ms : Z;
  active : bool          (* CLIENT_ACTIVE *)
}.

(** What relay_startup finds out about the demand for an on-demand relay: the
    listeners of its source and, when the mount has a fallback, either the
    source found for it (whether it is another mount, and its listeners) or the
    count [fserve_query_count] gives for the file. *)
Inductive fallback_info :=
| FallbackSource (other_mount : bool) (listeners : Z)
| FallbackFile (count : Z).

Record demand := mk_demand {
  d_listeners : Z;
  d_fallback : option fallback_info
}.

(** [get_relay_details] *)
Definition get_relay_details (c : relay_client) : relay_client :=
  let relay := shared_data c in
  match new_details relay with
  | Some details =>
      mk_relay_client (set_source (source relay) details) (ops c) (schedule_ms c) (active c)
  | None => c
  end.

Inductive startup_result :=
| Release      (* -1: the client is released *)
| Again        (* 0: the client stays with its worker *)
| Spawned.     (* 0, and a thread runs start_relay_stream for the client *)

(** [relay_startup].  [time_ms] is [worker->time_ms]. *)
Definition relay_startup (time_ms : Z) (d : demand) (g : globals) (c : relay_client)
  : globals * relay_client * startup_result :=
  let c := get_relay_details c in
  let relay := shared_data c in
  (* listeners may be still on, do a recheck *)
  let relay := if negb (cleanup relay =? 0) then set_running 0 relay else relay in
  let c := mk_relay_client relay (ops c) (schedule_ms c) (active c) in
  if running relay =? 0 then
    match source relay with
    | None => (g, c, Release)
    | Some _ => (g, mk_relay_client relay relay_client_ops (time_ms + 20) (active c), Again)
    end
  else if negb (ice_running g) then
    (* wait for cleanup *)
    (g, mk_relay_client relay (ops c) (time_ms + 50) (active c), Again)
  else
    let start_relay :=
      if negb (on_demand relay =? 0) then
        let start0 := d_listeners d in
        match d_fallback d with
        | Some (FallbackSource other_mount listeners) =>
            if other_mount && negb (listeners =? 0) then 1 else start0
        | Some (FallbackFile count) => if 0 <? count then 1 else start0
        | None => start0
        end
      else 1 in
    if (negb (on_demand relay =? 0)) && (start_relay =? 0) then
      (g,
       mk_relay_client relay (ops c)
         (time_ms + match d_fallback d with
                    | Some _ => interval relay * 1000
                    | None => 60000
                    end)
         (active c),
       Again)
    else
      (* limit the number of relays starting up at the same time *)
      if 3 <? relays_connecting g then
        (mk_globals (ice_running g)
                    (if new_connections_slowdown g <? 5
                     then new_connections_slowdown g + 1
                     else new_connections_slowdown g)
                    (relays_connecting g),
         mk_relay_client relay (ops c) (time_ms + 200) (active c),
         Again)
      else
        (mk_globals (ice_running g) (new_connections_slowdown g) (relays_connecting g + 1),
         mk_relay_client relay (ops c) (schedule_ms c) false,
         Spawned).

(** The end of start_relay_stream, which every path through the function
    reaches: the counter is taken down under the lock and the client is handed
    back to its worker.  [now] is [timing_get_time ()]. *)
Definition start_relay_stream_end (now : Z) (g : globals) (c : relay_client)
  : globals * relay_client :=
  (mk_globals (ice_running g) (new_connections_slowdown g) (relays_connecting g - 1),
   mk_relay_client (shared_data c) relay_client_ops now true).

(** The relays of the server as the counter sees them: the globals and the
    clients whose start_relay_stream thread is running. *)
Record starting := mk_starting {
  glob : globals;
  opening : list relay_client
}.

(** What can happen: a worker runs relay_startup for a client, or the thread
    of the [n]-th client that is being opened comes to its end. *)
Inductive happening :=
| Visit (time_ms : Z) (d : demand) (c : relay_client)
| ThreadEnds (n : nat) (now : Z).

Definition happen (s : starting) (h : happening) : starting :=
  match h with
  | Visit time_ms d c =>
      let '(g, c', r) := relay_startup time_ms d (glob s) c in
      match r with
      | Spawned => mk_starting g (c' :: opening s)
      | _ => mk_starting g (opening s)
      end
  | ThreadEnds n now =>
      match opening s !! n with
      | Some c => mk_starting (fst (start_relay_stream_end now (glob s) c))
                              (delete n (opening s))
      | None => s
      end
  end.

(** slave_initialize: [relays_connecting = 0]. *)
Definition slave_initialize : starting :=
  mk_starting (mk_globals true 0 0) [].

(** *** open_relay and relay_reset *)

Section OpenRelayMasters.

(** The network as the master at position [i] of the list is tried, whether
    [connection_complete_source] then succeeds, and whether the server is
    still running ([global.running == ICE_RUNNING]) when the loop condition is
    tested after that master. *)
Variable upstream : nat -> nat -> target -> reply.
Variable connection_complete_source : nat -> bool.
Variable still_running : nat -> bool.

(** The body of the loop for the master at position [i]: whether the relay is
    connected ([return 1]) or the loop goes on ([continue]), the relay
    afterwards and the connections made, each with the position of its
    master. *)
Definition open_relay_master (i : nat) (master : relay_server_master) (relay : relay_server)
  : option (bool * relay_server * list (nat * target)) :=
  if m_skip master then Some (false, relay, [])
  else
    match open_relay_connection (upstream i) relay i master with
    | None => None
    | Some (ret, relay1, ts) =>
        let conns := map (pair i) ts in
        if ret <? 0 then Some (false, relay1, conns)
        else if connection_complete_source i then Some (true, relay1, conns)
        else Some (false, relay1, conns)
    end.

(** The [do ... while ((master = master->next) && global.running == ICE_RUNNING)]
    loop from the master at position [i] on, [rest] being the masters after
    it. *)
Fixpoint open_relay_from (i : nat) (master : relay_server_master)
         (rest : list relay_server_master) (relay : relay_server) {struct rest}
  : option (Z * relay_server * list (nat * target)) :=
  match open_relay_master i master relay with
  | None => None
  | Some (connected, relay1, conns) =>
      if connected then Some (1, relay1, conns)
      else
        match rest with
        | next :: rest' =>
            if still_running i then
              match open_relay_from (S i) next rest' relay1 with
              | None => None
              | Some (ret, relay2, conns') => Some (ret, relay2, conns ++ conns')
              end
            else Some (-1, relay1, conns)
        | [] => Some (-1, relay1, conns)
        end
  end.

(** [open_relay].  [None]: the list of masters is empty and the code reads
    [master->skip] through a NULL pointer, or a master answered with a 302
    without a Location header (see [open_relay_connection]). *)
Definition open_relay (relay : relay_server)
  : option (Z * relay_server * list (nat * target)) :=
  match masters relay with
  | [] => None
  | master :: rest => open_relay_from 0 master rest relay
  end.

End OpenRelayMasters.

(** [relay_reset]; [source_clear_source] is not modelled. *)
Definition relay_reset (relay : relay_server) : relay_server :=
  set_masters (map (set_skip false) (masters relay)) relay.

(** *** update_relays *)

Definition set_cleanup (v : Z) (r : relay_server) : relay_server :=
  mk_relay (localmount r) (masters r) (r_username r) (r_password r) (mp3metadata r)
           (on_demand r) (interval r) (running r) v (source r) (in_use r)
           (new_details r).

(** The shutdown request to the client of a relay that is to be released. *)
Definition shutdown_request (to_release : relay_server) : list effect :=
  match source to_release with
  | Some src => if src_has_client src then [Woken (src_id src)] else []
  | None => []
  end.

(** [update_relays (relay_list, new_relay_list)]: the list [*relay_list]
    afterwards ([None] when [relay_list] is NULL), the relays released, each
    with [cleanup] set, the relays of [new_relay_list] afterwards and the
    effects.  The wake-up of the workers is not modelled. *)
Definition update_relays (ice_running : bool) (relay_list : option (list relay_server))
           (new_relay_list : list relay_server)
  : option (list relay_server) * list relay_server * list relay_server * list effect :=
  match relay_list with
  | Some current =>
      let '(active_relays, cleanup_relays, updated, effects) :=
        update_relay_set ice_running current new_relay_list [] in
      (Some active_relays, map (set_cleanup 1) cleanup_relays, updated,
       effects ++ flat_map shutdown_request cleanup_relays)
  | None =>
      (None, map (set_cleanup 1) new_relay_list, map (set_cleanup 1) new_relay_list,
       flat_map shutdown_request new_relay_list)
  end.

(** *** The other functions of the redirect list *)

(** What these functions read of [ice_config_t]. *)
Record ice_config := mk_config {
  redirect_hosts : list (string * Z);   (* config->redirect_hosts: server and port *)
  master_server : option string;
  master_server_port : Z;
  master_redirect : Z;
  max_redirects : Z;
  master_update_interval : Z
}.

(** [redirector_clearall] *)
Definition redirector_clearall (g : redirect_state) : redirect_state :=
  mk_redirects [] 0.

(** [redirector_setup] *)
Definition redirector_setup (now : Z) (config : ice_config) (g : redirect_state)
  : redirect_state :=
  fold_left (fun g redir => redirector_add now (fst redir) (snd redir) 0 g)
            (redirect_hosts config) g.

(** [update_master_as_slave] *)
Definition update_master_as_slave (now : Z) (config : ice_config) (g : redirect_state)
  : redirect_state :=
  match master_server config with
  | None => g
  | Some srv =>
      if (master_redirect config =? 0) || (max_redirects config =? 0) then g
      else
        match find_slave_host srv (master_server_port config) (redirectors g) with
        | None => redirector_add now srv (master_server_port config) 0 g
        | Some (i, redirect) =>
            mk_redirects
              (<[i := mk_redirect (server redirect) (port redirect)
                        (next_update redirect + master_update_interval config)]>
                 (redirectors g))
              (redirect_count g)
        end
  end.

(** The calls that read or write the redirect list, each at its time
    [time (NULL)]. *)
Inductive redirect_call :=
| Setup (config : ice_config)                     (* redirector_setup *)
| MasterAsSlave (config : ice_config)             (* update_master_as_slave *)
| Update (config : ice_config) (query : vars)     (* redirector_update *)
| Lookup (which : Z) (mountpoint : string) (c : listener_t)   (* redirect_client *)
| ClearAll.                                       (* redirector_clearall *)

Definition redirect_call_run (g : redirect_state) (call : Z * redirect_call)
  : redirect_state :=
  let now := fst call in
  match snd call with
  | Setup config => redirector_setup now config g
  | MasterAsSlave config => update_master_as_slave now config g
  | Update config query => redirector_update now (max_redirects config) query g
  | Lookup which mountpoint c => fst (fst (redirect_client now which mountpoint c g))
  | ClearAll => redirector_clearall g
  end.

End Slave.

(** ** Properties of format_mp3.c *)

Module FormatMp3Facts.
Import FormatMp3.

(** *** Facts about the listener writers *)

Definition assoc_data (a : assoc_ptr) : list byte :=
  match a with
  | Null => []
  | Blank => blank_meta_data
  | Ref m => m_data m
  end.

(** What holds of a listener between two ticks. *)
Record listener_ok (c : client_t) : Prop := mk_listener_ok {
  ok_pos : 0 <= pos c <= blen (data (refbuf c));
  ok_since : 0 <= since_meta_block c <= interval c;
  ok_idle : in_metadata c = false -> metadata_offset c = 0;
  ok_resume : in_metadata c = true ->
              cl_associated c <> Null /\
              0 <= metadata_offset c <= blen (assoc_data (cl_associated c));
  ok_blank : using_blank_meta c = true -> cl_associated c = Blank
}.

Lemma blen_nonneg {A} (l : list A) : 0 <= blen l.
Proof. unfold blen. lia. Qed.

Lemma blen_app {A} (l1 l2 : list A) : blen (l1 ++ l2) = blen l1 + blen l2.
Proof. unfold blen. rewrite length_app. lia. Qed.

Lemma blen_ztake {A} (n : Z) (l : list A) :
  0 <= n <= blen l -> blen (ztake n l) = n.
Proof. unfold blen, ztake. intros H. rewrite length_take. lia. Qed.

Lemma blen_zdrop {A} (n : Z) (l : list A) :
  0 <= n <= blen l -> blen (zdrop n l) = blen l - n.
Proof. unfold blen, zdrop. intros H. rewrite length_drop. lia. Qed.

Lemma sock_send_le (s : sock) (len : Z) : 0 <= len -> sock_send s len <= len.
Proof. destruct s; simpl; lia. Qed.

Lemma sock_send_lower (s : sock) (len : Z) : 0 <= len -> -1 <= sock_send s len.
Proof. destruct s; simpl; lia. Qed.



(** The choice of metadata never dereferences NULL in a well-formed listener,
    and the length the code computes is the length of the bytes it points at. *)
Lemma icy_metadata_choice_ok (c : client_t) (rb : refbuf_t) :
  listener_ok c ->
  exists md c1,
    icy_metadata_choice c rb = Some (md, blen md, c1) /\
    pos c1 = pos c /\ queue_pos c1 = queue_pos c /\ counter c1 = counter c /\
    schedule_ms c1 = schedule_ms c /\ refbuf c1 = refbuf c /\
    interval c1 = interval c /\ since_meta_block c1 = since_meta_block c /\
    metadata_offset c1 = metadata_offset c /\
    cl_associated c1 <> Null /\
    (using_blank_meta c1 = true -> cl_associated c1 = Blank) /\
    0 <= metadata_offset c1 <= blen (assoc_data (cl_associated c1)) /\
    (forall r, 0 < r < blen md ->
               metadata_offset c1 + r <= blen (assoc_data (cl_associated c1))).
Proof.
  intros [Hpos Hsince Hidle Hres Hblank]. unfold icy_metadata_choice.
  pose proof (blen_nonneg blank_meta_data) as Hb.
  destruct (in_metadata c) eqn:Ein.
  - destruct (Hres eq_refl) as [Hnn Hoff].
    destruct (cl_associated c) as [| |m] eqn:Ea; [congruence| |]; simpl in Hoff.
    + exists (zdrop (metadata_offset c) blank_meta_data), c.
      rewrite blen_zdrop by exact Hoff. rewrite Ea. simpl.
      repeat split; auto; try discriminate; try lia; intros r Hr; lia.
    + exists (zdrop (metadata_offset c) (m_data m)), c.
      rewrite blen_zdrop by exact Hoff. rewrite Ea. simpl.
      repeat split; auto; try discriminate; try lia; intros r Hr; lia.
  - specialize (Hidle eq_refl).
    destruct (meta_changed (associated rb) (cl_associated c)) as [m|] eqn:Ech.
    + eexists _, _. split; [reflexivity|]. simpl.
      pose proof (blen_nonneg (m_data m)).
      repeat split; auto; try discriminate; try lia; intros r Hr; lia.
    + destruct (non_null (associated rb) || using_blank_meta c) eqn:Eor.
      * exists [x00], c. split; [reflexivity|].
        assert (Hnn : cl_associated c <> Null).
        { apply orb_true_iff in Eor. destruct Eor as [E|E].
          - destruct (associated rb) as [m|]; [|discriminate].
            simpl in Ech. destruct (cl_associated c); discriminate.
          - rewrite (Hblank E). discriminate. }
        pose proof (blen_nonneg (assoc_data (cl_associated c))).
        repeat split; auto; try lia.
        intros r Hr. unfold blen in Hr. simpl in Hr. lia.
      * eexists _, _. split.
        { rewrite blen_zdrop; [reflexivity|]. lia. }
        simpl. repeat split; auto; try discriminate; try lia.
        intros r Hr. rewrite blen_zdrop in Hr; lia.
Qed.

(** What one write does to the accounting of payload and inserts. *)
Definition step_ok (c c' : client_t) (w : list wire) : Prop :=
  listener_ok c' /\ interval c' = interval c /\
  0 <= inserts w /\
  payload_total w + since_meta_block c
    = interval c * inserts w + since_meta_block c' /\
  segments (since_meta_block c) w
    = repeat (interval c) (Z.to_nat (inserts w)) ++ [since_meta_block c'].

Lemma blen_audio (n p : Z) (l : list byte) :
  0 <= p <= blen l -> 0 <= n <= blen l - p -> blen (ztake n (zdrop p l)) = n.
Proof.
  intros Hp Hn. rewrite blen_ztake; [reflexivity|]. rewrite blen_zdrop; lia.
Qed.

Lemma send_icy_metadata_ok (c : client_t) (s : sock) :
  listener_ok c -> 0 < interval c -> since_meta_block c = interval c ->
  exists c' ret w,
    send_icy_metadata c (refbuf c) s = Some (c', ret, w) /\ step_ok c c' w.
Proof.
  intros Hok Hi Hs.
  destruct (icy_metadata_choice_ok c (refbuf c) Hok)
    as (md & c1 & Ech & Ep & Eq & Ec & Esch & Erb & Ei & Esi & Eo & Hnn & Hbl & Hoff & Hpart).
  destruct Hok as [Hpos _ _ _ _].
  unfold send_icy_metadata. rewrite Ech.
  set (bl0 := blen (data (refbuf c)) - pos c1).
  set (bl := if interval c1 <? bl0 then interval c1 else bl0).
  assert (Hbl0 : 0 <= bl <= bl0 /\ bl <= interval c).
  { subst bl bl0. rewrite Ep, Ei. destruct (interval c <? _) eqn:E; lia. }
  pose proof (blen_nonneg md) as Hmd.
  pose proof (sock_send_le s (blen md + bl) ltac:(lia)) as Hle.
  set (ret := sock_send s (blen md + bl)) in *.
  destruct (blen md <=? ret) eqn:Efull.
  - apply Z.leb_le in Efull.
    eexists _, _, _. split; [reflexivity|].
    unfold step_ok. simpl. rewrite Ep, Ei, Erb.
    rewrite blen_audio by (subst bl0; rewrite ?Ep in *; lia).
    repeat split; simpl; auto; try discriminate; try lia;
      try (subst bl0; rewrite Ep in *; lia).
    rewrite Hs, Z.add_0_l. reflexivity.
  - apply Z.leb_gt in Efull.
    eexists _, _, _. split; [reflexivity|].
    unfold step_ok. simpl. rewrite Ei, Esi.
    assert (Hw : inserts (if 0 <? ret then [MetaPart (ztake ret md)] else []) = 0
                 /\ payload_total (if 0 <? ret then [MetaPart (ztake ret md)] else []) = 0
                 /\ segments (since_meta_block c)
                      (if 0 <? ret then [MetaPart (ztake ret md)] else [])
                    = [since_meta_block c]).
    { destruct (0 <? ret); simpl; auto. }
    destruct Hw as (-> & -> & ->).
    repeat split; simpl; auto; try discriminate; try lia.
    + rewrite Ep, Erb. lia.
    + destruct (0 <? ret) eqn:E0; lia.
    + destruct (0 <? ret) eqn:E0; [apply Z.ltb_lt in E0|]; try lia.
      apply Hpart. lia.
Qed.


Lemma move_on_ok (c : client_t) (next : option refbuf_t) :
  listener_ok c -> listener_ok (move_on c next).
Proof.
  intros [Hpos Hsince Hidle Hres Hblank]. destruct next as [rb|]; simpl.
  - constructor; simpl; auto. split; [lia|apply blen_nonneg].
  - constructor; auto.
Qed.





Lemma new_listener_ok (i : Z) (rb : refbuf_t) : 0 < i -> listener_ok (new_listener i rb).
Proof.
  intros Hi. constructor; simpl; auto; try discriminate; try lia.
  split; [lia|apply blen_nonneg].
Qed.




(** *** Facts about the inline metadata filter *)

Lemma ztake_app_blen {A} (a b : list A) : ztake (blen a) (a ++ b) = a.
Proof. unfold ztake, blen. rewrite Nat2Z.id. apply take_app_length. Qed.

Lemma zdrop_app_blen {A} (a b : list A) : zdrop (blen a) (a ++ b) = b.
Proof. unfold zdrop, blen. rewrite Nat2Z.id. apply drop_app_length. Qed.

Lemma ztake_ge {A} (n : Z) (l : list A) : blen l <= n -> ztake n l = l.
Proof. unfold ztake, blen. intros H. apply take_ge. lia. Qed.

Lemma zdrop_ge {A} (n : Z) (l : list A) : blen l <= n -> zdrop n l = [].
Proof. unfold zdrop, blen. intros H. apply drop_ge. lia. Qed.

Lemma ztake_0 {A} (l : list A) : ztake 0 l = [].
Proof. reflexivity. Qed.

Lemma zdrop_0 {A} (l : list A) : zdrop 0 l = l.
Proof. reflexivity. Qed.

Lemma zdrop_zdrop {A} (n m : Z) (l : list A) :
  0 <= n -> 0 <= m -> zdrop m (zdrop n l) = zdrop (n + m) l.
Proof.
  intros Hn Hm. unfold zdrop. rewrite drop_drop. f_equal. lia.
Qed.

Lemma blen_nil_inv {A} (l : list A) : blen l = 0 -> l = [].
Proof. destruct l; [reflexivity|]. unfold blen. simpl. lia. Qed.

Lemma app_eq_short {A} (x y a b : list A) :
  x ++ y = a ++ b -> blen x <= blen a -> exists l, a = x ++ l /\ y = l ++ b.
Proof.
  revert a. induction x as [|e x IH]; intros a H Hlen; simpl in *.
  - exists a. auto.
  - destruct a as [|e' a]; [unfold blen in Hlen; simpl in Hlen; lia|].
    simpl in H. inversion H as [[He Hrest]].
    destruct (IH a Hrest) as (l & -> & ->).
    + unfold blen in *. simpl in Hlen. lia.
    + exists l. auto.
Qed.

Lemma app_eq_long {A} (x y a b : list A) :
  x ++ y = a ++ b -> blen a <= blen x -> exists l, x = a ++ l /\ l ++ y = b.
Proof.
  intros H Hlen. symmetry in H.
  destruct (app_eq_short a b x y H Hlen) as (l & -> & ->). exists l. auto.
Qed.

Lemma to_uint_small (z : Z) : 0 <= z < 2 ^ 32 -> to_uint z = z.
Proof. intros H. unfold to_uint. apply Z.mod_small. exact H. Qed.

Lemma byte_val_range (b : byte) : 0 <= byte_val b <= 255.
Proof.
  unfold byte_val. pose proof (Byte.to_N_bounded b). lia.
Qed.

Lemma first_byte_range (l : list byte) : 0 <= first_byte l <= 255.
Proof. destruct l; simpl; [lia|apply byte_val_range]. Qed.

Lemma first_byte_take1 (l l' : list byte) :
  firstn 1 l = firstn 1 l' -> first_byte l = first_byte l'.
Proof. destruct l, l'; simpl; intros H; inversion H; auto. Qed.

Lemma icy_block_range (m : list byte) : icy_block m -> 1 <= blen m <= 4081.
Proof. unfold icy_block. pose proof (first_byte_range m). lia. Qed.

(** [parse_icy_metadata] writes the title, the URL and [update_metadata] and
    nothing else. *)
Definition same_ingest (st st' : mp3_state) : Prop :=
  metadata st' = metadata st /\
  url_artist st' = url_artist st /\
  url st' = url st /\
  mp3_interval st' = mp3_interval st /\
  inline_metadata_interval st' = inline_metadata_interval st /\
  offset st' = offset st /\
  build_metadata st' = build_metadata st /\
  build_metadata_len st' = build_metadata_len st /\
  build_metadata_offset st' = build_metadata_offset st /\
  queue_block_size st' = queue_block_size st /\
  read_data st' = read_data st /\
  read_count st' = read_count st.

Lemma same_ingest_refl (st : mp3_state) : same_ingest st st.
Proof. unfold same_ingest. tauto. Qed.

Lemma same_ingest_trans (a b c : mp3_state) :
  same_ingest a b -> same_ingest b c -> same_ingest a c.
Proof. unfold same_ingest. intuition congruence. Qed.

Lemma parse_icy_tokens_frame (fuel : nat) :
  forall md meta_len st, same_ingest st (parse_icy_tokens fuel md meta_len st).
Proof.
  induction fuel as [|fuel IH]; intros md meta_len st; simpl.
  - apply same_ingest_refl.
  - assert (Hnext : forall used st',
               same_ingest st st' ->
               same_ingest st
                 (if 0 <? meta_len - used
                  then parse_icy_tokens fuel (zdrop used md) (meta_len - used)
                         (set_update_metadata 1 st')
                  else set_update_metadata 1 st')).
    { intros used st' H.
      assert (H1 : same_ingest st (set_update_metadata 1 st')) by exact H.
      destruct (0 <? meta_len - used); [|exact H1].
      eapply same_ingest_trans; [exact H1|apply IH]. }
    destruct (starts_with stream_title md).
    + destruct (strstr _ _); [|apply same_ingest_refl].
      apply Hnext. unfold same_ingest. simpl. tauto.
    + destruct (starts_with stream_url md).
      * destruct (strstr _ _); [|apply same_ingest_refl].
        apply Hnext. unfold same_ingest. simpl. tauto.
      * destruct (strchr _ _); [|apply same_ingest_refl].
        apply Hnext. apply same_ingest_refl.
Qed.

(** More fuel than [meta_len] rounds changes nothing: the fuel of
    [parse_icy_metadata] never runs out. *)
Lemma parse_icy_tokens_fuel (f1 : nat) :
  forall f2 md meta_len st,
    (1 <= f1)%nat -> (1 <= f2)%nat ->
    meta_len <= Z.of_nat f1 -> meta_len <= Z.of_nat f2 ->
    parse_icy_tokens f1 md meta_len st = parse_icy_tokens f2 md meta_len st.
Proof.
  induction f1 as [|f1 IH]; intros f2 md meta_len st H1 H2 Hl1 Hl2; [lia|].
  destruct f2 as [|f2]; [lia|]. simpl.
  assert (Hnext : forall used st', 1 <= used ->
             (if 0 <? meta_len - used
              then parse_icy_tokens f1 (zdrop used md) (meta_len - used) st'
              else st')
             = (if 0 <? meta_len - used
                then parse_icy_tokens f2 (zdrop used md) (meta_len - used) st'
                else st')).
  { intros used st' Hu. destruct (0 <? meta_len - used) eqn:E; [|reflexivity].
    apply Z.ltb_lt in E. apply IH; lia. }
  destruct (starts_with stream_title md).
  - destruct (strstr _ _); [|reflexivity]. apply Hnext. lia.
  - destruct (starts_with stream_url md).
    + destruct (strstr _ _); [|reflexivity]. apply Hnext. lia.
    + destruct (strchr _ _); [|reflexivity]. apply Hnext. lia.
Qed.

Lemma parse_icy_metadata_frame (st : mp3_state) :
  same_ingest st (snd (parse_icy_metadata st)).
Proof.
  unfold parse_icy_metadata.
  repeat match goal with
         | |- context [if ?b then _ else _] => destruct b
         end; simpl; try apply same_ingest_refl.
  apply parse_icy_tokens_frame.
Qed.

(** A block whose first byte gives its length is never refused. *)
Lemma parse_icy_metadata_accepts (st : mp3_state) :
  build_metadata_len st = first_byte (build_metadata st) * 16 + 1 ->
  fst (parse_icy_metadata st) = 0.
Proof.
  intros H. unfold parse_icy_metadata.
  pose proof (first_byte_range (build_metadata st)) as Hr.
  destruct ((build_metadata_len st <=? 1) || _) eqn:E1; [reflexivity|].
  apply orb_false_iff in E1. destruct E1 as [E1 _]. apply Z.leb_gt in E1.
  destruct ((build_metadata_len st <? 16) || _) eqn:E2.
  { apply orb_true_iff in E2. destruct E2 as [E2|E2];
      [apply Z.ltb_lt in E2|apply Z.ltb_lt in E2]; lia. }
  rewrite H, Z.eqb_refl. reflexivity.
Qed.

(** What is left of an ICY stream and of its payload when [o] payload bytes
    have gone by since the last metadata block; [e] is the number of payload
    bytes that follow the last metadata block when the stream ends. *)
Inductive icy_stream (i e : Z) : Z -> list byte -> list byte -> Prop :=
| icy_run_end (o : Z) (p : list byte) :
    o + blen p <= i -> e = o + blen p -> icy_stream i e o p p
| icy_run_meta (o : Z) (p m s' p' : list byte) :
    o + blen p = i -> icy_block m -> icy_stream i e 0 s' p' ->
    icy_stream i e o (p ++ m ++ s') (p ++ p').

(** Where the filter stands in the stream between two rounds of its loop:
    in the payload, or [build_metadata_offset] bytes into a metadata block. *)
Definition phase (i e : Z) (st : mp3_state) (stream pl : list byte) : Prop :=
  inline_metadata_interval st = i /\
  ((build_metadata_len st = 0 /\ 0 <= offset st <= i /\
    icy_stream i e (offset st) stream pl)
   \/
   (exists m s',
       icy_block m /\ build_metadata_len st = blen m /\
       0 < build_metadata_offset st < blen m /\ offset st = i /\
       firstn 1 (build_metadata st) = firstn 1 m /\
       stream = zdrop (build_metadata_offset st) m ++ s' /\
       icy_stream i e 0 s' pl)).

Lemma filter_loop_S (fuel : nat) (st : mp3_state) (out src junk : list byte) :
  filter_loop (S fuel) st out src junk =
  let bytes := blen src in
  if bytes =? 0 then FilterDone st out (src ++ junk) else
  let mp3_block := to_uint (inline_metadata_interval st - offset st) in
  if bytes <=? mp3_block then
    FilterDone (set_offset (offset st + bytes) st) (out ++ src) junk
  else if negb (mp3_block =? 0) then
    filter_loop fuel (set_offset (offset st + mp3_block) st)
                (out ++ ztake mp3_block src) (zdrop mp3_block src) junk
  else
    let st1 :=
      if build_metadata_len st =? 0 then
        set_build_metadata_len (1 + first_byte src * 16)
          (set_build_metadata_offset 0
             (set_build_metadata build_metadata_zeroed st))
      else st in
    let metadata_remaining :=
      to_uint (build_metadata_len st1 - build_metadata_offset st1) in
    if bytes <? metadata_remaining then
      FilterDone
        (set_build_metadata_offset (build_metadata_offset st1 + bytes)
           (set_build_metadata
              (memcpy_at (build_metadata st1) (build_metadata_offset st1) src bytes)
              st1))
        out (src ++ junk)
    else
      let st2 :=
        set_build_metadata
          (memcpy_at (build_metadata st1) (build_metadata_offset st1) src
                     (to_uint (metadata_remaining - 1)))
          st1 in
      let src' := zdrop metadata_remaining src in
      let junk' := zdrop (blen src') src ++ junk in
      let '(r, st3) :=
        if 1 <? build_metadata_len st2 then parse_icy_metadata st2 else (0, st2) in
      if r <? 0 then FilterFail st3
      else filter_loop fuel (set_build_metadata_len 0 (set_offset 0 st3))
                       out src' junk'.
Proof. reflexivity. Qed.

(** What one pass of the filter over [src] yields. *)
Definition strips (i e : Z) (st : mp3_state) (fuel : nat) (out src junk stream' pl : list byte)
  : Prop :=
  exists st' o rest pl',
    filter_loop fuel st out src junk = FilterDone st' (out ++ o) rest /\
    pl = o ++ pl' /\ phase i e st' stream' pl' /\
    read_data st' = read_data st /\ metadata st' = metadata st.

(** The metadata branch of the loop: [k] bytes of the block [m] have been
    stored by earlier reads ([k = 0]: none, and nothing is known of the
    staging buffer yet). *)
Lemma filter_loop_meta (i e : Z) (fuel : nat) (st : mp3_state)
      (out src junk stream' pl m s' : list byte) (k : Z) :
  0 < i < 2 ^ 31 ->
  (forall st0 out0 src0 junk0 stream0 pl0,
      (length src0 < fuel)%nat -> phase i e st0 (src0 ++ stream0) pl0 ->
      strips i e st0 fuel out0 src0 junk0 stream0 pl0) ->
  (length src < S fuel)%nat -> src <> [] ->
  inline_metadata_interval st = i -> offset st = i ->
  icy_block m -> 0 <= k < blen m ->
  (k = 0 /\ build_metadata_len st = 0
   \/ 0 < k /\ build_metadata_len st = blen m /\ build_metadata_offset st = k /\
      firstn 1 (build_metadata st) = firstn 1 m) ->
  src ++ stream' = zdrop k m ++ s' ->
  icy_stream i e 0 s' pl ->
  strips i e st (S fuel) out src junk stream' pl.
Proof.
  intros Hi IH Hfuel Hne Eint Eoff Hm Hk Hst Hsplit Hrest.
  pose proof (icy_block_range m Hm) as Hmr.
  assert (Hsrc : 0 < blen src).
  { destruct src; [congruence|]. unfold blen. simpl. lia. }
  unfold strips. rewrite filter_loop_S. cbv zeta.
  replace (blen src =? 0) with false by (symmetry; apply Z.eqb_neq; lia).
  rewrite Eint, Eoff, Z.sub_diag.
  replace (to_uint 0) with 0 by reflexivity.
  replace (blen src <=? 0) with false by (symmetry; apply Z.leb_gt; lia).
  simpl negb. cbv iota.
  (* the state after the length byte has been looked at *)
  set (st1 := if build_metadata_len st =? 0 then _ else st).
  assert (H1 : build_metadata_len st1 = blen m /\ build_metadata_offset st1 = k /\
               inline_metadata_interval st1 = i /\ offset st1 = i /\
               read_data st1 = read_data st /\ metadata st1 = metadata st /\
               (k = 0 \/ 0 < k /\ firstn 1 (build_metadata st1) = firstn 1 m)).
  { subst st1. destruct Hst as [[-> E0]|(Hk0 & El & Eo & Ef)].
    - rewrite E0. simpl. repeat split; auto.
      rewrite zdrop_0 in Hsplit. unfold icy_block in Hm. rewrite Hm.
      assert (Hf : first_byte src = first_byte m).
      { destruct src as [|b src]; [congruence|]. destruct m as [|b' m].
        - unfold blen in Hmr. simpl in Hmr. lia.
        - simpl in Hsplit. inversion Hsplit. reflexivity. }
      rewrite Hf. lia.
    - replace (build_metadata_len st =? 0) with false
        by (symmetry; apply Z.eqb_neq; lia).
      repeat split; auto. }
  destruct H1 as (El & Eo & Ei1 & Eoff1 & Erd & Emd & Ef).
  clearbody st1. rewrite El, Eo.
  rewrite (to_uint_small (blen m - k)) by lia.
  pose proof (blen_zdrop k m ltac:(lia)) as Hdk.
  destruct (blen src <? blen m - k) eqn:Epart.
  - (* the block is not complete yet *)
    apply Z.ltb_lt in Epart.
    destruct (app_eq_short src stream' (zdrop k m) s' Hsplit ltac:(lia))
      as (l & Hl & ->).
    eexists _, [], _, pl. rewrite app_nil_r.
    split; [reflexivity|]. split; [reflexivity|].
    split; [|simpl; auto].
    split; [simpl; exact Ei1|]. right. exists m, s'. simpl.
    assert (Hdrop : zdrop (k + blen src) m = l).
    { rewrite <- zdrop_zdrop by lia. rewrite Hl. apply zdrop_app_blen. }
    repeat split; auto; try lia.
    + unfold memcpy_at. rewrite (ztake_ge (blen src) src) by lia.
      destruct Ef as [->|Ef].
      * rewrite ztake_0. simpl. rewrite zdrop_0 in Hl. rewrite Hl.
        destruct src; [congruence|reflexivity].
      * destruct Ef as [Hk0 Ef].
        destruct m as [|b m]; [unfold blen in Hmr; simpl in Hmr; lia|].
        destruct (build_metadata st1) as [|b' bm]; [discriminate|].
        simpl in Ef. inversion Ef. subst b'.
        unfold ztake. destruct (Z.to_nat k) eqn:Ek; [lia|]. reflexivity.
    + rewrite Hdrop. reflexivity.
  - (* the whole block has arrived *)
    apply Z.ltb_ge in Epart.
    destruct (app_eq_long src stream' (zdrop k m) s' Hsplit ltac:(lia))
      as (l & Hl & Hl').
    set (st2 := set_build_metadata _ st1).
    assert (Hparse : fst (if 1 <? build_metadata_len st2
                          then parse_icy_metadata st2 else (0, st2)) = 0 /\
                     same_ingest st2 (snd (if 1 <? build_metadata_len st2
                          then parse_icy_metadata st2 else (0, st2)))).
    { destruct (1 <? build_metadata_len st2) eqn:E1.
      - split; [|apply parse_icy_metadata_frame].
        apply parse_icy_metadata_accepts.
        apply Z.ltb_lt in E1. subst st2. simpl in *. rewrite El in *.
        rewrite (to_uint_small (blen m - k - 1)) by lia.
        assert (Hf : first_byte (memcpy_at (build_metadata st1) k src (blen m - k - 1))
                     = first_byte m); [|rewrite Hf; unfold icy_block in Hm; lia].
        apply first_byte_take1. unfold memcpy_at.
        destruct Ef as [->|Ef].
        + rewrite ztake_0, zdrop_0 in *. simpl.
          rewrite Hl. unfold ztake.
          destruct (Z.to_nat (blen m - 0 - 1)) eqn:En; [lia|].
          destruct m; [unfold blen in Hmr; simpl in Hmr; lia|reflexivity].
        + destruct Ef as [Hk0 Ef].
          destruct m as [|b m]; [unfold blen in Hmr; simpl in Hmr; lia|].
          destruct (build_metadata st1) as [|b' bm]; [discriminate|].
          simpl in Ef. inversion Ef. subst b'.
          unfold ztake at 1. destruct (Z.to_nat k) eqn:Ek; [lia|reflexivity].
      - split; [reflexivity|apply same_ingest_refl]. }
    destruct (if 1 <? build_metadata_len st2 then _ else _) as [r st3].
    simpl in Hparse. destruct Hparse as [-> Hframe].
    replace (0 <? 0) with false by reflexivity.
    assert (Hsrc' : zdrop (blen m - k) src = l).
    { rewrite Hl, <- Hdk. apply zdrop_app_blen. }
    rewrite Hsrc'.
    destruct Hframe as (Fm & _ & _ & _ & Fi & _ & _ & _ & _ & _ & Frd & _).
    subst st2. simpl in Fm, Fi, Frd.
    destruct (IH (set_build_metadata_len 0 (set_offset 0 st3)) out l
                 (zdrop (blen l) src ++ junk) stream' pl) as (st' & o & rest & pl' & E & Hpl & Hph & Hrd & Hmd).
    + rewrite Hl in Hfuel. rewrite length_app in Hfuel. unfold blen in Hdk, Hk. lia.
    + split; [simpl; congruence|]. left. simpl.
      rewrite Hl'. repeat split; auto; lia.
    + exists st', o, rest, pl'. simpl in Hrd, Hmd.
      split; [exact E|]. split; [exact Hpl|]. split; [exact Hph|].
      split; congruence.
Qed.

(** The loop of the filter keeps the payload of what it is given and nothing
    else, wherever in the stream the block begins and ends. *)
Lemma filter_loop_strips (i e : Z) (fuel : nat) :
  0 < i < 2 ^ 31 ->
  forall st out src junk stream' pl,
    (length src < fuel)%nat -> phase i e st (src ++ stream') pl ->
    strips i e st fuel out src junk stream' pl.
Proof.
  intros Hi. induction fuel as [|fuel IH]; intros st out src junk stream' pl Hfuel Hph;
    [lia|].
  destruct (Z.eq_dec (blen src) 0) as [Hnil|Hnz].
  { apply blen_nil_inv in Hnil. subst src. simpl in Hph.
    exists st, [], junk, pl. rewrite app_nil_r.
    split; [reflexivity|]. split; [reflexivity|]. split; [exact Hph|]. auto. }
  assert (Hsrc : 0 < blen src) by (pose proof (blen_nonneg src); lia).
  assert (Hne : src <> []) by (intros ->; unfold blen in Hsrc; simpl in Hsrc; lia).
  destruct Hph as [Ei [(El & Ho & Hs)|(m & s' & Hm & El & Hk & Eo & Ef & Hsplit & Hrest)]].
  - inversion Hs as [o p Hend He Eo Ep Epl | o p m s' p' Hrun Hm Hrest Eo Ep Epl].
    + (* the stream ends in this run of payload *)
      subst. rewrite blen_app in Hend. pose proof (blen_nonneg stream').
      unfold strips. rewrite filter_loop_S. cbv zeta.
      replace (blen src =? 0) with false by (symmetry; apply Z.eqb_neq; lia).
      rewrite to_uint_small by lia.
      replace (blen src <=? inline_metadata_interval st - offset st) with true
        by (symmetry; apply Z.leb_le; lia).
      exists (set_offset (offset st + blen src) st), src, junk, stream'.
      split; [reflexivity|]. split; [reflexivity|]. split; [|simpl; auto].
      split; [simpl; auto|]. left. simpl.
      repeat split; try lia. apply icy_run_end; rewrite ?blen_app; lia.
    + subst o. pose proof (blen_nonneg p) as Hp.
      destruct (Z.le_gt_cases (blen src) (blen p)) as [Hshort|Hlong].
      * (* the block ends before the metadata *)
        destruct (app_eq_short src stream' p (m ++ s') (eq_sym Ep) Hshort)
          as (l & -> & ->).
        rewrite blen_app in Hrun. pose proof (blen_nonneg l) as Hl0.
        unfold strips. rewrite filter_loop_S. cbv zeta.
        replace (blen src =? 0) with false by (symmetry; apply Z.eqb_neq; lia).
        rewrite to_uint_small by lia.
        replace (blen src <=? inline_metadata_interval st - offset st) with true
          by (symmetry; apply Z.leb_le; lia).
        exists (set_offset (offset st + blen src) st), src, junk, (l ++ p').
        rewrite <- app_assoc.
        split; [reflexivity|]. split; [reflexivity|]. split; [|simpl; auto].
        split; [simpl; auto|]. left. simpl.
        repeat split; try lia. apply icy_run_meta; auto. lia.
      * destruct (app_eq_long src stream' p (m ++ s') (eq_sym Ep) ltac:(lia))
          as (l & -> & Hl).
        rewrite blen_app in *. pose proof (blen_nonneg l) as Hl0.
        destruct (Z.eq_dec (blen p) 0) as [Hp0|Hp0].
        -- (* the block begins at a metadata block *)
           apply blen_nil_inv in Hp0. subst p.
           change (blen (@nil byte)) with 0 in *. simpl in *.
           pose proof (icy_block_range m Hm).
           apply (filter_loop_meta i e fuel st out l junk stream' p' m s' 0);
             auto; try lia.
        -- (* payload up to the metadata block, then the rest of the block *)
           unfold strips. rewrite filter_loop_S. cbv zeta. rewrite !blen_app.
           replace (blen p + blen l =? 0) with false by (symmetry; apply Z.eqb_neq; lia).
           rewrite to_uint_small by lia.
           replace (inline_metadata_interval st - offset st) with (blen p) by lia.
           replace (blen p + blen l <=? blen p) with false
             by (symmetry; apply Z.leb_gt; lia).
           replace (negb (blen p =? 0)) with true
             by (symmetry; apply negb_true_iff, Z.eqb_neq; lia).
           rewrite ztake_app_blen, zdrop_app_blen.
           destruct (IH (set_offset (offset st + blen p) st) (out ++ p) l junk stream' p')
             as (st' & o & rest & pl' & E & Hpl & Hph & Hrd & Hmd).
           ++ rewrite length_app in Hfuel. unfold blen in Hp0. lia.
           ++ split; [simpl; exact Ei|]. left. simpl.
              repeat split; auto; try lia.
              rewrite Hl. apply (icy_run_meta _ _ _ [] m s' p'); auto.
              change (blen (@nil byte)) with 0. lia.
           ++ exists st', (p ++ o), rest, pl'.
              rewrite app_assoc. split; [exact E|].
              split; [rewrite Hpl; apply app_assoc|].
              split; [exact Hph|]. simpl in Hrd, Hmd. auto.
  - (* the block begins inside a metadata block *)
    apply (filter_loop_meta i e fuel st out src junk stream' pl m s' (build_metadata_offset st));
      auto; try lia.
    right. repeat split; auto; lia.
Qed.


Section IngestFacts.

Variable mpeg_sync : Type.
Variable mpeg_complete_frames : mpeg_sync -> block_t -> mpeg_sync * block_t * Z.
Variable mpeg_data_insert : mpeg_sync -> list byte -> mpeg_sync.
Variable mp3_set_title : mp3_state -> list byte.

Local Abbreviation source := (source_t mpeg_sync).
Local Abbreviation get_filter_meta :=
  (mp3_get_filter_meta mpeg_sync mpeg_complete_frames mpeg_data_insert mp3_set_title).
Local Abbreviation get_blocks :=
  (ingest mpeg_sync mpeg_complete_frames mpeg_data_insert mp3_set_title).

(** The frame parser passes every block whole: it leaves the block as it is
    and nothing unprocessed. *)
Definition passes_whole : Prop :=
  forall sync rb, 0 < b_len rb ->
                  exists sync', mpeg_complete_frames sync rb = (sync', rb, 0).

(** A source whose blocks [validate_mpeg] passes whole (there is no MPEG
    resynchroniser, [client->format_data] being NULL, or its frame parser
    passes every block whole) that stands between two blocks of an ICY
    stream. *)
Definition ingesting (i e : Z) (s : source) (stream pl : list byte) : Prop :=
  (format_data _ s = None \/ passes_whole) /\ running _ s = true /\
  read_data (state _ s) = None /\ phase i e (state _ s) stream pl.

Definition payload_of (ob : option block_t) : list byte :=
  match ob with
  | Some b => payload b
  | None => []
  end.

Lemma mp3_get_filter_meta_strips (i e : Z) (s : source) (fresh stream' pl : list byte) :
  0 < i < 2 ^ 31 -> blen fresh < 2 ^ 32 ->
  ingesting i e s (fresh ++ stream') pl ->
  exists s' ob pl',
    get_filter_meta s fresh = (s', ob) /\
    pl = payload_of ob ++ pl' /\
    ingesting i e s' stream' pl' /\
    (forall b, ob = Some b ->
               b_sync b = true /\ b_associated b = Some (metadata (state _ s')) /\
               0 < b_len b).
Proof.
  intros Hi Hsmall (Hfd & Hrun & Hrd & Hph).
  unfold mp3_get_filter_meta, complete_read. rewrite Hrd. simpl app.
  cbv zeta. cbn [state set_state set_read_bytes read_count set_read_count].
  set (st1 := set_read_count 0 (state _ s)).
  set (st2 := if update_metadata st1 =? 0 then st1 else _).
  assert (H2 : inline_metadata_interval st2 = inline_metadata_interval (state _ s) /\
               offset st2 = offset (state _ s) /\
               build_metadata st2 = build_metadata (state _ s) /\
               build_metadata_len st2 = build_metadata_len (state _ s) /\
               build_metadata_offset st2 = build_metadata_offset (state _ s) /\
               read_count st2 = 0).
  { subst st2 st1. destruct (update_metadata _ =? 0); simpl; auto 10. }
  destruct H2 as (Ei2 & Eo2 & Eb2 & El2 & Ebo2 & Erc2). clearbody st2. clear st1.
  rewrite Erc2, Z.add_0_l.
  pose proof (blen_nonneg fresh) as Hf0.
  rewrite to_uint_small by lia.
  rewrite (ztake_ge (blen fresh) fresh) by lia.
  rewrite (zdrop_ge (blen fresh) fresh) by lia.
  set (st3 := set_read_data None _).
  assert (Hph3 : phase i e st3 (fresh ++ stream') pl).
  { destruct Hph as [Ei Hph]. split; [subst st3; simpl; congruence|].
    subst st3. simpl. rewrite Eo2, Eb2, El2, Ebo2. exact Hph. }
  destruct (filter_loop_strips i e (S (length fresh)) Hi st3 [] fresh [] stream' pl
              ltac:(lia) Hph3) as (st' & o & rest & pl' & E & Hpl & Hph' & Hrd' & Hmd').
  rewrite E. simpl app. cbn [b_len].
  pose proof (blen_nonneg o) as Ho0.
  destruct (blen o <=? 0) eqn:Eempty.
  - apply Z.leb_le in Eempty. assert (o = []) by (apply blen_nil_inv; lia). subst o.
    eexists _, None, pl'. split; [reflexivity|]. split; [exact Hpl|].
    split; [|intros b Hb; discriminate].
    unfold ingesting. simpl. split; [|split; [|split]]; auto.
  - apply Z.leb_gt in Eempty. simpl.
    destruct (format_data _ s) as [sync|] eqn:Efd.
    + destruct Hfd as [Hfd|Hpw]; [discriminate|].
      destruct (Hpw sync (mk_block (o ++ rest) (blen o) None false)
                    ltac:(simpl; lia)) as (sync' & Epw).
      unfold validate_mpeg. rewrite Epw. cbn [Z.ltb Z.compare orb b_len].
      replace (blen o =? 0) with false by (symmetry; apply Z.eqb_neq; lia).
      cbn [Z.ltb Z.compare].
      eexists _, (Some _), pl'. split; [reflexivity|].
      split; [simpl; unfold payload; simpl; rewrite ztake_app_blen; exact Hpl|].
      split.
      * unfold ingesting. simpl. split; [|split; [|split]]; auto.
      * intros b Hb. inversion Hb. subst b. simpl. auto.
    + eexists _, (Some _), pl'. split; [reflexivity|].
      split; [simpl; unfold payload; simpl; rewrite ztake_app_blen; exact Hpl|].
      split.
      * unfold ingesting. simpl. split; [|split; [|split]]; auto.
      * intros b Hb. inversion Hb. subst b. simpl. auto.
Qed.

(** The blocks queued while the source reads an ICY stream in any number of
    blocks carry the payload of what was read. *)
Lemma ingest_strips (i e : Z) (reads : list (list byte)) :
  0 < i < 2 ^ 31 -> Forall (fun r => blen r < 2 ^ 32) reads ->
  forall s stream' pl,
    ingesting i e s (concat reads ++ stream') pl ->
    exists pl',
      pl = concat (map payload (snd (get_blocks s reads))) ++ pl' /\
      ingesting i e (fst (get_blocks s reads)) stream' pl' /\
      Forall (fun b => b_sync b = true /\ b_associated b <> None /\ 0 < b_len b)
             (snd (get_blocks s reads)).
Proof.
  intros Hi Hsmall. induction Hsmall as [|fresh reads Hf Hsmall IH];
    intros s stream' pl Hin; simpl.
  - exists pl. auto.
  - simpl in Hin. rewrite <- app_assoc in Hin.
    destruct (mp3_get_filter_meta_strips i e s fresh _ pl Hi Hf Hin)
      as (s1 & ob & pl1 & E1 & Hpl1 & Hin1 & Hb1).
    rewrite E1. destruct (IH s1 stream' pl1 Hin1) as (pl2 & Hpl2 & Hin2 & Hb2).
    destruct (get_blocks s1 reads) as [s2 obs]. simpl in *.
    exists pl2. split; [|split; [exact Hin2|]].
    + rewrite Hpl1, Hpl2. destruct ob as [b|]; simpl; [|reflexivity].
      rewrite <- app_assoc. reflexivity.
    + destruct ob as [b|]; [|exact Hb2]. constructor; [|exact Hb2].
      destruct (Hb1 b eq_refl) as (H1 & H2 & H3). rewrite H2.
      split; [exact H1|]. split; [discriminate|exact H3].
Qed.


(** A completed block that parse_icy_metadata refuses ends the loop of the
    filter at once. *)
Lemma filter_loop_rejects (fuel : nat) (st : mp3_state) (out src junk : list byte) :
  let st1 :=
    if build_metadata_len st =? 0 then
      set_build_metadata_len (1 + first_byte src * 16)
        (set_build_metadata_offset 0 (set_build_metadata build_metadata_zeroed st))
    else st in
  let remaining := to_uint (build_metadata_len st1 - build_metadata_offset st1) in
  let st2 :=
    set_build_metadata
      (memcpy_at (build_metadata st1) (build_metadata_offset st1) src
                 (to_uint (remaining - 1))) st1 in
  0 < blen src ->
  to_uint (inline_metadata_interval st - offset st) = 0 ->
  remaining <= blen src ->
  1 < build_metadata_len st2 ->
  fst (parse_icy_metadata st2) < 0 ->
  filter_loop (S fuel) st out src junk = FilterFail (snd (parse_icy_metadata st2)).
Proof.
  intros st1 remaining st2 Hsrc Hblock Hrem Hlen Hparse.
  rewrite filter_loop_S. cbv zeta.
  replace (blen src =? 0) with false by (symmetry; apply Z.eqb_neq; lia).
  rewrite Hblock.
  replace (blen src <=? 0) with false by (symmetry; apply Z.leb_gt; lia).
  simpl negb. cbv iota. fold st1. fold remaining.
  replace (blen src <? remaining) with false by (symmetry; apply Z.ltb_ge; lia).
  fold st2.
  replace (1 <? build_metadata_len st2) with true by (symmetry; apply Z.ltb_lt; lia).
  destruct (parse_icy_metadata st2) as [r st3]. simpl in *.
  replace (r <? 0) with true by (symmetry; apply Z.ltb_lt; lia).
  reflexivity.
Qed.

(** C7.  parse_icy_metadata treats a block of length at most 1, or one whose
    received bytes are those of the current metadata, as a no-op: it returns 0
    and changes no state.  A block that is not such a no-op and whose declared
    length (16 times its first byte, plus 1) differs from the received
    length, or whose received length lies outside 16..4081, is rejected: it
    returns -1, again without a change of state.  A block that passes both is
    accepted with 0, writing only the title, the URL and [update_metadata].
    When the block that a read completes is rejected, mp3_get_filter_meta
    clears SOURCE_RUNNING and returns NULL. *)
Theorem parse_icy_metadata_validation (st : mp3_state) (s : source) (fresh : list byte) :
  let n := build_metadata_len st in
  let same := memcmp_eq (build_metadata st) (metadata st) n in
  let declared := first_byte (build_metadata st) * 16 + 1 in
  (n <= 1 \/ same = true -> parse_icy_metadata st = (0, st)) /\
  (1 < n -> same = false -> declared <> n \/ n < 16 \/ 4081 < n ->
   parse_icy_metadata st = (-1, st)) /\
  (1 < n -> same = false -> declared = n -> 16 <= n <= 4081 ->
   fst (parse_icy_metadata st) = 0 /\ same_ingest st (snd (parse_icy_metadata st))) /\
  (let s0 := fst (complete_read _ mp3_set_title s fresh) in
   let st0 := set_read_data None (state _ s0) in
   let st1 :=
     if build_metadata_len st0 =? 0 then
       set_build_metadata_len (1 + first_byte fresh * 16)
         (set_build_metadata_offset 0 (set_build_metadata build_metadata_zeroed st0))
     else st0 in
   let remaining := to_uint (build_metadata_len st1 - build_metadata_offset st1) in
   let st2 :=
     set_build_metadata
       (memcpy_at (build_metadata st1) (build_metadata_offset st1) fresh
                  (to_uint (remaining - 1))) st1 in
   read_data (state _ s) = None ->
   0 < blen fresh < 2 ^ 32 ->
   to_uint (inline_metadata_interval st0 - offset st0) = 0 ->
   remaining <= blen fresh ->
   1 < build_metadata_len st2 ->
   fst (parse_icy_metadata st2) < 0 ->
   snd (get_filter_meta s fresh) = None /\
   running _ (fst (get_filter_meta s fresh)) = false).
Proof.
  cbv zeta. split; [|split; [|split]].
  - intros H. unfold parse_icy_metadata.
    replace ((build_metadata_len st <=? 1) || _) with true; [reflexivity|].
    symmetry. apply orb_true_iff. destruct H as [H|H]; [left; apply Z.leb_le; lia|right; exact H].
  - intros Hn Hsame Hbad. unfold parse_icy_metadata. rewrite Hsame.
    replace (build_metadata_len st <=? 1) with false by (symmetry; apply Z.leb_gt; lia).
    simpl orb.
    destruct ((build_metadata_len st <? 16) || (4081 <? build_metadata_len st)) eqn:Er;
      [reflexivity|].
    apply orb_false_iff in Er. destruct Er as [Er1 Er2].
    apply Z.ltb_ge in Er1. apply Z.ltb_ge in Er2.
    replace (_ =? build_metadata_len st) with false; [reflexivity|].
    symmetry. apply Z.eqb_neq. lia.
  - intros Hn Hsame Hdecl Hrange. split.
    + apply parse_icy_metadata_accepts. lia.
    + apply parse_icy_metadata_frame.
  - intros Hrd Hfresh Hblock Hrem Hlen Hparse.
    destruct (complete_read mpeg_sync mp3_set_title s fresh) as [s0 block] eqn:Ecr.
    assert (Hblockeq : block = fresh /\ read_count (state _ s0) = blen fresh).
    { unfold complete_read in Ecr. rewrite Hrd in Ecr. cbn [app] in Ecr.
      inversion Ecr. subst. split; [reflexivity|].
      destruct (update_metadata _ =? 0); cbn; lia. }
    destruct Hblockeq as [-> Erc]. cbn [fst] in *.
    match type of Hparse with
    | fst (parse_icy_metadata ?st2) < 0 =>
        assert (E : get_filter_meta s fresh
                    = (set_running _ false (set_state _ (snd (parse_icy_metadata st2)) s0),
                       None))
    end.
    { unfold mp3_get_filter_meta. rewrite Ecr.
      rewrite Erc. rewrite to_uint_small by lia.
      rewrite (ztake_ge (blen fresh) fresh) by lia.
      rewrite (zdrop_ge (blen fresh) fresh) by lia.
      rewrite (filter_loop_rejects (length fresh) _ [] fresh []) by (auto; lia).
      reflexivity. }
    rewrite E. split; reflexivity.
Qed.

(** C4 (as amended).  In validate_mpeg, when mpeg_complete_frames returns a
    negative count of unprocessed bytes, or a count above 8000 and leaves the
    block without any complete frame ([refbuf->len] is 0), the source is torn
    down: SOURCE_RUNNING is cleared and validate_mpeg returns -1, so that
    mp3_get_no_meta releases the block and returns NULL.  When the count is
    above 8000 but the block keeps complete frames ([refbuf->len] is not 0),
    validate_mpeg returns 0 at once and the source keeps its flags: the frames
    are queued and the unprocessed bytes are dropped. *)
Theorem validate_mpeg_unprocessed_policy
        (s : source) (sync : mpeg_sync) (rb : block_t) (fresh : list byte) :
  let sync1 := fst (fst (mpeg_complete_frames sync rb)) in
  let rb1 := snd (fst (mpeg_complete_frames sync rb)) in
  let unprocessed := snd (mpeg_complete_frames sync rb) in
  let s1 := set_format_data _ (Some sync1) s in
  (unprocessed < 0 \/ 8000 < unprocessed /\ b_len rb1 = 0 ->
   validate_mpeg _ mpeg_complete_frames mpeg_data_insert s sync rb
   = (set_running _ false s1, rb1, -1)) /\
  (8000 < unprocessed -> b_len rb1 <> 0 ->
   validate_mpeg _ mpeg_complete_frames mpeg_data_insert s sync rb = (s1, rb1, 0)) /\
  (let s0 := fst (complete_read _ mp3_set_title s fresh) in
   let block := snd (complete_read _ mp3_set_title s fresh) in
   let rb0 := mk_block block (read_count (state _ s0)) None false in
   let u := snd (mpeg_complete_frames sync rb0) in
   let l := b_len (snd (fst (mpeg_complete_frames sync rb0))) in
   format_data _ s = Some sync ->
   u < 0 \/ 8000 < u /\ l = 0 ->
   snd (mp3_get_no_meta _ mpeg_complete_frames mpeg_data_insert mp3_set_title s fresh)
   = None /\
   running _ (fst (mp3_get_no_meta _ mpeg_complete_frames mpeg_data_insert
                                   mp3_set_title s fresh)) = false).
Proof.
  cbv zeta.
  assert (Hdown : forall s' sync' rb',
             snd (mpeg_complete_frames sync' rb') < 0 \/
             8000 < snd (mpeg_complete_frames sync' rb') /\
             b_len (snd (fst (mpeg_complete_frames sync' rb'))) = 0 ->
             validate_mpeg _ mpeg_complete_frames mpeg_data_insert s' sync' rb'
             = (set_running _ false
                  (set_format_data _ (Some (fst (fst (mpeg_complete_frames sync' rb')))) s'),
                snd (fst (mpeg_complete_frames sync' rb')), -1)).
  { intros s' sync' rb' H. unfold validate_mpeg.
    destruct (mpeg_complete_frames sync' rb') as [[sync1 rb1] u]. simpl in *.
    destruct H as [H|[H H0]].
    - replace (u <? 0) with true by (symmetry; apply Z.ltb_lt; lia).
      replace (0 <? u) with false by (symmetry; apply Z.ltb_ge; lia).
      reflexivity.
    - replace (8000 <? u) with true by (symmetry; apply Z.ltb_lt; lia).
      rewrite H0, orb_true_r. simpl. rewrite andb_false_r. reflexivity. }
  split; [apply Hdown|]. split.
  - intros Hu Hl. unfold validate_mpeg.
    destruct (mpeg_complete_frames sync rb) as [[sync1 rb1] u]. simpl in *.
    replace (8000 <? u) with true by (symmetry; apply Z.ltb_lt; lia).
    replace (0 <? u) with true by (symmetry; apply Z.ltb_lt; lia).
    replace (b_len rb1 =? 0) with false by (symmetry; apply Z.eqb_neq; lia).
    rewrite orb_true_r. reflexivity.
  - intros Hfd Hu. unfold mp3_get_no_meta.
    destruct (complete_read mpeg_sync mp3_set_title s fresh) as [s0 block] eqn:Ecr.
    assert (Hfd0 : format_data _ s0 = Some sync).
    { unfold complete_read in Ecr. inversion Ecr. subst. exact Hfd. }
    cbn [fst snd] in *. cbn [format_data set_state]. rewrite Hfd0.
    rewrite Hdown by exact Hu.
    split; reflexivity.
Qed.

End IngestFacts.

(** A resynchroniser that finds complete frames in the first 100 bytes of a
    block of 8101 bytes and leaves the other 8001 unprocessed. *)
Definition keeps_100_of_8101 (y : unit) (b : block_t) : unit * block_t * Z :=
  (y, mk_block (b_data b) 100 (b_associated b) (b_sync b), 8001).

Definition block_8101 : block_t :=
  mk_block (repeat x00 (Z.to_nat 8101)) 8101 None false.

Definition mpeg_source : source_t unit :=
  mk_source unit true (Some tt) 0 0 0
    (mk_mp3 blank_meta_data None None None None 0 16000 0 0 [] 0 0 16384 None 0).

(** C4, the claim as stated fails for a count above 8000 when the block keeps
    frames: validate_mpeg returns 0 and SOURCE_RUNNING stays set. *)
Lemma validate_mpeg_keeps_source_above_8000 :
  let r := validate_mpeg unit keeps_100_of_8101 (fun y _ => y) mpeg_source tt
                         block_8101 in
  snd r = 0 /\ running _ (fst (fst r)) = true /\ b_len (snd (fst r)) = 100.
Proof. cbv zeta. unfold validate_mpeg. cbn. repeat split; reflexivity. Qed.

(** A resynchroniser that finds no frame at all. *)
Definition finds_nothing (y : unit) (b : block_t) : unit * block_t * Z :=
  (y, mk_block (b_data b) 0 (b_associated b) (b_sync b), -1).

Lemma validate_mpeg_unprocessed_policy_witness :
  let rb := block_8101 in
  (snd (finds_nothing tt rb) < 0 /\
   validate_mpeg unit finds_nothing (fun y _ => y) mpeg_source tt rb
   = (set_running _ false mpeg_source, snd (fst (finds_nothing tt rb)), -1)) /\
  (8000 < snd (keeps_100_of_8101 tt rb) /\
   b_len (snd (fst (keeps_100_of_8101 tt rb))) <> 0 /\
   validate_mpeg unit keeps_100_of_8101 (fun y _ => y) mpeg_source tt rb
   = (mpeg_source, snd (fst (keeps_100_of_8101 tt rb)), 0)).
Proof.
  cbv zeta.
  pose proof (validate_mpeg_unprocessed_policy unit finds_nothing (fun y _ => y) metadata
                mpeg_source tt block_8101 []) as H1.
  pose proof (validate_mpeg_unprocessed_policy unit keeps_100_of_8101 (fun y _ => y) metadata
                mpeg_source tt block_8101 []) as H2.
  cbv zeta in H1, H2.
  destruct H1 as (Hdown & _ & _). destruct H2 as (_ & Hkeep & _).
  split.
  - split; [unfold finds_nothing; cbn; lia|].
    apply Hdown. left. unfold finds_nothing. cbn. lia.
  - split; [unfold keeps_100_of_8101; cbn; lia|].
    split; [unfold keeps_100_of_8101; cbn; lia|].
    apply Hkeep; unfold keeps_100_of_8101; cbn; lia.
Defined.

(** A source that announced inline metadata every 16 bytes, as
    format_mp3_get_plugin and format_mp3_apply_settings leave it, after 16
    bytes of audio: the state in which mp3_get_filter_meta hands a completed
    block [m] to parse_icy_metadata. *)
Definition fresh_filter_state : mp3_state :=
  mk_mp3 blank_meta_data None None None None 0 16 16 0 build_metadata_zeroed 0 0 1400
         None 0.

Definition at_block (m : list byte) : mp3_state :=
  set_build_metadata
    (memcpy_at build_metadata_zeroed 0 m (blen m - 1))
    (set_build_metadata_len (blen m)
       (set_build_metadata_offset 0
          (set_build_metadata build_metadata_zeroed (set_offset 16 fresh_filter_state)))).

(** The block mp3_set_title builds for the title X. *)
Definition title_x_block : list byte :=
  x02 :: list_byte_of_string "StreamTitle='X';" ++ repeat x00 16.

Lemma parse_icy_metadata_validation_witness :
  (* the blank block, which the source has as its metadata already *)
  (filter_loop 34 fresh_filter_state [] (repeat x41 16 ++ blank_meta_data) []
   = FilterDone (set_build_metadata_len 0 (set_offset 0 (at_block blank_meta_data)))
                (repeat x41 16) blank_meta_data /\
   parse_icy_metadata (at_block blank_meta_data) = (0, at_block blank_meta_data)) /\
  (* a new title *)
  (filter_loop 50 fresh_filter_state [] (repeat x41 16 ++ title_x_block) []
   = FilterDone (set_build_metadata_len 0
                   (set_offset 0 (snd (parse_icy_metadata (at_block title_x_block)))))
                (repeat x41 16) title_x_block /\
   fst (parse_icy_metadata (at_block title_x_block)) = 0 /\
   url_title (snd (parse_icy_metadata (at_block title_x_block)))
   = Some (list_byte_of_string "X") /\
   update_metadata (snd (parse_icy_metadata (at_block title_x_block))) = 1 /\
   same_ingest (at_block title_x_block)
               (snd (parse_icy_metadata (at_block title_x_block)))).
Proof.
  pose proof (parse_icy_metadata_validation unit (fun y b => (y, b, 0)) (fun y _ => y)
                metadata (at_block blank_meta_data)
                (mk_source unit true None 0 0 0 fresh_filter_state) []) as H1.
  pose proof (parse_icy_metadata_validation unit (fun y b => (y, b, 0)) (fun y _ => y)
                metadata (at_block title_x_block)
                (mk_source unit true None 0 0 0 fresh_filter_state) []) as H2.
  cbv zeta in H1, H2.
  destruct H1 as (Hnoop & _). destruct H2 as (_ & _ & Hacc & _).
  split.
  - split; [vm_compute; reflexivity|].
    apply Hnoop. right. vm_compute. reflexivity.
  - destruct Hacc as [H0 Hframe];
      [vm_compute; reflexivity|vm_compute; reflexivity|vm_compute; reflexivity
      |vm_compute; split; discriminate|].
    split; [vm_compute; reflexivity|]. split; [exact H0|].
    split; [vm_compute; reflexivity|]. split; [vm_compute; reflexivity|exact Hframe].
Defined.








(** *** Facts about format_mp3_create_client_data *)




(** The interval a listener that asks for ICY metadata is given. *)
Definition icy_interval (source_mp3 : mp3_state) : Z :=
  if 0 <=? mp3_interval source_mp3
  then mp3_interval source_mp3 else ICY_METADATA_INTERVAL.


Lemma length_append (a b : string) :
  String.length (a ++ b) = (String.length a + String.length b)%nat.
Proof. induction a as [|c a IH]; simpl; [reflexivity|now rewrite IH]. Qed.


Section CreateClientFacts.

Variable flv_create_client_data : listener_t -> listener_t.
Variable format_general_headers : listener_t -> option string.

Local Abbreviation create_client_data :=
  (format_mp3_create_client_data flv_create_client_data format_general_headers).

(** The listener when format_general_headers is called. *)
Definition prepared (type : format_type) (c : listener_t) : listener_t :=
  attach_specific type (attach_client_data c).


End CreateClientFacts.

Definition mount_state : mp3_state :=
  mk_mp3 blank_meta_data None None None None 0 16000 0 0 [] 0 0 1400 None 0.

(** A request from Internet Explorer that asks for ICY metadata on a mount
    with the default interval. *)
Definition msie_listener : listener_t :=
  mk_listener false false
    (<["user-agent" := "Mozilla/4.0 (compatible; MSIE 6.0)"]>
       (<["icy-metadata" := "1"]> ∅))
    "" false false 0.

Definition ok_headers : string :=
  "HTTP/1.0 200 OK" ++ crlf ++ "Content-Type: audio/mpeg" ++ crlf ++ crlf.


Example msie_listener_response :
  format_mp3_create_client_data (fun c => c) (fun _ => Some ok_headers)
                                true FORMAT_TYPE_OTHER mount_state msie_listener
  = Created (mk_listener false false (request msie_listener)
               ("HTTP/1.0 200 OK" ++ crlf ++ "Content-Type: audio/mpeg" ++ crlf
                ++ "Content-Length: 221183499" ++ crlf
                ++ "Expires: Mon, 26 Jul 1997 05:00:00 GMT" ++ crlf
                ++ "Pragma: no-cache" ++ crlf
                ++ "icy-metaint:16000" ++ crlf ++ crlf)
               true false 16000).
Proof. vm_compute. reflexivity. Qed.

(** *** What a listener is sent, byte by byte *)

Definition bytes_of (x : wire) : list byte :=
  match x with
  | Audio bs => bs
  | MetaPart bs => bs
  | MetaEnd bs => bs
  end.

(** Everything written, in order. *)
Definition wire_bytes (w : list wire) : list byte := concat (map bytes_of w).

(** The payload bytes written, in order. *)
Fixpoint audio_bytes (w : list wire) : list byte :=
  match w with
  | [] => []
  | Audio bs :: w' => bs ++ audio_bytes w'
  | _ :: w' => audio_bytes w'
  end.

Lemma wire_bytes_app (w w' : list wire) : wire_bytes (w ++ w') = wire_bytes w ++ wire_bytes w'.
Proof. unfold wire_bytes. rewrite map_app, concat_app. reflexivity. Qed.

Lemma audio_bytes_app (w w' : list wire) :
  audio_bytes (w ++ w') = audio_bytes w ++ audio_bytes w'.
Proof.
  induction w as [|[bs|bs|bs] w IH]; simpl; auto. rewrite IH, app_assoc. reflexivity.
Qed.

Lemma payload_total_audio (w : list wire) : payload_total w = blen (audio_bytes w).
Proof.
  induction w as [|[bs|bs|bs] w IH]; simpl; auto. rewrite blen_app. lia.
Qed.

(** A slice of a block, then the slice that follows it. *)
Lemma slice_app {A} (l : list A) (p0 p1 p2 : Z) :
  0 <= p0 <= p1 -> p1 <= p2 ->
  ztake (p1 - p0) (zdrop p0 l) ++ ztake (p2 - p1) (zdrop p1 l)
  = ztake (p2 - p0) (zdrop p0 l).
Proof.
  intros H01 H12. unfold ztake, zdrop.
  replace (Z.to_nat p1) with (Z.to_nat p0 + Z.to_nat (p1 - p0))%nat by lia.
  rewrite <- drop_drop.
  replace (Z.to_nat (p2 - p0)) with (Z.to_nat (p1 - p0) + Z.to_nat (p2 - p1))%nat by lia.
  rewrite <- take_take_drop. reflexivity.
Qed.

(** The metadata block the listener was sent last, when it is a block of the
    source, is well formed. *)
Definition assoc_block_ok (a : assoc_ptr) : Prop :=
  match a with
  | Ref m => icy_block (m_data m)
  | _ => True
  end.

(** The metadata block attached to a queue block is well formed. *)
Definition refbuf_meta_ok (rb : refbuf_t) : Prop :=
  match associated rb with
  | Some m => icy_block (m_data m)
  | None => True
  end.

(** What holds of an ICY listener between two ticks. *)
Definition icy_listener (i : Z) (c : client_t) : Prop :=
  listener_ok c /\ interval c = i /\ 0 < i /\
  (in_metadata c = true -> since_meta_block c = i) /\
  assoc_block_ok (cl_associated c) /\ refbuf_meta_ok (refbuf c).

(** What the listener has yet to be sent for its stream to be an ICY stream
    with payload [p] that ends [e] payload bytes after a metadata block: the
    rest of the block it is in the middle of, if any, and then a stream. *)
Definition to_come (i e : Z) (c : client_t) (s p : list byte) : Prop :=
  if in_metadata c then
    exists s', s = zdrop (metadata_offset c) (assoc_data (cl_associated c)) ++ s' /\
               icy_stream i e 0 s' p
  else icy_stream i e (since_meta_block c) s p.

Lemma icy_stream_audio (i e o : Z) (a s p : list byte) :
  icy_stream i e (o + blen a) s p -> icy_stream i e o (a ++ s) (a ++ p).
Proof.
  intros H. inversion H as [o' p0 Hle He|o' p0 m s' p' Hfull Hm Hrest]; subst.
  - apply icy_run_end; rewrite blen_app; lia.
  - replace (a ++ p0 ++ m ++ s') with ((a ++ p0) ++ m ++ s')
      by (rewrite <- app_assoc; reflexivity).
    rewrite (app_assoc a p0 p').
    apply icy_run_meta; [rewrite blen_app; lia|exact Hm|exact Hrest].
Qed.

Lemma icy_stream_block (i e : Z) (m s p : list byte) :
  icy_block m -> icy_stream i e 0 s p -> icy_stream i e i (m ++ s) p.
Proof.
  intros Hm H. apply (icy_run_meta i e i [] m s p); [|exact Hm|exact H].
  change (blen (@nil byte)) with 0. lia.
Qed.

Lemma blank_meta_block : icy_block blank_meta_data.
Proof. reflexivity. Qed.

Lemma assoc_data_block (a : assoc_ptr) :
  a <> Null -> assoc_block_ok a -> icy_block (assoc_data a).
Proof. destruct a; simpl; [congruence|intros; apply blank_meta_block|auto]. Qed.

Lemma ztake_zdrop_app {A} (n : Z) (l : list A) : ztake n l ++ zdrop n l = l.
Proof. unfold ztake, zdrop. apply take_drop. Qed.

Lemma ztake_ztake_zdrop {A} (a b : Z) (l : list A) :
  0 <= a -> 0 <= b ->
  ztake a l ++ ztake b (zdrop a l) = ztake (a + b) l.
Proof.
  intros Ha Hb. unfold ztake, zdrop. rewrite Z2Nat.inj_add by lia.
  apply take_take_drop.
Qed.

(** A write off an interval boundary: payload only. *)
Lemma write_step_audio (i : Z) (c : client_t) (s : sock) :
  icy_listener i c -> since_meta_block c <> i ->
  exists c' ret w,
    format_mp3_write_buf_to_client c s = Some (c', ret, w) /\
    icy_listener i c' /\ refbuf c' = refbuf c /\ pos c <= pos c' /\
    audio_bytes w = ztake (pos c' - pos c) (zdrop (pos c) (data (refbuf c))) /\
    (forall e s' p', to_come i e c' s' p' ->
                     to_come i e c (wire_bytes w ++ s') (audio_bytes w ++ p')).
Proof.
  intros (Hok & Hi & Hpos & Hin & Hassoc & Hrb) Hne.
  assert (Hidle : in_metadata c = false).
  { destruct (in_metadata c); [exfalso; auto|reflexivity]. }
  destruct Hok as [Hp Hsince Hoff Hres Hblank].
  unfold format_mp3_write_buf_to_client.
  replace (negb (interval c =? 0)) with true
    by (symmetry; apply negb_true_iff, Z.eqb_neq; lia).
  replace (interval c =? since_meta_block c) with false
    by (symmetry; apply Z.eqb_neq; lia).
  cbn [andb].
  set (len0 := blen (data (refbuf c)) - pos c).
  set (len1 := if interval c - since_meta_block c <? len0
               then interval c - since_meta_block c else len0).
  set (len := if 2900 <? len1 then 2900 else len1).
  assert (Hlen : 0 <= len <= len0 /\ len <= interval c - since_meta_block c).
  { subst len len1 len0.
    destruct (interval c - since_meta_block c <? _) eqn:E1;
      destruct (2900 <? _) eqn:E2; lia. }
  assert (Hsame : forall c', in_metadata c' = false -> since_meta_block c' = since_meta_block c ->
            forall e s' p', to_come i e c' s' p' -> to_come i e c ([] ++ s') ([] ++ p')).
  { intros c' E1 E2 e s' p'. unfold to_come. rewrite E1, Hidle, E2. auto. }
  destruct (negb (len =? 0)) eqn:Enz.
  - pose proof (sock_send_le s len ltac:(lia)) as Hle.
    set (ret := sock_send s len) in *.
    destruct (0 <? ret) eqn:Epos.
    + apply Z.ltb_lt in Epos.
      eexists _, _, _. split; [reflexivity|]. cbn [pos refbuf].
      split; [|split; [reflexivity|split; [lia|split]]].
      * split; [|split; [exact Hi|split; [exact Hpos|split; [|split]]]]; cbn; auto.
        -- constructor; cbn; auto; subst len0; lia.
        -- rewrite Hidle. discriminate.
      * simpl. rewrite app_nil_r. f_equal. lia.
      * intros e s' p'. unfold to_come, wire_bytes. cbn. rewrite Hidle, app_nil_r.
        intros H. apply icy_stream_audio. rewrite blen_audio by (subst len0; lia).
        exact H.
    + eexists _, _, _. split; [reflexivity|]. cbn [pos refbuf].
      split; [|split; [reflexivity|split; [lia|split]]].
      * split; [|split; [exact Hi|split; [exact Hpos|split; [|split]]]]; cbn; auto.
        constructor; cbn; auto.
      * rewrite Z.sub_diag. reflexivity.
      * apply Hsame; [exact Hidle|reflexivity].
  - eexists _, _, _. split; [reflexivity|]. cbn [pos refbuf].
    split; [|split; [reflexivity|split; [lia|split]]].
    + split; [|split; [exact Hi|split; [exact Hpos|split; [|split]]]]; cbn; auto.
      constructor; cbn; auto.
    + rewrite Z.sub_diag. reflexivity.
    + apply Hsame; [exact Hidle|reflexivity].
Qed.

Lemma ztake_zdrop_more {A} (o r : Z) (l : list A) :
  0 <= o -> 0 <= r -> ztake r (zdrop o l) ++ zdrop (o + r) l = zdrop o l.
Proof.
  intros Ho Hr. unfold ztake, zdrop. rewrite Z2Nat.inj_add by lia.
  rewrite <- drop_drop. apply take_drop.
Qed.

Lemma zero_block : icy_block [x00].
Proof. reflexivity. Qed.

(** The block [send_icy_metadata] sets out to send: the rest of the block the
    listener is in the middle of, a whole block, or the single zero byte. *)
Lemma icy_metadata_choice_block (i : Z) (c : client_t) :
  icy_listener i c ->
  exists md c1,
    icy_metadata_choice c (refbuf c) = Some (md, blen md, c1) /\
    pos c1 = pos c /\ queue_pos c1 = queue_pos c /\ counter c1 = counter c /\
    schedule_ms c1 = schedule_ms c /\ refbuf c1 = refbuf c /\
    interval c1 = interval c /\ since_meta_block c1 = since_meta_block c /\
    metadata_offset c1 = metadata_offset c /\
    cl_associated c1 <> Null /\ assoc_block_ok (cl_associated c1) /\
    0 <= metadata_offset c <= blen (assoc_data (cl_associated c1)) /\
    (in_metadata c = true -> cl_associated c1 = cl_associated c) /\
    (in_metadata c = false -> metadata_offset c = 0) /\
    (md = zdrop (metadata_offset c) (assoc_data (cl_associated c1)) \/
     md = [x00] /\ in_metadata c = false).
Proof.
  intros ([Hp Hsince Hoff Hres Hblank] & Hi & Hpos & Hin & Hassoc & Hrb).
  unfold icy_metadata_choice.
  pose proof (blen_nonneg blank_meta_data) as Hb.
  destruct (in_metadata c) eqn:Ein.
  - destruct (Hres eq_refl) as [Hnn Ho].
    destruct (cl_associated c) as [| |m] eqn:Ea; [congruence| |]; simpl in Ho.
    + exists (zdrop (metadata_offset c) blank_meta_data), c.
      rewrite blen_zdrop by exact Ho. rewrite Ea. simpl.
      repeat split; auto; try discriminate; lia.
    + exists (zdrop (metadata_offset c) (m_data m)), c.
      rewrite blen_zdrop by exact Ho. rewrite Ea. simpl.
      repeat split; auto; try discriminate; lia.
  - specialize (Hoff eq_refl).
    destruct (meta_changed (associated (refbuf c)) (cl_associated c)) as [m|] eqn:Ech.
    + assert (Hm : icy_block (m_data m)).
      { unfold refbuf_meta_ok in Hrb. unfold meta_changed in Ech.
        destruct (associated (refbuf c)) as [m0|]; [|discriminate].
        destruct (cl_associated c) as [| |m']; try (inversion Ech; subst; exact Hrb).
        destruct (m_addr m0 =? m_addr m'); [discriminate|].
        inversion Ech; subst; exact Hrb. }
      eexists _, _. split; [reflexivity|]. simpl.
      pose proof (blen_nonneg (m_data m)).
      rewrite Hoff. repeat split; auto; try discriminate; try lia.
    + destruct (non_null (associated (refbuf c)) || using_blank_meta c) eqn:Eor.
      * exists [x00], c. split; [reflexivity|].
        assert (Hnn : cl_associated c <> Null).
        { apply orb_true_iff in Eor. destruct Eor as [E|E].
          - destruct (associated (refbuf c)) as [m|]; [|discriminate].
            simpl in Ech. destruct (cl_associated c); discriminate.
          - rewrite (Hblank E). discriminate. }
        pose proof (blen_nonneg (assoc_data (cl_associated c))).
        repeat split; auto; try lia.
      * eexists _, _. split.
        { rewrite blen_zdrop; [reflexivity|]. lia. }
        simpl. rewrite Hoff. repeat split; auto; try discriminate; try lia.
Qed.

(** A write on an interval boundary: the metadata block, or a part of it. *)
Lemma write_step_meta (i : Z) (c : client_t) (s : sock) :
  icy_listener i c -> since_meta_block c = i ->
  exists c' ret w,
    format_mp3_write_buf_to_client c s = Some (c', ret, w) /\
    icy_listener i c' /\ refbuf c' = refbuf c /\ pos c <= pos c' /\
    audio_bytes w = ztake (pos c' - pos c) (zdrop (pos c) (data (refbuf c))) /\
    (forall e s' p', to_come i e c' s' p' ->
                     to_come i e c (wire_bytes w ++ s') (audio_bytes w ++ p')).
Proof.
  intros Hc Hdue.
  destruct (icy_metadata_choice_block i c Hc)
    as (md & c1 & Ech & Ep & Eq & Ec & Esch & Erb & Ei & Esi & Eo & Hnn & Hab & Hoff
        & Hsame & Hzero & Hmd).
  destruct Hc as (Hok & Hi & Hpos & Hin & Hassoc & Hrb).
  destruct (send_icy_metadata_ok c s Hok ltac:(lia) ltac:(lia))
    as (c' & ret & w & E & Hok' & Ei' & _).
  assert (Hblock : icy_block (assoc_data (cl_associated c1)))
    by (apply assoc_data_block; assumption).
  unfold format_mp3_write_buf_to_client.
  replace (negb (interval c =? 0)) with true
    by (symmetry; apply negb_true_iff, Z.eqb_neq; lia).
  replace (interval c =? since_meta_block c) with true
    by (symmetry; apply Z.eqb_eq; lia).
  cbn [andb]. rewrite E. exists c', ret, w. split; [reflexivity|].
  unfold send_icy_metadata in E. rewrite Ech in E.
  destruct Hok as [Hp _ _ _ _].
  set (bl0 := blen (data (refbuf c)) - pos c1) in *.
  set (bl := if interval c1 <? bl0 then interval c1 else bl0) in *.
  assert (Hbl : 0 <= bl <= bl0).
  { subst bl bl0. rewrite Ep, Ei. destruct (interval c <? _) eqn:E0; lia. }
  pose proof (blen_nonneg md) as Hmdl.
  pose proof (sock_send_le s (blen md + bl) ltac:(lia)) as Hle.
  set (r := sock_send s (blen md + bl)) in *.
  (* what is to come for [c], given a stream that begins with the block *)
  assert (Hstart : forall e rest p,
             icy_stream i e 0 rest p ->
             to_come i e c (zdrop (metadata_offset c) (assoc_data (cl_associated c1)) ++ rest) p).
  { intros e rest p H. unfold to_come. destruct (in_metadata c) eqn:Ein.
    - rewrite <- (Hsame eq_refl). eauto.
    - rewrite (Hzero eq_refl). unfold zdrop. simpl. rewrite Hdue.
      apply icy_stream_block; assumption. }
  destruct (blen md <=? r) eqn:Efull.
  - apply Z.leb_le in Efull. inversion E. subst c' ret w. clear E.
    cbn [pos refbuf].
    split; [|split; [exact Erb|split; [lia|split]]].
    + split; [exact Hok'|]. split; [cbn; lia|]. split; [exact Hpos|].
      split; [discriminate|]. split; [exact Hab|]. cbn. rewrite Erb. exact Hrb.
    + simpl. rewrite app_nil_r, Ep. f_equal. lia.
    + intros e s' p'. unfold to_come at 1. cbn [in_metadata since_meta_block].
      unfold wire_bytes. cbn [map concat audio_bytes bytes_of].
      rewrite !app_nil_r. intros H.
      assert (Ha : blen (ztake (r - blen md) (zdrop (pos c1) (data (refbuf c)))) = r - blen md)
        by (apply blen_audio; subst bl0; rewrite ?Ep in *; lia).
      assert (H0 : icy_stream i e 0
                     (ztake (r - blen md) (zdrop (pos c1) (data (refbuf c))) ++ s')
                     (ztake (r - blen md) (zdrop (pos c1) (data (refbuf c))) ++ p'))
        by (apply icy_stream_audio; rewrite Z.add_0_l, Ha; exact H).
      rewrite <- app_assoc.
      destruct Hmd as [->|[-> Ein]].
      * apply Hstart. exact H0.
      * unfold to_come. rewrite Ein, Hdue. apply icy_stream_block; [apply zero_block|exact H0].
  - apply Z.leb_gt in Efull. inversion E. subst c' ret w. clear E.
    cbn [pos refbuf].
    split; [|split; [exact Erb|split; [lia|split]]].
    + split; [exact Hok'|]. split; [cbn; lia|]. split; [exact Hpos|].
      split; [intros _; cbn; lia|]. split; [exact Hab|]. cbn. rewrite Erb. exact Hrb.
    + rewrite Ep, Z.sub_diag. destruct (0 <? r); reflexivity.
    + intros e s' p'. unfold to_come at 1. cbn [in_metadata metadata_offset cl_associated].
      intros (s'' & -> & H).
      destruct (0 <? r) eqn:E0.
      * apply Z.ltb_lt in E0. unfold wire_bytes. cbn [map concat audio_bytes bytes_of].
        rewrite app_nil_r. cbn [app].
        destruct Hmd as [->|[-> Ein]].
        -- rewrite Eo, app_assoc, ztake_zdrop_more by lia. apply Hstart. exact H.
        -- unfold blen in Efull. simpl in Efull. lia.
      * apply Z.ltb_ge in E0. unfold wire_bytes. cbn [map concat audio_bytes app].
        rewrite Eo. apply Hstart. exact H.
Qed.

Lemma write_step_stream (i : Z) (c : client_t) (s : sock) :
  icy_listener i c ->
  exists c' ret w,
    format_mp3_write_buf_to_client c s = Some (c', ret, w) /\
    icy_listener i c' /\ refbuf c' = refbuf c /\ pos c <= pos c' /\
    audio_bytes w = ztake (pos c' - pos c) (zdrop (pos c) (data (refbuf c))) /\
    (forall e s' p', to_come i e c' s' p' ->
                     to_come i e c (wire_bytes w ++ s') (audio_bytes w ++ p')).
Proof.
  intros Hc. destruct (Z.eq_dec (since_meta_block c) i) as [E|E].
  - apply write_step_meta; assumption.
  - apply write_step_audio; assumption.
Qed.

(** The block the source moves a listener on to carries well-formed
    metadata. *)
Definition tick_meta_ok (t : tick) : Prop :=
  match t_next t with
  | Some rb => refbuf_meta_ok rb
  | None => True
  end.

Lemma move_on_icy_listener (i : Z) (c : client_t) (t : tick) :
  icy_listener i c -> tick_meta_ok t ->
  icy_listener i (move_on c (t_next t)) /\
  (forall e s p, to_come i e c s p <-> to_come i e (move_on c (t_next t)) s p).
Proof.
  intros (Hok & Hi & Hpos & Hin & Hassoc & Hrb) Ht. unfold tick_meta_ok in Ht. split.
  - split; [apply move_on_ok; exact Hok|].
    destruct (t_next t) as [rb|]; simpl; auto 10.
  - intros e s p. unfold to_come. destruct (t_next t) as [rb|]; simpl; tauto.
Qed.

(** Over a run of ticks: what was written, followed by anything that is still
    to come at the end, is what was to come at the beginning. *)
Lemma write_ticks_stream (i : Z) (ts : list tick) :
  Forall tick_meta_ok ts ->
  forall c, icy_listener i c ->
    exists c' w,
      write_ticks c ts = Some (c', w) /\ icy_listener i c' /\
      (forall e s' p', to_come i e c' s' p' ->
                       to_come i e c (wire_bytes w ++ s') (audio_bytes w ++ p')).
Proof.
  induction 1 as [|t ts Ht _ IH]; intros c Hc; simpl.
  - exists c, []. split; [reflexivity|]. split; [exact Hc|]. auto.
  - destruct (move_on_icy_listener i c t Hc Ht) as [Hc0 Hsame].
    destruct (write_step_stream i (move_on c (t_next t)) (t_sock t) Hc0)
      as (c1 & ret & w1 & E1 & Hc1 & _ & _ & _ & Hw1).
    rewrite E1. destruct (IH c1 Hc1) as (c2 & w2 & E2 & Hc2 & Hw2). rewrite E2.
    exists c2, (w1 ++ w2). split; [reflexivity|]. split; [exact Hc2|].
    intros e s' p' H. apply Hsame. rewrite wire_bytes_app, audio_bytes_app, <- !app_assoc.
    apply Hw1, Hw2. exact H.
Qed.

Lemma new_icy_listener (i : Z) (rb : refbuf_t) :
  0 < i -> refbuf_meta_ok rb -> icy_listener i (new_listener i rb).
Proof.
  intros Hi Hrb. split; [apply new_listener_ok; exact Hi|].
  simpl. repeat split; auto. discriminate.
Qed.

(** What is left to send of the metadata block a listener is in the middle
    of. *)
Definition block_rest (c : client_t) : list byte :=
  if in_metadata c then zdrop (metadata_offset c) (assoc_data (cl_associated c)) else [].

(** X12.  What format_mp3_write_buf_to_client and send_icy_metadata write to
    an ICY listener is a well-formed ICY stream, however the writes are
    fragmented and whenever the listener is moved on to another block: the
    bytes written over any run of ticks, completed by what is left of a
    metadata block that is only partly sent, are the payload bytes written
    with one metadata block (1 + 16 * L bytes, L its first byte) after every
    [interval] of them, provided the metadata attached to the queue blocks
    is of that form.  The stream ends since_meta_block payload bytes after its
    last metadata block. *)
Theorem listener_stream_is_icy (i : Z) (rb : refbuf_t) (ts : list tick) :
  0 < i -> refbuf_meta_ok rb -> Forall tick_meta_ok ts ->
  exists c w,
    write_ticks (new_listener i rb) ts = Some (c, w) /\
    payload_total w = blen (audio_bytes w) /\
    icy_stream i (if in_metadata c then 0 else since_meta_block c) 0
               (wire_bytes w ++ block_rest c) (audio_bytes w).
Proof.
  intros Hi Hrb Hts.
  destruct (write_ticks_stream i ts Hts _ (new_icy_listener i rb Hi Hrb))
    as (c & w & E & Hc & Hw).
  exists c, w. split; [exact E|]. split; [apply payload_total_audio|].
  specialize (Hw (if in_metadata c then 0 else since_meta_block c) (block_rest c) []).
  unfold to_come at 2 in Hw. simpl in Hw. rewrite app_nil_r in Hw. apply Hw.
  destruct Hc as ([_ Hsince _ _ _] & Ei & _).
  unfold to_come, block_rest. destruct (in_metadata c).
  - exists []. rewrite app_nil_r. split; [reflexivity|].
    apply icy_run_end; change (blen (@nil byte)) with 0; lia.
  - apply icy_run_end; change (blen (@nil byte)) with 0; lia.
Qed.

Lemma listener_stream_is_icy_witness :
  exists c w,
    write_ticks (new_listener 16 (mk_refbuf (repeat x41 40) None))
                [mk_tick None (SockRoom 100); mk_tick None (SockRoom 5);
                 mk_tick None (SockRoom 7); mk_tick None (SockRoom 100)] = Some (c, w) /\
    payload_total w = blen (audio_bytes w) /\
    icy_stream 16 (if in_metadata c then 0 else since_meta_block c) 0
               (wire_bytes w ++ block_rest c) (audio_bytes w).
Proof.
  apply (listener_stream_is_icy 16 (mk_refbuf (repeat x41 40) None)
           [mk_tick None (SockRoom 100); mk_tick None (SockRoom 5);
            mk_tick None (SockRoom 7); mk_tick None (SockRoom 100)]).
  - lia.
  - exact I.
  - repeat constructor.
Defined.

(** X13.  A listener is sent each queue block in order, without a gap and
    without a repetition: over a run of ticks on one block, whatever the
    sockets took and whatever metadata went in between, the payload bytes
    written are the bytes of the block from the position the run began at to
    the position it ended at, and that position never goes back nor past the
    end of the block. *)
Theorem listener_payload_in_order (i : Z) (c : client_t) (ts : list tick) :
  icy_listener i c ->
  Forall (fun t => t_next t = None) ts ->
  exists c' w,
    write_ticks c ts = Some (c', w) /\
    refbuf c' = refbuf c /\
    pos c <= pos c' <= blen (data (refbuf c)) /\
    audio_bytes w = ztake (pos c' - pos c) (zdrop (pos c) (data (refbuf c))) /\
    (pos c = 0 -> pos c' = blen (data (refbuf c)) -> audio_bytes w = data (refbuf c)).
Proof.
  intros Hc Hts. revert c Hc.
  assert (Hrun : forall c, icy_listener i c ->
            exists c' w,
              write_ticks c ts = Some (c', w) /\ icy_listener i c' /\
              refbuf c' = refbuf c /\ pos c <= pos c' /\
              audio_bytes w = ztake (pos c' - pos c) (zdrop (pos c) (data (refbuf c)))).
  { induction Hts as [|t ts Ht _ IH]; intros c Hc; simpl.
    - exists c, []. split; [reflexivity|]. split; [exact Hc|]. split; [reflexivity|].
      split; [lia|]. rewrite Z.sub_diag. reflexivity.
    - rewrite Ht. simpl.
      destruct (write_step_stream i c (t_sock t) Hc)
        as (c1 & ret & w1 & E1 & Hc1 & Erb1 & Hp1 & Ha1 & _).
      rewrite E1. destruct (IH c1 Hc1) as (c2 & w2 & E2 & Hc2 & Erb2 & Hp2 & Ha2).
      rewrite E2. exists c2, (w1 ++ w2). split; [reflexivity|]. split; [exact Hc2|].
      split; [congruence|]. split; [lia|].
      rewrite audio_bytes_app, Ha1, Ha2, Erb1.
      destruct Hc as ([Hpos _ _ _ _] & _).
      apply slice_app; lia. }
  intros c Hc. destruct (Hrun c Hc) as (c' & w & E & Hc' & Erb & Hp & Ha).
  exists c', w. split; [exact E|]. split; [exact Erb|].
  destruct Hc' as ([Hpos' _ _ _ _] & _). rewrite Erb in Hpos'.
  split; [lia|]. split; [exact Ha|].
  intros H0 Hend. rewrite Ha, H0, Hend, Z.sub_0_r. unfold zdrop. simpl.
  apply ztake_ge. lia.
Qed.

Lemma listener_payload_in_order_witness :
  exists c' w,
    write_ticks (new_listener 16 (mk_refbuf (repeat x41 40) None))
                [mk_tick None (SockRoom 100); mk_tick None (SockRoom 5);
                 mk_tick None (SockRoom 7); mk_tick None (SockRoom 100)] = Some (c', w) /\
    pos c' = 32 /\ audio_bytes w = repeat x41 32.
Proof.
  destruct (listener_payload_in_order 16 (new_listener 16 (mk_refbuf (repeat x41 40) None))
              [mk_tick None (SockRoom 100); mk_tick None (SockRoom 5);
               mk_tick None (SockRoom 7); mk_tick None (SockRoom 100)])
    as (c' & w & E & _).
  - apply new_icy_listener; [lia|exact I].
  - repeat constructor.
  - exists c', w. split; [exact E|]. vm_compute in E. inversion E. subst.
    split; reflexivity.
Defined.

(** *** From a listener back to a source *)

Section ListenerToSource.

Variable mpeg_sync : Type.
Variable mpeg_complete_frames : mpeg_sync -> block_t -> mpeg_sync * block_t * Z.
Variable mpeg_data_insert : mpeg_sync -> list byte -> mpeg_sync.
Variable mp3_set_title : mp3_state -> list byte.

Local Abbreviation source := (source_t mpeg_sync).
Local Abbreviation get_blocks :=
  (ingest mpeg_sync mpeg_complete_frames mpeg_data_insert mp3_set_title).

(** X14.  The two halves of the ICY path agree.  Let an ICY listener with
    interval [i] be written to over any run of ticks that does not stop in
    the middle of a metadata block, and let a source that expects inline
    metadata every [i] bytes (and has no MPEG resynchroniser) read what was
    written, in blocks of any sizes.  Then the blocks mp3_get_filter_meta
    queues hold, put end to end, exactly the payload bytes the listener was
    sent; the source keeps running and ends between two metadata blocks. *)
Theorem listener_stream_filters_back
        (i : Z) (rb : refbuf_t) (ts : list tick) (reads : list (list byte)) (s : source) :
  0 < i < 2 ^ 31 -> refbuf_meta_ok rb -> Forall tick_meta_ok ts ->
  Forall (fun r => blen r < 2 ^ 32) reads ->
  format_data _ s = None -> running _ s = true ->
  read_data (state _ s) = None ->
  inline_metadata_interval (state _ s) = i ->
  offset (state _ s) = 0 -> build_metadata_len (state _ s) = 0 ->
  exists c w,
    write_ticks (new_listener i rb) ts = Some (c, w) /\
    (in_metadata c = false -> concat reads = wire_bytes w ->
     concat (map payload (snd (get_blocks s reads))) = audio_bytes w /\
     running _ (fst (get_blocks s reads)) = true /\
     build_metadata_len (state _ (fst (get_blocks s reads))) = 0 /\
     offset (state _ (fst (get_blocks s reads))) = since_meta_block c).
Proof.
  intros Hi Hrb Hts Hsmall Hfd Hrun Hrd Ei Eo El.
  destruct (write_ticks_stream i ts Hts _ (new_icy_listener i rb ltac:(lia) Hrb))
    as (c & w & E & Hc & Hw).
  exists c, w. split; [exact E|]. intros Hidle Hreads.
  specialize (Hw (since_meta_block c) [] []).
  unfold to_come at 2 in Hw. simpl in Hw. rewrite !app_nil_r in Hw.
  assert (Hstream : icy_stream i (since_meta_block c) 0 (wire_bytes w) (audio_bytes w)).
  { apply Hw. unfold to_come. rewrite Hidle.
    destruct Hc as ([_ Hsince _ _ _] & Ei' & _).
    apply icy_run_end; change (blen (@nil byte)) with 0; lia. }
  assert (Hin : ingesting mpeg_sync mpeg_complete_frames i (since_meta_block c) s
                          (concat reads ++ [])
                          (audio_bytes w)).
  { split; [left; exact Hfd|]. split; [exact Hrun|]. split; [exact Hrd|].
    split; [exact Ei|]. left. rewrite Eo, app_nil_r, Hreads.
    split; [exact El|]. split; [lia|exact Hstream]. }
  destruct (ingest_strips mpeg_sync mpeg_complete_frames mpeg_data_insert mp3_set_title
              i _ reads Hi Hsmall s [] (audio_bytes w) Hin)
    as (pl' & Hpl & (Hfd' & Hrun' & Hrd' & Ei' & Hph) & Hblocks).
  assert (Hend : pl' = [] /\
                 build_metadata_len (state _ (fst (get_blocks s reads))) = 0 /\
                 offset (state _ (fst (get_blocks s reads))) = since_meta_block c).
  { destruct Hph as [(El' & Ho' & Hs)|(m & s' & Hm & El' & Hk & Eo' & Ef & Hsplit & Hrest)].
    - inversion Hs as [o p Hle He Eo1 Ep Epl | o p m s' p' Hrun1 Hm Hrest Eo1 Ep Epl].
      + subst. change (blen (@nil byte)) with 0 in *. repeat split; auto; lia.
      + exfalso. destruct p; [|discriminate]. destruct m; [|discriminate].
        unfold icy_block, blen in Hm. simpl in Hm. lia.
    - exfalso. symmetry in Hsplit. apply app_eq_nil in Hsplit. destruct Hsplit as [Hz _].
      assert (Hb : blen (zdrop (build_metadata_offset (state _ (fst (get_blocks s reads)))) m)
                   = blen m - build_metadata_offset (state _ (fst (get_blocks s reads))))
        by (apply blen_zdrop; lia).
      rewrite Hz in Hb. change (blen (@nil byte)) with 0 in Hb. lia. }
  destruct Hend as (-> & El' & Eo'). rewrite app_nil_r in Hpl.
  repeat split; auto.
Qed.

End ListenerToSource.

(** A block of forty bytes sent through a listener with interval 16 and read
    back by a source in blocks of seven bytes. *)
Definition forty : refbuf_t := mk_refbuf (repeat x41 40) None.

Definition four_ticks : list tick :=
  [mk_tick None (SockRoom 100); mk_tick None (SockRoom 5);
   mk_tick None (SockRoom 7); mk_tick None (SockRoom 100)].

Fixpoint chunks (fuel n : nat) (l : list byte) : list (list byte) :=
  match fuel, l with
  | S fuel', _ :: _ => firstn n l :: chunks fuel' n (skipn n l)
  | _, _ => []
  end.

Definition relay_source : source_t unit :=
  mk_source unit true None 0 0 0
            (mk_mp3 blank_meta_data None None None None 0 16 16 0 [] 0 0 1400 None 0).

Lemma listener_stream_filters_back_witness :
  exists c w reads,
    write_ticks (new_listener 16 forty) four_ticks = Some (c, w) /\
    concat reads = wire_bytes w /\ length reads = 7%nat /\
    concat (map payload
                (snd (ingest unit (fun y b => (y, b, 0)) (fun y _ => y) metadata
                             relay_source reads)))
    = repeat x41 32.
Proof.
  destruct (listener_stream_filters_back unit (fun y b => (y, b, 0)) (fun y _ => y) metadata
              16 forty four_ticks
              (chunks 49 7 (repeat x41 16 ++ blank_meta_data ++ repeat x41 16))
              relay_source)
    as (c & w & E & H); try reflexivity; try exact I.
  - lia.
  - repeat constructor.
  - repeat constructor; vm_compute; reflexivity.
  - exists c, w, (chunks 49 7 (repeat x41 16 ++ blank_meta_data ++ repeat x41 16)).
    split; [exact E|]. vm_compute in E. inversion E. subst c w.
    split; [vm_compute; reflexivity|]. split; [reflexivity|].
    destruct (H eq_refl ltac:(vm_compute; reflexivity)) as (Hp & _).
    rewrite Hp. vm_compute. reflexivity.
Defined.

(** *** The metadata block mp3_set_title builds *)

Definition zeros (n : Z) : list byte := repeat x00 (Z.to_nat n).

Lemma blen_head {A} (x : A) (l : list A) : blen (x :: l) = 1 + blen l.
Proof. unfold blen. simpl length. lia. Qed.

Lemma blen_zeros (n : Z) : 0 <= n -> blen (zeros n) = n.
Proof. intros H. unfold blen, zeros. rewrite repeat_length. lia. Qed.

Lemma zeros_cons (n : Z) : 0 <= n -> x00 :: zeros n = zeros (n + 1).
Proof.
  intros H. unfold zeros. replace (Z.to_nat (n + 1)) with (S (Z.to_nat n)) by lia.
  reflexivity.
Qed.

Lemma zdrop_zeros (a n : Z) : 0 <= a <= n -> zdrop a (zeros n) = zeros (n - a).
Proof.
  intros H. unfold zdrop, zeros.
  replace (Z.to_nat n) with (Z.to_nat a + Z.to_nat (n - a))%nat by lia.
  rewrite repeat_app, skipn_app, repeat_length, Nat.sub_diag.
  rewrite skipn_all2 by (rewrite repeat_length; lia). reflexivity.
Qed.

Lemma zdrop_app_more {A} (a b : list A) (k : Z) :
  0 <= k -> zdrop (blen a + k) (a ++ b) = zdrop k b.
Proof.
  intros Hk. unfold zdrop, blen. rewrite Z2Nat.inj_add, Nat2Z.id by lia.
  rewrite <- drop_drop, drop_app_length. reflexivity.
Qed.

Lemma byte_val_of (z : Z) : byte_val (byte_of z) = z mod 256.
Proof.
  unfold byte_val, byte_of.
  pose proof (Z.mod_pos_bound z 256 ltac:(lia)) as Hr.
  destruct (Byte.of_N (Z.to_N (z mod 256))) as [b|] eqn:E.
  - apply Byte.to_of_N in E. rewrite E. lia.
  - apply Byte.of_N_None_iff in E. lia.
Qed.

(** A text without NUL, as a C string holds it. *)
Definition no_nul (l : list byte) : Prop := Forall (fun b => b <> x00) l.

Lemma cstr_no_nul (s : list byte) : no_nul (cstr s).
Proof.
  induction s as [|b s IH]; simpl; [constructor|].
  destruct (Byte.eqb b x00) eqn:E; [constructor|].
  constructor; [|exact IH]. intros ->. discriminate.
Qed.

Lemma cstr_app (a b : list byte) : no_nul a -> cstr (a ++ b) = a ++ cstr b.
Proof.
  induction 1 as [|x a Hx _ IH]; simpl; [reflexivity|].
  destruct (Byte.eqb x x00) eqn:E.
  - apply Byte.byte_dec_bl in E. contradiction.
  - rewrite IH. reflexivity.
Qed.

Lemma cstr_zeros (n : Z) : cstr (zeros n) = [].
Proof. unfold zeros. destruct (Z.to_nat n); reflexivity. Qed.

Lemma cstr_text (a : list byte) (n : Z) : no_nul a -> cstr (a ++ zeros n) = a.
Proof. intros H. rewrite cstr_app, cstr_zeros, app_nil_r by exact H. reflexivity. Qed.

Lemma no_nul_app (a b : list byte) : no_nul a -> no_nul b -> no_nul (a ++ b).
Proof. apply Forall_app_2. Qed.

Lemma memcpy_at_zeros (a src : list byte) (m : Z) :
  blen src <= m ->
  memcpy_at (a ++ zeros m) (blen a) src (blen src) = a ++ src ++ zeros (m - blen src).
Proof.
  intros H. pose proof (blen_nonneg src) as Hs. unfold memcpy_at.
  rewrite ztake_app_blen, (ztake_ge (blen src) src) by lia.
  rewrite zdrop_app_more, zdrop_zeros by lia. reflexivity.
Qed.

Lemma snprintf_at_zeros (a out : list byte) (n m : Z) :
  blen out + 1 <= n -> blen out + 1 <= m ->
  snprintf_at (a ++ zeros m) (blen a) n out = a ++ out ++ zeros (m - blen out).
Proof.
  intros Hn Hm. pose proof (blen_nonneg out) as Ho. unfold snprintf_at.
  replace (n <=? 0) with false by (symmetry; apply Z.leb_gt; lia).
  cbv zeta. rewrite (ztake_ge (n - 1) out) by lia.
  rewrite memcpy_at_zeros by (rewrite blen_app; change (blen [x00]) with 1; lia).
  rewrite blen_app. change (blen [x00]) with 1. rewrite <- app_assoc. simpl.
  rewrite zeros_cons by lia. do 3 f_equal. lia.
Qed.

Lemma strcat_at_zeros (a t s : list byte) (m : Z) :
  no_nul t -> blen s + 1 <= m ->
  strcat_at (a ++ t ++ zeros m) (blen a) s = Some (a ++ t ++ s ++ zeros (m - blen s)).
Proof.
  intros Ht Hm. pose proof (blen_nonneg s) as Hs. unfold strcat_at, strlen.
  rewrite zdrop_app_blen, cstr_text by exact Ht. cbv zeta.
  rewrite !blen_app, blen_zeros by lia.
  replace (blen a + blen t + blen s + 1 <=? blen a + (blen t + m)) with true
    by (symmetry; apply Z.leb_le; lia).
  f_equal. rewrite (app_assoc a t), <- (blen_app a t).
  replace (blen s + 1) with (blen (s ++ [x00]))
    by (rewrite blen_app; reflexivity).
  rewrite memcpy_at_zeros by (rewrite blen_app; change (blen [x00]) with 1; lia).
  rewrite blen_app. change (blen [x00]) with 1. rewrite <- !app_assoc. simpl.
  rewrite zeros_cons by lia. do 4 f_equal. lia.
Qed.

(** The title as the listeners see it: "artist - title", or the title. *)
Definition title_text (st : mp3_state) (title : list byte) : list byte :=
  match url_artist st with
  | Some artist => cstr artist ++ list_byte_of_string " - " ++ cstr title
  | None => cstr title
  end.

(** The URL that goes with it: the inline one, else the one of the mount. *)
Definition title_url (st : mp3_state) : option (list byte) :=
  match inline_url st with
  | Some u => Some (cstr u)
  | None => option_map cstr (url st)
  end.

(** The text of the block: StreamTitle='...'; and StreamUrl='...'; *)
Definition icy_message (st : mp3_state) (title : list byte) : list byte :=
  stream_title ++ title_text st title ++ quote_semi
  ++ match title_url st with
     | Some u => stream_url ++ u ++ quote_semi
     | None => []
     end.

Lemma title_len_message (st : mp3_state) (title : list byte) :
  url_title st = Some title ->
  title_len st = to_uint (blen (icy_message st title) + 1).
Proof.
  intros Et. unfold title_len, icy_message, title_text, title_url, strlen.
  rewrite Et. f_equal.
  destruct (url_artist st) as [a|]; destruct (inline_url st) as [iu|];
    try destruct (url st) as [u|]; simpl non_null; cbn [andb option_map];
    rewrite ?blen_app;
    change (blen stream_title) with 13; change (blen stream_url) with 11;
    change (blen quote_semi) with 2; change (blen (list_byte_of_string " - ")) with 3;
    change (blen (@nil byte)) with 0; lia.
Qed.

Lemma title_text_no_nul (st : mp3_state) (title : list byte) : no_nul (title_text st title).
Proof.
  unfold title_text. destruct (url_artist st).
  - apply no_nul_app; [apply cstr_no_nul|].
    apply no_nul_app; [|apply cstr_no_nul]. repeat constructor; discriminate.
  - apply cstr_no_nul.
Qed.

(** The refbuf for a message that fits: the length byte, the message, and NUL
    bytes up to the next multiple of 16. *)
Definition title_block (st : mp3_state) (title : list byte) : list byte :=
  let msg := icy_message st title in
  byte_of (blen msg / 16 + 1) :: msg ++ zeros (16 - blen msg mod 16).

Lemma icy_message_min (st : mp3_state) (title : list byte) :
  15 <= blen (icy_message st title).
Proof.
  unfold icy_message. rewrite !blen_app.
  change (blen stream_title) with 13. change (blen quote_semi) with 2.
  pose proof (blen_nonneg (title_text st title)).
  pose proof (blen_nonneg (match title_url st with
                           | Some u => stream_url ++ u ++ quote_semi
                           | None => []
                           end)). lia.
Qed.

Lemma title_block_shape (st : mp3_state) (title : list byte) :
  blen (icy_message st title) + 1 <= 4080 ->
  blen (title_block st title) = 1 + 16 * (blen (icy_message st title) / 16 + 1) /\
  first_byte (title_block st title) = blen (icy_message st title) / 16 + 1 /\
  1 <= 16 - blen (icy_message st title) mod 16 <= 16.
Proof.
  intros Hfit. pose proof (icy_message_min st title) as Hmsg.
  pose proof (Z.mod_pos_bound (blen (icy_message st title)) 16 ltac:(lia)) as Hmod.
  pose proof (Z.div_mod (blen (icy_message st title)) 16 ltac:(lia)) as Hdiv.
  unfold title_block. cbv zeta. split; [|split; [|lia]].
  - rewrite blen_head, blen_app, blen_zeros by lia. lia.
  - simpl. rewrite byte_val_of. apply Z.mod_small. lia.
Qed.

Lemma mp3_set_title_builds (st : mp3_state) (title : list byte) :
  url_title st = Some title ->
  blen (icy_message st title) + 1 <= 4080 ->
  mp3_set_title st = Some (set_metadata (title_block st title) st).
Proof.
  intros Et Hfit.
  pose proof (title_len_message st title Et) as Hlen.
  pose proof (icy_message_min st title) as Hmsg.
  unfold title_block. cbv zeta.
  set (msg := icy_message st title) in *.
  pose proof (Z.mod_pos_bound (blen msg) 16 ltac:(lia)) as Hmod.
  pose proof (Z.div_mod (blen msg) 16 ltac:(lia)) as Hdiv.
  unfold to_uint in Hlen. rewrite Z.mod_small in Hlen by lia.
  set (lb := blen msg / 16 + 1).
  assert (Hlb : 1 <= lb <= 255) by (subst lb; lia).
  set (block := byte_of lb :: msg ++ zeros (16 - blen msg mod 16)).
  unfold mp3_set_title. rewrite Hlen.
  replace (MAX_META_LEN <? blen msg + 1) with false
    by (symmetry; apply Z.ltb_ge; unfold MAX_META_LEN; lia).
  cbv zeta. rewrite Et.
  replace (blen msg + 1 - 1) with (blen msg) by lia.
  unfold to_uint. rewrite (Z.mod_small (blen msg)) by lia.
  fold lb. rewrite (Z.mod_small lb 256) by lia.
  fold (title_text st title). fold (zeros (lb * 16 + 1)).
  set (text := title_text st title).
  set (out := byte_of lb :: stream_title ++ text).
  set (U := match title_url st with
            | Some u => stream_url ++ u ++ quote_semi
            | None => []
            end).
  assert (Emsg : msg = stream_title ++ text ++ quote_semi ++ U) by reflexivity.
  assert (Hout : blen out = 14 + blen text).
  { subst out. rewrite blen_head, blen_app. change (blen stream_title) with 13. lia. }
  assert (Hml : blen msg = 15 + blen text + blen U).
  { rewrite Emsg, !blen_app. change (blen stream_title) with 13.
    change (blen quote_semi) with 2. lia. }
  pose proof (blen_nonneg text) as Htext. pose proof (blen_nonneg U) as HU.
  (* the first snprintf *)
  assert (E1 : snprintf_at (zeros (lb * 16 + 1)) 0 (lb * 16 + 1) out
               = byte_of lb :: stream_title ++ text ++ zeros (lb * 16 + 1 - blen out)).
  { pose proof (snprintf_at_zeros [] out (lb * 16 + 1) (lb * 16 + 1)) as H.
    simpl app in H. change (blen (@nil byte)) with 0 in H. rewrite H by lia.
    subst out. reflexivity. }
  rewrite E1.
  (* the strcat *)
  assert (E2 : strcat_at (byte_of lb :: stream_title ++ text
                          ++ zeros (lb * 16 + 1 - blen out)) 14 quote_semi
               = Some ((byte_of lb :: stream_title) ++ text ++ quote_semi
                       ++ zeros (lb * 16 + 1 - blen out - 2))).
  { pose proof (strcat_at_zeros (byte_of lb :: stream_title) text quote_semi
                  (lb * 16 + 1 - blen out) (title_text_no_nul st title)) as H.
    change (blen (byte_of lb :: stream_title)) with 14 in H.
    change (blen quote_semi) with 2 in H.
    rewrite <- H by lia. reflexivity. }
  rewrite E2. f_equal. f_equal.
  set (p2 := (byte_of lb :: stream_title) ++ text ++ quote_semi
             ++ zeros (lb * 16 + 1 - blen out - 2)).
  assert (Ep2 : p2 = ((byte_of lb :: stream_title) ++ text ++ quote_semi)
                     ++ zeros (lb * 16 + 1 - blen out - 2))
    by (subst p2; rewrite <- !app_assoc; reflexivity).
  assert (Hpre : blen ((byte_of lb :: stream_title) ++ text ++ quote_semi) = blen out + 2).
  { rewrite !blen_app. change (blen (byte_of lb :: stream_title)) with 14.
    change (blen quote_semi) with 2. lia. }
  assert (Hurl : forall u,
             U = stream_url ++ cstr u ++ quote_semi ->
             snprintf_at p2 (blen out + 2) (lb * 16 + 1 - (blen out + 2))
                         (stream_url ++ cstr u ++ quote_semi)
             = block).
  { intros u EU. rewrite Ep2, <- Hpre, <- EU.
    rewrite snprintf_at_zeros by lia.
    subst block. rewrite Emsg. rewrite <- !app_assoc, <- app_comm_cons.
    do 6 f_equal. rewrite <- Emsg. subst lb. lia. }
  assert (Hnone : U = [] -> p2 = block).
  { intros EU.
    assert (Hm2 : blen (stream_title ++ text ++ quote_semi) = blen msg).
    { rewrite Emsg, EU, !blen_app. change (blen (@nil byte)) with 0. lia. }
    subst p2 block. rewrite Emsg, EU, app_nil_r.
    rewrite <- !app_assoc, <- app_comm_cons. do 5 f_equal. rewrite Hm2.
    rewrite EU in Hml. change (blen (@nil byte)) with 0 in Hml. subst lb. lia. }
  subst U. unfold title_url in *.
  destruct (inline_url st) as [iu|].
  + unfold strlen.
    replace (blen (cstr iu) + 13 <? lb * 16 + 1 - (blen out + 2)) with true.
    * apply Hurl. reflexivity.
    * symmetry. apply Z.ltb_lt. rewrite !blen_app in Hml.
      change (blen stream_url) with 11 in Hml. change (blen quote_semi) with 2 in Hml.
      subst lb. lia.
  + destruct (url st) as [u|]; cbn [option_map] in *.
    * apply Hurl. reflexivity.
    * apply Hnone. reflexivity.
Qed.

(** X15.  mp3_set_title, for a source that has a title: when the message
    StreamTitle='[artist - ]title';[StreamUrl='url';] and its NUL come to at
    most 4080 bytes, the new metadata refbuf is the length byte, the message
    and 1 to 16 NUL bytes of padding; its length is 1 + 16 * L with L the
    length byte, as inline ICY metadata requires, and no write leaves the
    refbuf.  When they come to more, the metadata is left as it is. *)
Theorem mp3_set_title_block (st : mp3_state) (title : list byte) :
  url_title st = Some title ->
  let msg := icy_message st title in
  let block := byte_of (blen msg / 16 + 1) :: msg ++ zeros (16 - blen msg mod 16) in
  (blen msg + 1 <= 4080 ->
   mp3_set_title st = Some (set_metadata block st) /\
   icy_block block /\
   first_byte block = blen msg / 16 + 1 /\
   1 <= 16 - blen msg mod 16 <= 16 /\
   17 <= blen block <= 4081) /\
  (4080 < blen msg + 1 < 2 ^ 32 -> mp3_set_title st = Some st).
Proof.
  intros Et. cbv zeta. split.
  - intros Hfit. pose proof (icy_message_min st title) as Hmsg.
    destruct (title_block_shape st title Hfit) as (Hblen & Hfirst & Hpad).
    unfold title_block in Hblen, Hfirst. cbv zeta in Hblen, Hfirst.
    split; [exact (mp3_set_title_builds st title Et Hfit)|].
    split; [unfold icy_block; rewrite Hfirst; exact Hblen|].
    split; [exact Hfirst|]. split; [exact Hpad|].
    rewrite Hblen. pose proof (Z.div_mod (blen (icy_message st title)) 16 ltac:(lia)).
    pose proof (Z.mod_pos_bound (blen (icy_message st title)) 16 ltac:(lia)). lia.
  - intros Hlong. unfold mp3_set_title.
    rewrite (title_len_message st title Et). unfold to_uint.
    rewrite Z.mod_small by lia.
    replace (MAX_META_LEN <? blen (icy_message st title) + 1) with true
      by (symmetry; apply Z.ltb_lt; unfold MAX_META_LEN; lia).
    reflexivity.
Qed.

(** A source with an artist, a title and an inline URL. *)
Definition titled : mp3_state :=
  mk_mp3 blank_meta_data (Some (list_byte_of_string "Band"))
         (Some (list_byte_of_string "Song")) None
         (Some (list_byte_of_string "http://x/")) 1 16000 0 0 [] 0 0 1400 None 0.

Lemma mp3_set_title_block_witness :
  option_map metadata (mp3_set_title titled)
  = Some (x04 :: list_byte_of_string "StreamTitle='Band - Song';StreamUrl='http://x/';"
              ++ repeat x00 16).
Proof.
  rewrite (proj1 (proj1 (mp3_set_title_block titled (list_byte_of_string "Song") eq_refl)
                    ltac:(vm_compute; discriminate))).
  vm_compute. reflexivity.
Defined.

(** *** From mp3_set_title to parse_icy_metadata *)

Lemma find_sub_here (pat rest : list byte) : find_sub pat (pat ++ rest) = Some O.
Proof.
  destruct pat as [|b pat]; [destruct rest; reflexivity|].
  cbn [find_sub app]. rewrite bool_decide_eq_true_2; [reflexivity|].
  change (b :: pat ++ rest) with ((b :: pat) ++ rest). apply take_app_length.
Qed.

(** The first "';" behind a text that holds none is the one that ends it. *)
Lemma find_sub_quote_semi (text rest : list byte) :
  find_sub quote_semi text = None ->
  find_sub quote_semi (text ++ quote_semi ++ rest) = Some (length text).
Proof.
  induction text as [|b t IH]; intros H.
  - exact (find_sub_here quote_semi rest).
  - cbn [find_sub app] in H |- *.
    destruct (bool_decide (firstn (length quote_semi) (b :: t) = quote_semi)) eqn:E;
      [discriminate|].
    apply bool_decide_eq_false in E.
    destruct (find_sub quote_semi t) eqn:Et; [discriminate|].
    rewrite bool_decide_eq_false_2.
    + rewrite IH by reflexivity. reflexivity.
    + intros Heq. apply E. destruct t as [|b2 t]; simpl in Heq |- *.
      * inversion Heq.
      * exact Heq.
Qed.

Lemma starts_with_app (lit rest : list byte) :
  no_nul lit -> starts_with lit (lit ++ rest) = true.
Proof.
  intros H. unfold starts_with. apply bool_decide_eq_true_2.
  rewrite cstr_app by exact H. apply take_app_length.
Qed.

Lemma cstr_zeros_app (n : Z) (rest : list byte) : 1 <= n -> cstr (zeros n ++ rest) = [].
Proof.
  intros H. unfold zeros. destruct (Z.to_nat n) eqn:E; [lia|]. reflexivity.
Qed.

(** The rounds of the loop of parse_icy_metadata. *)
Lemma parse_icy_tokens_title (fuel : nat) (md : list byte) (meta_len : Z) (st : mp3_state)
      (k : nat) :
  starts_with stream_title md = true ->
  strstr (skipn 13 md) quote_semi = Some k ->
  0 < meta_len - (13 + Z.of_nat k + 2) ->
  parse_icy_tokens (S fuel) md meta_len st
  = parse_icy_tokens fuel (zdrop (13 + Z.of_nat k + 2) md) (meta_len - (13 + Z.of_nat k + 2))
      (set_update_metadata 1 (set_url_title (Some (firstn k (skipn 13 md))) st)).
Proof.
  intros Hs Hk Hlen. cbn [parse_icy_tokens]. rewrite Hs, Hk.
  replace (0 <? meta_len - (13 + Z.of_nat k + 2)) with true
    by (symmetry; apply Z.ltb_lt; exact Hlen).
  reflexivity.
Qed.

Lemma parse_icy_tokens_url (fuel : nat) (md : list byte) (meta_len : Z) (st : mp3_state)
      (k : nat) :
  starts_with stream_title md = false ->
  starts_with stream_url md = true ->
  strstr (skipn 11 md) quote_semi = Some k ->
  0 < meta_len - (11 + Z.of_nat k + 2) ->
  parse_icy_tokens (S fuel) md meta_len st
  = parse_icy_tokens fuel (zdrop (11 + Z.of_nat k + 2) md) (meta_len - (11 + Z.of_nat k + 2))
      (set_update_metadata 1 (set_inline_url (Some (firstn k (skipn 11 md))) st)).
Proof.
  intros Hs Hu Hk Hlen. cbn [parse_icy_tokens]. rewrite Hs, Hu, Hk.
  replace (0 <? meta_len - (11 + Z.of_nat k + 2)) with true
    by (symmetry; apply Z.ltb_lt; exact Hlen).
  reflexivity.
Qed.

Lemma parse_icy_tokens_stop (fuel : nat) (md : list byte) (meta_len : Z) (st : mp3_state) :
  cstr md = [] -> parse_icy_tokens (S fuel) md meta_len st = st.
Proof.
  intros H. cbn [parse_icy_tokens]. unfold starts_with, strchr. rewrite H. reflexivity.
Qed.

Lemma stream_title_no_nul : no_nul stream_title.
Proof. repeat constructor; discriminate. Qed.

Lemma stream_url_no_nul : no_nul stream_url.
Proof. repeat constructor; discriminate. Qed.

Lemma quote_semi_no_nul : no_nul quote_semi.
Proof. repeat constructor; discriminate. Qed.

Lemma title_url_no_nul (st : mp3_state) (u : list byte) : title_url st = Some u -> no_nul u.
Proof.
  unfold title_url. destruct (inline_url st) as [iu|]; [|destruct (url st) as [x|]];
    simpl; intros E; inversion E; apply cstr_no_nul.
Qed.

(** A StreamUrl token is not taken for a StreamTitle token. *)
Lemma url_not_title (rest : list byte) : starts_with stream_title (stream_url ++ rest) = false.
Proof.
  unfold starts_with. apply bool_decide_eq_false_2. intros H.
  rewrite cstr_app in H by apply stream_url_no_nul.
  apply (f_equal (firstn 7)) in H. rewrite take_take in H.
  change (take (7 `min` length stream_title) (stream_url ++ cstr rest))
    with (take 7 stream_url) in H.
  discriminate.
Qed.

(** What parse_icy_metadata makes of a state that holds the block of a
    source: the title and the URL the source had, and the update flag. *)
Definition parsed_title (up : mp3_state) (title : list byte) (down : mp3_state) : mp3_state :=
  let st1 := set_update_metadata 1 (set_url_title (Some (title_text up title)) down) in
  match title_url up with
  | Some u => set_update_metadata 1 (set_inline_url (Some u) st1)
  | None => st1
  end.

Lemma parse_title_block (up : mp3_state) (title : list byte) (down : mp3_state)
      (rest : list byte) (fuel : nat) :
  find_sub quote_semi (title_text up title) = None ->
  (forall u, title_url up = Some u -> find_sub quote_semi u = None) ->
  let msg := icy_message up title in
  let pad := 16 - blen msg mod 16 in
  (3 <= fuel)%nat ->
  parse_icy_tokens fuel (msg ++ zeros pad ++ rest) (blen msg + pad) down
  = parsed_title up title down.
Proof.
  intros Htext Hurl. cbv zeta. intros Hfuel.
  pose proof (Z.mod_pos_bound (blen (icy_message up title)) 16 ltac:(lia)) as Hmod.
  set (pad := 16 - blen (icy_message up title) mod 16).
  assert (Hpad : 1 <= pad) by (subst pad; lia).
  unfold icy_message, parsed_title in *. cbv zeta.
  set (text := title_text up title) in *.
  pose proof (title_text_no_nul up title) as Hnn. fold text in Hnn.
  pose proof (blen_nonneg text) as Htl.
  destruct fuel as [|[|[|fuel]]]; try lia.
  (* the title *)
  set (U := match title_url up with
            | Some u => stream_url ++ u ++ quote_semi
            | None => []
            end).
  set (tail := U ++ zeros pad ++ rest).
  assert (Emd : (stream_title ++ text ++ quote_semi ++ U) ++ zeros pad ++ rest
                = stream_title ++ text ++ quote_semi ++ tail)
    by (subst tail; rewrite <- !app_assoc; reflexivity).
  rewrite Emd.
  assert (Hskip : skipn 13 (stream_title ++ text ++ quote_semi ++ tail)
                  = text ++ quote_semi ++ tail)
    by (change 13%nat with (length stream_title); apply drop_app_length).
  assert (HUnn : no_nul U).
  { subst U. destruct (title_url up) as [u|] eqn:Eu; [|constructor].
    apply no_nul_app; [apply stream_url_no_nul|].
    apply no_nul_app; [exact (title_url_no_nul up u Eu)|apply quote_semi_no_nul]. }
  assert (Hcstr : cstr (text ++ quote_semi ++ tail) = text ++ quote_semi ++ U).
  { subst tail.
    replace (text ++ quote_semi ++ U ++ zeros pad ++ rest)
      with ((text ++ quote_semi ++ U) ++ zeros pad ++ rest)
      by (rewrite <- !app_assoc; reflexivity).
    rewrite cstr_app.
    - rewrite cstr_zeros_app, app_nil_r by exact Hpad. reflexivity.
    - repeat apply no_nul_app; auto using quote_semi_no_nul. }
  rewrite (parse_icy_tokens_title _ _ _ _ (length text)).
  - rewrite Hskip, take_app_length.
    assert (Edrop : zdrop (13 + Z.of_nat (length text) + 2)
                          (stream_title ++ text ++ quote_semi ++ tail) = tail).
    { replace (13 + Z.of_nat (length text) + 2)
        with (blen (stream_title ++ text ++ quote_semi))
        by (rewrite !blen_app; change (blen stream_title) with 13;
            change (blen quote_semi) with 2; unfold blen; lia).
      replace (stream_title ++ text ++ quote_semi ++ tail)
        with ((stream_title ++ text ++ quote_semi) ++ tail)
        by (rewrite <- !app_assoc; reflexivity).
      apply zdrop_app_blen. }
    rewrite Edrop. subst tail U.
    assert (Hstop : forall st len f, parse_icy_tokens (S f) (zeros pad ++ rest) len st = st)
      by (intros; apply parse_icy_tokens_stop, cstr_zeros_app; exact Hpad).
    destruct (title_url up) as [u|] eqn:Eu.
    + (* the URL *)
      pose proof (title_url_no_nul up u Eu) as Hunn.
      rewrite <- !app_assoc.
      rewrite (parse_icy_tokens_url _ _ _ _ (length u)).
      * assert (Hskip2 : skipn 11 (stream_url ++ u ++ quote_semi ++ zeros pad ++ rest)
                         = u ++ quote_semi ++ zeros pad ++ rest)
          by (change 11%nat with (length stream_url); apply drop_app_length).
        rewrite Hskip2, take_app_length.
        assert (Edrop2 : zdrop (11 + Z.of_nat (length u) + 2)
                               (stream_url ++ u ++ quote_semi ++ zeros pad ++ rest)
                         = zeros pad ++ rest).
        { replace (11 + Z.of_nat (length u) + 2)
            with (blen (stream_url ++ u ++ quote_semi))
            by (rewrite !blen_app; change (blen stream_url) with 11;
                change (blen quote_semi) with 2; unfold blen; lia).
          replace (stream_url ++ u ++ quote_semi ++ zeros pad ++ rest)
            with ((stream_url ++ u ++ quote_semi) ++ zeros pad ++ rest)
            by (rewrite <- !app_assoc; reflexivity).
          apply zdrop_app_blen. }
        rewrite Edrop2. apply Hstop.
      * apply url_not_title.
      * apply starts_with_app, stream_url_no_nul.
      * assert (Hskip2 : skipn 11 (stream_url ++ u ++ quote_semi ++ zeros pad ++ rest)
                         = u ++ quote_semi ++ zeros pad ++ rest)
          by (change 11%nat with (length stream_url); apply drop_app_length).
        unfold strstr. rewrite Hskip2.
        rewrite (app_assoc u), cstr_app
          by (apply no_nul_app; [exact Hunn|apply quote_semi_no_nul]).
        rewrite cstr_zeros_app, app_nil_r by exact Hpad.
        rewrite <- (app_nil_r quote_semi). apply find_sub_quote_semi. auto.
      * rewrite !blen_app. change (blen stream_title) with 13.
        change (blen stream_url) with 11. change (blen quote_semi) with 2.
        unfold blen. lia.
    + simpl app. apply Hstop.
  - apply starts_with_app, stream_title_no_nul.
  - unfold strstr. rewrite Hskip, Hcstr. apply find_sub_quote_semi. exact Htext.
  - rewrite !blen_app. change (blen stream_title) with 13.
    change (blen quote_semi) with 2. pose proof (blen_nonneg U). unfold blen. lia.
Qed.

(** X16.  The block mp3_set_title builds is read back by parse_icy_metadata:
    when a source has a title, and neither "artist - title" nor the URL holds
    the two characters "';" that end a token, a state that has received the
    block as inline metadata (and whose current metadata differs from it)
    accepts it and comes out with "artist - title" as its title, the URL as
    its inline URL and update_metadata set, its own metadata and artist left
    alone. *)
Theorem title_round_trip
        (up : mp3_state) (title : list byte) (down : mp3_state) (rest : list byte) :
  url_title up = Some title ->
  blen (icy_message up title) + 1 <= 4080 ->
  find_sub quote_semi (title_text up title) = None ->
  (forall u, title_url up = Some u -> find_sub quote_semi u = None) ->
  exists up',
    mp3_set_title up = Some up' /\
    (build_metadata down = metadata up' ++ rest ->
     build_metadata_len down = blen (metadata up') ->
     memcmp_eq (build_metadata down) (metadata down) (build_metadata_len down) = false ->
     let r := parse_icy_metadata down in
     fst r = 0 /\
     url_title (snd r) = Some (title_text up title) /\
     inline_url (snd r)
     = match title_url up with Some u => Some u | None => inline_url down end /\
     update_metadata (snd r) = 1 /\
     metadata (snd r) = metadata down /\ url_artist (snd r) = url_artist down).
Proof.
  intros Et Hfit Htext Hurl.
  exists (set_metadata (title_block up title) up).
  split; [exact (mp3_set_title_builds up title Et Hfit)|].
  cbn [metadata set_metadata]. intros Ebm Elen Hdiff. cbv zeta.
  destruct (title_block_shape up title Hfit) as (Hblen & Hfirst & Hpad).
  pose proof (icy_message_min up title) as Hmsg.
  pose proof (Z.div_mod (blen (icy_message up title)) 16 ltac:(lia)) as Hdiv.
  assert (Hfb : first_byte (build_metadata down) = blen (icy_message up title) / 16 + 1).
  { rewrite Ebm, <- Hfirst. unfold title_block. reflexivity. }
  assert (Eparse : parse_icy_metadata down = (0, parsed_title up title down)).
  { unfold parse_icy_metadata. rewrite Hdiff, Hfb, Elen, Hblen.
    replace (1 + 16 * (blen (icy_message up title) / 16 + 1) <=? 1) with false
      by (symmetry; apply Z.leb_gt; lia).
    replace (1 + 16 * (blen (icy_message up title) / 16 + 1) <? 16) with false
      by (symmetry; apply Z.ltb_ge; lia).
    replace (4081 <? 1 + 16 * (blen (icy_message up title) / 16 + 1)) with false
      by (symmetry; apply Z.ltb_ge; lia).
    replace ((blen (icy_message up title) / 16 + 1) * 16 + 1
             =? 1 + 16 * (blen (icy_message up title) / 16 + 1)) with true
      by (symmetry; apply Z.eqb_eq; lia).
    cbn [orb negb]. f_equal.
    rewrite Ebm. unfold title_block. cbv zeta.
    change (skipn 1 ((byte_of (blen (icy_message up title) / 16 + 1)
                      :: icy_message up title
                         ++ zeros (16 - blen (icy_message up title) mod 16)) ++ rest))
      with ((icy_message up title ++ zeros (16 - blen (icy_message up title) mod 16))
            ++ rest).
    rewrite <- app_assoc.
    replace (1 + 16 * (blen (icy_message up title) / 16 + 1) - 1)
      with (blen (icy_message up title) + (16 - blen (icy_message up title) mod 16))
      by lia.
    apply parse_title_block; [exact Htext|exact Hurl|lia]. }
  rewrite Eparse. cbn [fst snd]. unfold parsed_title. cbv zeta.
  destruct (title_url up) as [u|]; cbn; repeat split.
Qed.

Lemma title_round_trip_witness :
  let down := mk_mp3 blank_meta_data None None None None 0 16000 8192 8192
                     (x04 :: list_byte_of_string
                               "StreamTitle='Band - Song';StreamUrl='http://x/';"
                          ++ repeat x00 16 ++ repeat x00 4016)
                     65 64 1400 None 0 in
  let r := parse_icy_metadata down in
  fst r = 0 /\
  url_title (snd r) = Some (list_byte_of_string "Band - Song") /\
  inline_url (snd r) = Some (list_byte_of_string "http://x/").
Proof.
  cbv zeta.
  destruct (title_round_trip titled (list_byte_of_string "Song")
              (mk_mp3 blank_meta_data None None None None 0 16000 8192 8192
                      (x04 :: list_byte_of_string
                                "StreamTitle='Band - Song';StreamUrl='http://x/';"
                           ++ repeat x00 16 ++ repeat x00 4016)
                      65 64 1400 None 0)
              (repeat x00 4016) eq_refl
              ltac:(vm_compute; discriminate) ltac:(vm_compute; reflexivity))
    as (up' & Eset & H).
  - intros u Eu. vm_compute in Eu. inversion Eu. subst u. vm_compute. reflexivity.
  - rewrite (mp3_set_title_builds titled (list_byte_of_string "Song") eq_refl
               ltac:(vm_compute; discriminate)) in Eset.
    inversion Eset. subst up'. clear Eset.
    destruct (H ltac:(vm_compute; reflexivity) ltac:(vm_compute; reflexivity)
                ltac:(vm_compute; reflexivity)) as (H0 & H1 & H2 & _).
    split; [exact H0|]. split; [exact H1|exact H2].
Defined.

(** *** A source without inline metadata loses no byte *)

(** The bytes a previous [validate_mpeg] has carried over into [read_data]. *)
Definition held (st : mp3_state) : list byte :=
  match read_data st with
  | Some d => ztake (read_count st) d
  | None => []
  end.

(** [read_count] lies within [read_data]. *)
Definition held_ok (st : mp3_state) : Prop :=
  match read_data st with
  | Some d => 0 <= read_count st <= blen d
  | None => True
  end.

Section NoMetaFacts.

Variable mpeg_sync : Type.
Variable mpeg_complete_frames : mpeg_sync -> block_t -> mpeg_sync * block_t * Z.
Variable mpeg_data_insert : mpeg_sync -> list byte -> mpeg_sync.
Variable mp3_set_title : mp3_state -> list byte.

Local Abbreviation source := (source_t mpeg_sync).
Local Abbreviation get_no_meta :=
  (mp3_get_no_meta mpeg_sync mpeg_complete_frames mpeg_data_insert mp3_set_title).
Local Abbreviation plain_blocks :=
  (ingest_no_meta mpeg_sync mpeg_complete_frames mpeg_data_insert mp3_set_title).

(** The frame parser only holds back a fragment at the end of the block: it
    leaves the bytes where they are, shortens [refbuf->len] by the count it
    returns, and that count is within what [validate_mpeg] accepts. *)
Definition holds_back_tail : Prop :=
  forall sync rb,
    0 <= b_len rb <= blen (b_data rb) ->
    b_data (snd (fst (mpeg_complete_frames sync rb))) = b_data rb /\
    0 <= snd (mpeg_complete_frames sync rb) <= 8000 /\
    0 <= b_len (snd (fst (mpeg_complete_frames sync rb))) /\
    b_len (snd (fst (mpeg_complete_frames sync rb))) + snd (mpeg_complete_frames sync rb)
    = b_len rb.

Definition plain (s : source) : Prop :=
  inline_metadata_interval (state _ s) <= 0 /\ held_ok (state _ s).

Lemma complete_read_block (s : source) (fresh : list byte) :
  held_ok (state _ s) ->
  let s1 := fst (complete_read _ mp3_set_title s fresh) in
  let block := snd (complete_read _ mp3_set_title s fresh) in
  block = held (state _ s) ++ fresh /\
  read_count (state _ s1) = blen block /\
  inline_metadata_interval (state _ s1) = inline_metadata_interval (state _ s) /\
  running _ s1 = running _ s /\ format_data _ s1 = format_data _ s.
Proof.
  intros Hok. cbv zeta. unfold complete_read, held, held_ok in *. cbn [fst snd].
  destruct (read_data (state _ s)) as [d|] eqn:Ed.
  - destruct (update_metadata (state _ s) =? 0); cbn;
      rewrite blen_app, blen_ztake by lia; repeat split; reflexivity.
  - destruct (update_metadata (set_read_count 0 (state _ s)) =? 0); cbn;
      repeat split; reflexivity.
Qed.

Lemma validate_mpeg_holds (s : source) (sync : mpeg_sync) (block : list byte) :
  holds_back_tail ->
  inline_metadata_interval (state _ s) <= 0 ->
  read_data (state _ s) = None ->
  let r := validate_mpeg _ mpeg_complete_frames mpeg_data_insert s sync
                         (mk_block block (blen block) None false) in
  let s' := fst (fst r) in
  let rb' := snd (fst r) in
  block = (if snd r <? 0 then [] else payload rb') ++ held (state _ s') /\
  (snd r < 0 -> b_len rb' = 0) /\
  plain s' /\ running _ s' = running _ s /\ format_data _ s' <> None.
Proof.
  intros Hp Hi Hrd. cbv zeta.
  pose proof (blen_nonneg block) as Hb.
  destruct (Hp sync (mk_block block (blen block) None false) ltac:(simpl; lia))
    as (Hdata & Hu & Hl & Hsum).
  unfold validate_mpeg.
  destruct (mpeg_complete_frames sync (mk_block block (blen block) None false))
    as [[sync1 rb1] u] eqn:E.
  cbn [fst snd b_data b_len] in Hdata, Hu, Hl, Hsum.
  replace ((u <? 0) || (8000 <? u)) with false
    by (symmetry; apply orb_false_iff; split; [apply Z.ltb_ge|apply Z.ltb_ge]; lia).
  cbn [state set_format_data].
  replace ((0 <? inline_metadata_interval (state _ s))
           && (inline_metadata_interval (state _ s) <=? offset (state _ s)))
    with false
    by (symmetry; apply andb_false_iff; left; apply Z.ltb_ge; lia).
  replace (0 <? inline_metadata_interval (state _ s)) with false
    by (symmetry; apply Z.ltb_ge; lia).
  assert (Hpay : payload rb1 = ztake (b_len rb1) block)
    by (unfold payload; rewrite Hdata; reflexivity).
  assert (Hdone : (if (if b_len rb1 =? 0 then -1 else 0) <? 0 then []
                   else payload rb1) = ztake (b_len rb1) block).
  { destruct (b_len rb1 =? 0) eqn:E0; cbn.
    - apply Z.eqb_eq in E0. rewrite E0. reflexivity.
    - exact Hpay. }
  assert (Hneg : (if b_len rb1 =? 0 then -1 else 0) < 0 -> b_len rb1 = 0).
  { destruct (b_len rb1 =? 0) eqn:E0; [apply Z.eqb_eq in E0; auto|lia]. }
  destruct (0 <? u) eqn:E1; cbn [fst snd].
  - apply Z.ltb_lt in E1. rewrite Hdone.
    set (tail := ztake u (zdrop (b_len rb1) (b_data rb1))).
    assert (Etail : tail = zdrop (b_len rb1) block).
    { subst tail. rewrite Hdata. cbn [b_data]. apply ztake_ge.
      rewrite blen_zdrop by lia. lia. }
    assert (Hlen : blen tail = u) by (rewrite Etail, blen_zdrop by lia; lia).
    unfold plain, held, held_ok.
    cbn [state set_client_pos set_state read_data read_count set_read_count
         set_read_data inline_metadata_interval running format_data set_format_data].
    split; [|split; [exact Hneg|split; [split; [exact Hi|]|split; [reflexivity|discriminate]]]].
    + rewrite <- Hlen at 1. rewrite ztake_app_blen, Etail.
      symmetry. apply ztake_zdrop_app.
    + rewrite blen_app, Hlen. pose proof (blen_nonneg (repeat x00
         (Z.to_nat (if u <? queue_block_size (state _ s)
                    then queue_block_size (state _ s) else u + 1000) - length tail))). lia.
  - apply Z.ltb_ge in E1. assert (u = 0) by lia. subst u. rewrite Hdone.
    unfold plain, held, held_ok.
    cbn [state set_client_pos set_format_data running format_data]. rewrite Hrd.
    split; [|split; [exact Hneg|split; [split; [exact Hi|exact I]|split; [reflexivity|discriminate]]]].
    rewrite app_nil_r. symmetry. apply ztake_ge. lia.
Qed.

Lemma mp3_get_no_meta_holds (s : source) (fresh : list byte) :
  holds_back_tail -> plain s ->
  held (state _ s) ++ fresh
  = payload_of (snd (get_no_meta s fresh)) ++ held (state _ (fst (get_no_meta s fresh))) /\
  plain (fst (get_no_meta s fresh)) /\
  running _ (fst (get_no_meta s fresh)) = running _ s /\
  (format_data _ s = None -> format_data _ (fst (get_no_meta s fresh)) = None) /\
  (format_data _ s <> None -> format_data _ (fst (get_no_meta s fresh)) <> None) /\
  (forall b, snd (get_no_meta s fresh) = Some b ->
             b_sync b = true /\ b_associated b <> None).
Proof.
  intros Hp [Hi Hok].
  destruct (complete_read_block s fresh Hok) as (Hblock & Hcount & Hi1 & Hrun1 & Hfd1).
  unfold mp3_get_no_meta.
  destruct (complete_read _ mp3_set_title s fresh) as [s1 block] eqn:Ec.
  cbn [fst snd] in Hblock, Hcount, Hi1, Hrun1, Hfd1.
  set (s2 := set_state _ (set_read_data None (set_read_count 0 (state _ s1))) s1).
  assert (Hfd2 : format_data _ s2 = format_data _ s) by exact Hfd1.
  assert (Hrun2 : running _ s2 = running _ s) by exact Hrun1.
  assert (Hi2 : inline_metadata_interval (state _ s2) <= 0)
    by (subst s2; cbn; lia).
  assert (Hrd2 : read_data (state _ s2) = None) by reflexivity.
  rewrite Hcount, <- Hblock.
  destruct (format_data _ s2) as [sync|] eqn:Efd.
  - pose proof (validate_mpeg_holds s2 sync block Hp Hi2 Hrd2) as Hv.
    cbv zeta in Hv.
    destruct (validate_mpeg _ mpeg_complete_frames mpeg_data_insert s2 sync
                            (mk_block block (blen block) None false))
      as [[s3 rb'] r] eqn:Ev.
    cbn [fst snd] in Hv. destruct Hv as (Hsplit & Hneg & Hplain & Hrun & Hfd).
    destruct (r <? 0) eqn:Er;
      cbn [fst snd payload_of queue_block running format_data state
           set_client_queue_pos];
      unfold payload in *; cbn [b_len b_data].
    + split; [exact Hsplit|]. split; [exact Hplain|]. split; [congruence|].
      split; [intros H; congruence|]. split; [intros _; exact Hfd|]. intros b Hb. discriminate.
    + split; [exact Hsplit|]. split; [exact Hplain|]. split; [congruence|].
      split; [intros H; congruence|]. split; [intros _; exact Hfd|].
      intros b Hb. inversion Hb. subst b. cbn. split; [reflexivity|discriminate].
  - cbn [fst snd payload_of queue_block]. unfold payload, held. cbn.
    split; [rewrite app_nil_r; symmetry; apply ztake_ge; lia|].
    split; [split; [exact Hi2|exact I]|]. split; [exact Hrun2|].
    split; [intros _; exact Efd|]. split; [intros H; congruence|].
    intros b Hb. inversion Hb. subst b. cbn. split; [reflexivity|discriminate].
Qed.

(** X17.  A source without inline metadata loses no byte and repeats none
    while the frame parser only holds back a fragment at the end of a block:
    over any sequence of filled blocks, the bytes carried over from before
    followed by the bytes read are the data of the blocks mp3_get_no_meta
    queues, put end to end, followed by the bytes carried over to the next
    read.  The source keeps its running flag, and every queued block has the
    metadata refbuf attached and SOURCE_BLOCK_SYNC set. *)
Theorem no_meta_keeps_every_byte (s : source) (reads : list (list byte)) :
  holds_back_tail ->
  inline_metadata_interval (state _ s) <= 0 ->
  held_ok (state _ s) ->
  held (state _ s) ++ concat reads
  = concat (map payload (snd (plain_blocks s reads)))
    ++ held (state _ (fst (plain_blocks s reads))) /\
  running _ (fst (plain_blocks s reads)) = running _ s /\
  Forall (fun b => b_sync b = true /\ b_associated b <> None)
         (snd (plain_blocks s reads)).
Proof.
  intros Hp Hi Hok. assert (Hplain : plain s) by (split; assumption).
  clear Hi Hok. revert s Hplain.
  induction reads as [|fresh reads IH]; intros s Hplain; simpl.
  - rewrite app_nil_r. auto.
  - destruct (mp3_get_no_meta_holds s fresh Hp Hplain)
      as (Hsplit & Hplain1 & Hrun1 & _ & _ & Hb).
    destruct (get_no_meta s fresh) as [s1 ob] eqn:E1. cbn [fst snd] in *.
    destruct (IH s1 Hplain1) as (Hrest & Hrun & Hall).
    destruct (plain_blocks s1 reads) as [s2 obs] eqn:E2. cbn [fst snd] in *.
    split; [|split; [congruence|]].
    + rewrite app_assoc, Hsplit, <- app_assoc, Hrest.
      destruct ob as [b|]; cbn [payload_of map concat].
      * rewrite <- !app_assoc. reflexivity.
      * reflexivity.
    + destruct ob as [b|]; [|exact Hall]. constructor; [|exact Hall].
      apply Hb. reflexivity.
Qed.

End NoMetaFacts.

(** A parser that holds back what does not fill a group of four bytes. *)
Definition by_four (sync : unit) (rb : block_t) : unit * block_t * Z :=
  (sync,
   mk_block (b_data rb) (b_len rb - b_len rb mod 4) (b_associated rb) (b_sync rb),
   b_len rb mod 4).

Definition plain_source : source_t unit :=
  mk_source unit true (Some tt) 0 0 0
            (mk_mp3 blank_meta_data None None None None 0 16000 0 0 [] 0 0 1400 None 0).

Lemma no_meta_keeps_every_byte_witness :
  let reads := [list_byte_of_string "abcdef"; list_byte_of_string "ghijk"] in
  let r := ingest_no_meta unit by_four (fun sync _ => sync) metadata plain_source reads in
  map payload (snd r) = [list_byte_of_string "abcd"; list_byte_of_string "efgh"] /\
  held (state _ (fst r)) = list_byte_of_string "ijk" /\
  held (state _ plain_source) ++ concat reads
  = concat (map payload (snd r)) ++ held (state _ (fst r)).
Proof.
  cbv zeta. split; [vm_compute; reflexivity|]. split; [vm_compute; reflexivity|].
  apply (no_meta_keeps_every_byte unit by_four (fun sync _ => sync) metadata plain_source
           [list_byte_of_string "abcdef"; list_byte_of_string "ghijk"]).
  - intros sync rb Hrb. unfold by_four. cbn [fst snd b_data b_len].
    pose proof (Z.mod_pos_bound (b_len rb) 4 ltac:(lia)) as Hm.
    pose proof (Z.mod_le (b_len rb) 4 ltac:(lia) ltac:(lia)) as Hle.
    repeat split; lia.
  - vm_compute. discriminate.
  - exact I.
Defined.

(** *** From the source's headers and the mount settings to the listener *)

Lemma get_plugin_state (plugin plugin1 : format_plugin_t)
      (client client1 : option source_client) :
  format_mp3_get_plugin plugin client = Some (plugin1, client1) ->
  p_parser plugin1 = p_parser plugin /\ p_type plugin1 = p_type plugin /\
  exists reader st,
    get_buffer plugin1 = Some reader /\ p_state plugin1 = Some st /\
    read_data st = None /\ read_count st = 0 /\ build_metadata_len st = 0 /\
    offset st = 0 /\ metadata st = blank_meta_data /\
    match p_parser plugin !! "icy-metaint" with
    | Some v =>
        inline_metadata_interval st = atoi v /\
        (if 0 <? atoi v
         then reader = Get_filter_meta /\ mp3_interval st = atoi v
         else reader = Get_no_meta)
    | None => inline_metadata_interval st = 0 /\ reader = Get_no_meta
    end.
Proof.
  unfold format_mp3_get_plugin. intros H.
  destruct (p_parser plugin !! "icy-metaint") as [v|].
  - destruct client as [c|]; [|discriminate].
    cbn [inline_metadata_interval set_inline_metadata_interval] in H.
    destruct (0 <? atoi v) eqn:Ev;
      destruct (p_type plugin); inversion H; subst; cbn;
        (split; [reflexivity|split; [reflexivity|]]);
        eexists _, _; repeat split; reflexivity.
  - destruct client as [c|]; destruct (p_type plugin); inversion H; subst; cbn;
      (split; [reflexivity|split; [reflexivity|]]);
      eexists _, _; repeat split; reflexivity.
Qed.

Lemma apply_settings_state (format : format_plugin_t) (mount : option mount_proxy)
      (st0 : mp3_state) :
  p_state format = Some st0 ->
  exists st,
    p_state (format_mp3_apply_settings format mount) = Some st /\
    get_buffer (format_mp3_apply_settings format mount) = get_buffer format /\
    p_type (format_mp3_apply_settings format mount) = p_type format /\
    charset (format_mp3_apply_settings format mount) <> None /\
    inline_metadata_interval st = inline_metadata_interval st0 /\
    read_data st = read_data st0 /\ read_count st = read_count st0 /\
    build_metadata_len st = build_metadata_len st0 /\ offset st = offset st0 /\
    metadata st = metadata st0 /\
    0 <= mp3_interval st /\
    (forall m, mount = Some m -> 0 <= mp3_meta_interval m ->
               mp3_interval st = mp3_meta_interval m) /\
    ((forall m, mount = Some m -> mp3_meta_interval m < 0) ->
     match p_parser format !! "icy-metaint" with
     | Some v => mp3_interval st = if 0 <? atoi v then atoi v else ICY_METADATA_INTERVAL
     | None => mp3_interval st = ICY_METADATA_INTERVAL
     end).
Proof.
  intros E. unfold format_mp3_apply_settings. rewrite E.
  destruct mount as [m|].
  - destruct (0 <=? mp3_meta_interval m) eqn:Ei.
    + apply Z.leb_le in Ei.
      destruct (negb (mount_queue_block_size m =? 0)); cbn [mp3_interval set_mp3_interval
        set_queue_block_size];
        (replace (mp3_meta_interval m <? 0) with false by (symmetry; apply Z.ltb_ge; lia));
        destruct (mount_charset m); cbn;
          eexists; (split; [reflexivity|]); repeat split; cbn;
            try discriminate; try lia;
            try (intros m' Hm' Hpos; inversion Hm'; subst; reflexivity);
            try (intros Hneg; specialize (Hneg m eq_refl); lia).
    + apply Z.leb_gt in Ei.
      destruct (negb (mount_queue_block_size m =? 0)); cbn [mp3_interval set_mp3_interval
        set_queue_block_size];
        change (-1 <? 0) with true; cbv iota;
        destruct (p_parser format !! "icy-metaint") as [v|];
        try (destruct (0 <? atoi v) eqn:Ev; [apply Z.ltb_lt in Ev|]);
        destruct (mount_charset m); cbn;
          eexists; (split; [reflexivity|]); repeat split; cbn;
            try discriminate; try (unfold ICY_METADATA_INTERVAL; lia);
            try (intros m' Hm' Hpos; inversion Hm'; subst; lia).
  - cbn [mp3_interval set_mp3_interval set_queue_block_size].
    change (-1 <? 0) with true. cbv iota.
    destruct (p_parser format !! "icy-metaint") as [v|];
      try (destruct (0 <? atoi v) eqn:Ev; [apply Z.ltb_lt in Ev|]); cbn;
        eexists; (split; [reflexivity|]); repeat split; cbn;
          try discriminate; try (unfold ICY_METADATA_INTERVAL; lia).
Qed.

Section ListenerInterval.

Variable flv_create_client_data : listener_t -> listener_t.
Variable format_general_headers : listener_t -> option string.

Lemma created_interval (calloc_ok : bool) (type : format_type) (source_mp3 : mp3_state)
      (c c' : listener_t) (v : string) :
  wants_flv c = false -> request c !! "iceblocks" = None ->
  request c !! "icy-metadata" = Some v -> atoi v <> 0 ->
  format_mp3_create_client_data flv_create_client_data format_general_headers
                                calloc_ok type source_mp3 c = Created c' ->
  l_interval c' = icy_interval source_mp3.
Proof.
  intros Hflv Hib Hicy Hv. unfold format_mp3_create_client_data.
  destruct calloc_ok; cbn [negb]; [|discriminate].
  change (wants_flv (attach_client_data c)) with (wants_flv c). rewrite Hflv.
  fold (prepared type c).
  assert (Ereq : request (prepared type c) = request c) by (destruct type; reflexivity).
  destruct (format_general_headers (prepared type c)) as [general|]; [|discriminate].
  destruct (String.length general <? 2)%nat; [discriminate|].
  cbv zeta. rewrite Ereq, Hib, Hicy.
  replace (negb (atoi v =? 0)) with true
    by (symmetry; apply negb_true_iff; apply Z.eqb_neq; exact Hv).
  fold (icy_interval source_mp3).
  match goal with |- context [if ?f then snprintf ?b ?l else Some ?b] =>
    destruct (if f then snprintf b l else Some b) as [b1|]; [|discriminate] end.
  destruct (snprintf b1 _) as [b2|]; [|discriminate].
  destruct (snprintf b2 _) as [b3|]; [|discriminate].
  destruct (negb (icy_interval source_mp3 =? 0)).
  - destruct (snprintf b3 _) as [b4|]; [|discriminate].
    destruct (snprintf b4 crlf) as [b5|]; [|discriminate].
    intros H. inversion H. reflexivity.
  - destruct (snprintf b3 crlf) as [b5|]; [|discriminate].
    intros H. inversion H. reflexivity.
Qed.

(** X18.  The interval at which a listener gets ICY metadata.  After
    format_mp3_get_plugin and format_mp3_apply_settings the interval of the
    mount is never negative: it is the mount's mp3_meta_interval when that is
    not negative (0 included), otherwise the icy-metaint the source itself
    announced when that is above 0, otherwise 16000.  A listener that asks
    for ICY metadata (and not for iceblocks or FLV) and whose headers
    format_mp3_create_client_data completes is given exactly that interval;
    the fallback of format_mp3_create_client_data for a negative interval is
    never taken. *)
Theorem listener_interval_configured
        (plugin plugin1 : format_plugin_t) (client client1 : option source_client)
        (mount : option mount_proxy) :
  format_mp3_get_plugin plugin client = Some (plugin1, client1) ->
  exists st,
    p_state (format_mp3_apply_settings plugin1 mount) = Some st /\
    0 <= mp3_interval st /\
    (forall m, mount = Some m -> 0 <= mp3_meta_interval m ->
               mp3_interval st = mp3_meta_interval m) /\
    ((forall m, mount = Some m -> mp3_meta_interval m < 0) ->
     (forall v, p_parser plugin !! "icy-metaint" = Some v -> 0 < atoi v ->
                mp3_interval st = atoi v) /\
     ((forall v, p_parser plugin !! "icy-metaint" = Some v -> atoi v <= 0) ->
      mp3_interval st = 16000)) /\
    (forall calloc_ok c c' v,
        wants_flv c = false -> request c !! "iceblocks" = None ->
        request c !! "icy-metadata" = Some v -> atoi v <> 0 ->
        format_mp3_create_client_data
          flv_create_client_data format_general_headers calloc_ok
          (p_type (format_mp3_apply_settings plugin1 mount)) st c = Created c' ->
        l_interval c' = mp3_interval st).
Proof.
  intros Hget.
  destruct (get_plugin_state plugin plugin1 client client1 Hget)
    as (Hparser & _ & reader & st0 & _ & Hst0 & _).
  destruct (apply_settings_state plugin1 mount st0 Hst0)
    as (st & Hst & _ & _ & _ & _ & _ & _ & _ & _ & _ & Hpos & Hmount & Hsource).
  exists st. split; [exact Hst|]. split; [exact Hpos|]. split; [exact Hmount|].
  split.
  - intros Hneg. specialize (Hsource Hneg). rewrite Hparser in Hsource. split.
    + intros v Hv Hv0. rewrite Hv in Hsource.
      replace (0 <? atoi v) with true in Hsource
        by (symmetry; apply Z.ltb_lt; exact Hv0).
      exact Hsource.
    + intros Hno. destruct (p_parser plugin !! "icy-metaint") as [v|] eqn:Ev.
      * specialize (Hno v eq_refl).
        replace (0 <? atoi v) with false in Hsource
          by (symmetry; apply Z.ltb_ge; exact Hno).
        exact Hsource.
      * exact Hsource.
  - intros calloc_ok c c' v Hflv Hib Hicy Hv Hc.
    rewrite (created_interval calloc_ok _ st c c' v Hflv Hib Hicy Hv Hc).
    unfold icy_interval.
    replace (0 <=? mp3_interval st) with true by (symmetry; apply Z.leb_le; exact Hpos).
    reflexivity.
Qed.

End ListenerInterval.

(** X19.  format_mp3_get_plugin chooses the reader by the source's own
    icy-metaint header, and leaves the state as that reader expects it, also
    after format_mp3_apply_settings: the plugin reads with
    mp3_get_filter_meta exactly when the header is there with a value above
    0, and then that value is the inline interval, no metadata block is
    pending and no byte is counted or carried over; otherwise it reads with
    mp3_get_no_meta and the inline interval is not above 0.  In both cases
    the metadata is the blank block and a character set is chosen. *)
Theorem get_plugin_reader_ready
        (plugin plugin1 : format_plugin_t) (client client1 : option source_client)
        (mount : option mount_proxy) :
  format_mp3_get_plugin plugin client = Some (plugin1, client1) ->
  let plugin2 := format_mp3_apply_settings plugin1 mount in
  exists st,
    p_state plugin2 = Some st /\
    (get_buffer plugin2 = Some Get_filter_meta \/ get_buffer plugin2 = Some Get_no_meta) /\
    (get_buffer plugin2 = Some Get_filter_meta <->
     exists v, p_parser plugin !! "icy-metaint" = Some v /\ 0 < atoi v) /\
    (forall v, p_parser plugin !! "icy-metaint" = Some v -> 0 < atoi v ->
               inline_metadata_interval st = atoi v) /\
    (get_buffer plugin2 = Some Get_no_meta -> inline_metadata_interval st <= 0) /\
    offset st = 0 /\ build_metadata_len st = 0 /\
    read_data st = None /\ read_count st = 0 /\
    metadata st = blank_meta_data /\ charset plugin2 <> None.
Proof.
  intros Hget. cbv zeta.
  destruct (get_plugin_state plugin plugin1 client client1 Hget)
    as (_ & _ & reader & st0 & Hreader & Hst0 & Hrd & Hrc & Hbl & Hoff & Hmeta & Hhdr).
  destruct (apply_settings_state plugin1 mount st0 Hst0)
    as (st & Hst & Hgb & _ & Hcs & Hi & Hrd' & Hrc' & Hbl' & Hoff' & Hmeta' & _).
  exists st. rewrite Hgb, Hreader, Hi, Hrd', Hrc', Hbl', Hoff', Hmeta'.
  split; [exact Hst|].
  destruct (p_parser plugin !! "icy-metaint") as [v|] eqn:Ev.
  - destruct Hhdr as (Hinl & Hsel).
    destruct (0 <? atoi v) eqn:E0.
    + apply Z.ltb_lt in E0. destruct Hsel as (-> & _).
      repeat split; auto; try discriminate.
      * intros _. exists v. auto.
      * intros v' Hv' _. inversion Hv'. subst. exact Hinl.
    + apply Z.ltb_ge in E0. subst reader.
      repeat split; auto; try discriminate; try lia.
      * intros (v' & Hv' & Hpos). inversion Hv'. subst. lia.
      * intros v' Hv' Hpos. inversion Hv'. subst. lia.
  - destruct Hhdr as (Hinl & ->).
    repeat split; auto; try discriminate; try lia.
    intros (v' & Hv' & _). discriminate.
Qed.

(** A source that announces inline metadata every 8192 bytes, and a listener
    that asks for ICY metadata. *)
Definition icy_source_plugin : format_plugin_t :=
  mk_plugin FORMAT_TYPE_OTHER {[ "icy-metaint"%string := "8192"%string ]}
            None None None None None.

Definition icy_source_ready : format_plugin_t :=
  mk_plugin FORMAT_TYPE_OTHER {[ "icy-metaint"%string := "8192"%string ]}
            (Some "audio/mpeg"%string) None (Some Get_filter_meta) (Some Write_mp3)
            (Some (mk_mp3 blank_meta_data None None None None 0 8192 8192 0
                          build_metadata_zeroed 0 0 0 None 0)).

Definition icy_listener_request : listener_t :=
  mk_listener false false {[ "icy-metadata"%string := "1"%string ]} "" false false 0.

Lemma icy_source_get_plugin :
  format_mp3_get_plugin icy_source_plugin (Some (mk_source_client false false))
  = Some (icy_source_ready, Some (mk_source_client true false)).
Proof. reflexivity. Qed.

Lemma listener_interval_configured_witness :
  exists st c',
    p_state (format_mp3_apply_settings icy_source_ready None) = Some st /\
    mp3_interval st = 8192 /\
    format_mp3_create_client_data (fun c => c) (fun _ => Some ok_headers) true
                                  FORMAT_TYPE_OTHER st icy_listener_request
    = Created c' /\
    l_interval c' = 8192.
Proof.
  destruct (listener_interval_configured
              (fun c => c) (fun _ => Some ok_headers)
              icy_source_plugin icy_source_ready
              (Some (mk_source_client false false)) (Some (mk_source_client true false))
              None icy_source_get_plugin)
    as (st & Hst & _ & _ & Hsrc & Hl).
  assert (Hiv : mp3_interval st = 8192).
  { apply (proj1 (Hsrc ltac:(intros m Hm; discriminate)) "8192"%string);
      [reflexivity|reflexivity]. }
  exists st.
  destruct (format_mp3_create_client_data (fun c => c) (fun _ => Some ok_headers) true
              FORMAT_TYPE_OTHER st icy_listener_request) as [| | | |c'] eqn:Ec;
    try (exfalso; vm_compute in Hst; inversion Hst; subst st; vm_compute in Ec;
         discriminate).
  exists c'. split; [exact Hst|]. split; [exact Hiv|]. split; [reflexivity|].
  rewrite <- Hiv.
  apply (Hl true icy_listener_request c' "1"%string);
    [reflexivity|reflexivity|reflexivity|discriminate|].
  vm_compute in Hst. inversion Hst. subst st. exact Ec.
Defined.

Lemma get_plugin_reader_ready_witness :
  exists st,
    p_state (format_mp3_apply_settings icy_source_ready None) = Some st /\
    get_buffer (format_mp3_apply_settings icy_source_ready None) = Some Get_filter_meta /\
    inline_metadata_interval st = 8192 /\ offset st = 0 /\ build_metadata_len st = 0.
Proof.
  destruct (get_plugin_reader_ready
              icy_source_plugin icy_source_ready
              (Some (mk_source_client false false)) (Some (mk_source_client true false))
              None icy_source_get_plugin)
    as (st & Hst & _ & Hsel & Hinl & _ & Hoff & Hbl & _).
  exists st. split; [exact Hst|]. split.
  - apply Hsel. exists "8192"%string. split; [reflexivity|reflexivity].
  - split; [|split; [exact Hoff|exact Hbl]].
    apply (Hinl "8192"%string); reflexivity.
Defined.

(** An icy-metaint beyond the range of [int] is read as a negative number:
    the source is read without the filter and the listeners get the default
    interval. *)
Example icy_metaint_beyond_int :
  let plugin :=
    mk_plugin FORMAT_TYPE_OTHER {[ "icy-metaint"%string := "2147483648"%string ]}
              None None None None None in
  atoi "2147483648" = -2147483648 /\
  exists p1 c1 st,
    format_mp3_get_plugin plugin (Some (mk_source_client false false)) = Some (p1, c1) /\
    get_buffer p1 = Some Get_no_meta /\
    p_state (format_mp3_apply_settings p1 None) = Some st /\
    inline_metadata_interval st = -2147483648 /\
    mp3_interval st = 16000.
Proof.
  cbv zeta. split; [reflexivity|].
  eexists _, _, _. split; [reflexivity|]. split; [reflexivity|].
  split; [reflexivity|]. split; reflexivity.
Qed.

(** *** The filter never rejects a block it has put together itself *)

(** Between two rounds of the filter either no metadata block is pending, or
    one is partly stored: its first byte is in [build_metadata] and
    [build_metadata_len] is the length that byte declares. *)
Definition pending_ok (st : mp3_state) : Prop :=
  build_metadata_len st = 0 \/
  (0 < build_metadata_offset st < build_metadata_len st /\
   build_metadata_len st = first_byte (build_metadata st) * 16 + 1 /\
   blen (build_metadata st) = 4081).

Lemma first_byte_memcpy_at_0 (dst src : list byte) (n : Z) :
  0 < n -> 0 < blen src -> first_byte (memcpy_at dst 0 src n) = first_byte src.
Proof.
  intros Hn Hs. unfold memcpy_at. rewrite ztake_0. simpl app.
  destruct src as [|b src]; [unfold blen in Hs; simpl in Hs; lia|].
  unfold ztake. destruct (Z.to_nat n) eqn:E; [lia|]. reflexivity.
Qed.

Lemma first_byte_memcpy_at_later (dst src : list byte) (off n : Z) :
  0 < off -> 0 < blen dst -> first_byte (memcpy_at dst off src n) = first_byte dst.
Proof.
  intros Ho Hd. unfold memcpy_at.
  destruct dst as [|b dst]; [unfold blen in Hd; simpl in Hd; lia|].
  unfold ztake at 1. destruct (Z.to_nat off) eqn:E; [lia|]. reflexivity.
Qed.

Lemma blen_memcpy_at (dst src : list byte) (off n : Z) :
  0 <= off -> 0 <= n <= blen src -> off + n <= blen dst ->
  blen (memcpy_at dst off src n) = blen dst.
Proof.
  intros Ho Hn Hd. unfold memcpy_at.
  rewrite !blen_app, (blen_ztake off), (blen_ztake n), blen_zdrop by lia. lia.
Qed.

Lemma blen_build_metadata_zeroed : blen build_metadata_zeroed = 4081.
Proof. reflexivity. Qed.

Lemma filter_loop_never_fails (fuel : nat) :
  forall st out src junk,
    pending_ok st ->
    exists st' out' rest,
      filter_loop fuel st out src junk = FilterDone st' out' rest /\ pending_ok st'.
Proof.
  induction fuel as [|fuel IH]; intros st out src junk Hinv; [simpl; eauto|].
  rewrite filter_loop_S. cbv zeta.
  pose proof (blen_nonneg src) as Hs0.
  destruct (blen src =? 0) eqn:E0; [eauto|]. apply Z.eqb_neq in E0.
  destruct (blen src <=? to_uint (inline_metadata_interval st - offset st)) eqn:E1.
  { eexists _, _, _. split; [reflexivity|]. exact Hinv. }
  destruct (negb (to_uint (inline_metadata_interval st - offset st) =? 0)) eqn:E2.
  { apply IH. exact Hinv. }
  set (st1 := if build_metadata_len st =? 0 then _ else st).
  pose proof (first_byte_range src) as Hfb.
  assert (H1 : 0 <= build_metadata_offset st1 < build_metadata_len st1 /\
               build_metadata_len st1 <= 4081 /\
               blen (build_metadata st1) = 4081 /\
               (build_metadata_offset st1 = 0 ->
                build_metadata_len st1 = first_byte src * 16 + 1) /\
               (0 < build_metadata_offset st1 ->
                build_metadata_len st1 = first_byte (build_metadata st1) * 16 + 1)).
  { subst st1. destruct (build_metadata_len st =? 0) eqn:El.
    - cbn. rewrite blen_build_metadata_zeroed. repeat split; lia.
    - apply Z.eqb_neq in El. destruct Hinv as [H|(Ho & Hl & Hb)]; [contradiction|].
      pose proof (first_byte_range (build_metadata st)).
      repeat split; try lia; try (intros; exact Hl). }
  clearbody st1. destruct H1 as (Hoff & Hmax & Hbm & Hfresh & Hpend).
  rewrite (to_uint_small (build_metadata_len st1 - build_metadata_offset st1))
    by (change (2 ^ 32) with 4294967296; lia).
  destruct (blen src <? build_metadata_len st1 - build_metadata_offset st1) eqn:E3.
  - (* the block is not complete yet *)
    apply Z.ltb_lt in E3.
    eexists _, _, _. split; [reflexivity|]. right.
    cbn [build_metadata_offset build_metadata_len build_metadata
         set_build_metadata_offset set_build_metadata].
    split; [lia|]. split.
    + destruct (Z.eq_dec (build_metadata_offset st1) 0) as [Ez|Ez].
      * rewrite Ez, first_byte_memcpy_at_0 by lia. apply Hfresh. exact Ez.
      * rewrite first_byte_memcpy_at_later by lia. apply Hpend. lia.
    + rewrite blen_memcpy_at by lia. exact Hbm.
  - (* the block is complete *)
    apply Z.ltb_ge in E3.
    set (remaining := build_metadata_len st1 - build_metadata_offset st1) in *.
    set (st2 := set_build_metadata _ st1).
    assert (Hdone : forall st3,
               exists st' out' rest,
                 filter_loop fuel (set_build_metadata_len 0 (set_offset 0 st3)) out
                             (zdrop remaining src)
                             (zdrop (blen (zdrop remaining src)) src ++ junk)
                 = FilterDone st' out' rest /\ pending_ok st').
    { intros st3. apply IH. left. reflexivity. }
    destruct (1 <? build_metadata_len st2) eqn:E4.
    + apply Z.ltb_lt in E4.
      assert (Hacc : fst (parse_icy_metadata st2) = 0).
      { apply parse_icy_metadata_accepts. subst st2.
        cbn [build_metadata_len build_metadata set_build_metadata] in *.
        destruct (Z.eq_dec (build_metadata_offset st1) 0) as [Ez|Ez].
        - rewrite Ez in *.
          rewrite first_byte_memcpy_at_0;
            [apply Hfresh; reflexivity| |lia].
          subst remaining. rewrite to_uint_small
            by (change (2 ^ 32) with 4294967296; lia). lia.
        - rewrite first_byte_memcpy_at_later by lia. apply Hpend. lia. }
      destruct (parse_icy_metadata st2) as [r st3]. simpl in Hacc. subst r.
      change (0 <? 0) with false. cbv iota. apply Hdone.
    + change (0 <? 0) with false. cbv iota. apply Hdone.
Qed.

Section FilterNeverRejects.

Variable mpeg_sync : Type.
Variable mpeg_complete_frames : mpeg_sync -> block_t -> mpeg_sync * block_t * Z.
Variable mpeg_data_insert : mpeg_sync -> list byte -> mpeg_sync.
Variable mp3_set_title : mp3_state -> list byte.

Local Abbreviation source := (source_t mpeg_sync).
Local Abbreviation get_filter_meta :=
  (mp3_get_filter_meta mpeg_sync mpeg_complete_frames mpeg_data_insert mp3_set_title).
Local Abbreviation get_blocks :=
  (ingest mpeg_sync mpeg_complete_frames mpeg_data_insert mp3_set_title).

Lemma pending_ok_fields (st st' : mp3_state) :
  build_metadata st' = build_metadata st ->
  build_metadata_len st' = build_metadata_len st ->
  build_metadata_offset st' = build_metadata_offset st ->
  pending_ok st -> pending_ok st'.
Proof. unfold pending_ok. intros -> -> ->. auto. Qed.

Lemma validate_mpeg_keeps_pending (s : source) (sync : mpeg_sync) (rb : block_t) :
  pending_ok (state _ s) ->
  pending_ok (state _ (fst (fst (validate_mpeg _ mpeg_complete_frames mpeg_data_insert
                                               s sync rb)))).
Proof.
  intros H. unfold validate_mpeg.
  destruct (mpeg_complete_frames sync rb) as [[sync1 rb1] u].
  repeat match goal with
         | |- context [if ?b then _ else _] => destruct b
         end; cbn; exact H.
Qed.

Lemma mp3_get_filter_meta_never_rejects (s : source) (fresh : list byte) :
  pending_ok (state _ s) ->
  pending_ok (state _ (fst (get_filter_meta s fresh))) /\
  (format_data _ s = None ->
   running _ (fst (get_filter_meta s fresh)) = running _ s /\
   format_data _ (fst (get_filter_meta s fresh)) = None).
Proof.
  intros Hinv. unfold mp3_get_filter_meta.
  destruct (complete_read _ mp3_set_title s fresh) as [s1 block] eqn:Ecr.
  assert (H1 : pending_ok (state _ s1) /\ running _ s1 = running _ s /\
               format_data _ s1 = format_data _ s).
  { unfold complete_read in Ecr. inversion Ecr. subst. clear Ecr.
    split; [|split; reflexivity].
    cbn [state set_state set_read_bytes].
    destruct (read_data (state _ s)); destruct (update_metadata _ =? 0);
      (eapply pending_ok_fields; [| | |exact Hinv]); reflexivity. }
  destruct H1 as (Hinv1 & Hrun1 & Hfd1).
  assert (Hinv2 : pending_ok (set_read_data None (state _ s1)))
    by (eapply pending_ok_fields; [| | |exact Hinv1]; reflexivity).
  destruct (filter_loop_never_fails (S (length block)) (set_read_data None (state _ s1)) []
              (ztake (to_uint (read_count (state _ s1))) block)
              (zdrop (to_uint (read_count (state _ s1))) block) Hinv2)
    as (st' & out & rest & E & Hinv').
  rewrite E. cbn [b_len].
  destruct (blen out <=? 0).
  - cbn [fst state set_state running format_data].
    split; [exact Hinv'|]. intros Hfd. split; [exact Hrun1|congruence].
  - cbn [format_data set_state].
    destruct (format_data _ s1) as [sync|] eqn:Efd.
    + pose proof (validate_mpeg_keeps_pending (set_state _ st' s1) sync
                    (mk_block (out ++ rest) (blen out) None false) Hinv') as Hv.
      destruct (validate_mpeg _ mpeg_complete_frames mpeg_data_insert _ sync _)
        as [[s3 rb'] r].
      cbn [fst] in Hv.
      destruct (r <? 0); cbn [fst queue_block state set_client_queue_pos];
        (split; [exact Hv|]); intros Hfd; congruence.
    + cbn [fst queue_block state set_client_queue_pos set_state running format_data].
      split; [exact Hinv'|]. intros _. split; [exact Hrun1|exact Efd].
Qed.

(** X21.  mp3_get_filter_meta never rejects a metadata block.  Let a source
    begin with no inline metadata block pending (as format_mp3_get_plugin
    leaves it) and read whatever bytes, in blocks of whatever sizes.  Then
    the loop of the filter never ends in the failure of parse_icy_metadata:
    after every read either no block is pending or one is partly stored
    whose length is the one its first byte declares, and a source without an
    MPEG resynchroniser keeps its running flag.  The length tests of
    parse_icy_metadata are therefore never what shuts a source down. *)
Theorem filter_never_rejects (s : source) (reads : list (list byte)) :
  build_metadata_len (state _ s) = 0 ->
  pending_ok (state _ (fst (get_blocks s reads))) /\
  (format_data _ s = None ->
   running _ (fst (get_blocks s reads)) = running _ s /\
   format_data _ (fst (get_blocks s reads)) = None).
Proof.
  intros H0. assert (Hinv : pending_ok (state _ s)) by (left; exact H0). clear H0.
  revert s Hinv. induction reads as [|fresh reads IH]; intros s Hinv; simpl.
  - split; [exact Hinv|]. auto.
  - destruct (mp3_get_filter_meta_never_rejects s fresh Hinv) as (Hinv1 & Hkeep1).
    destruct (get_filter_meta s fresh) as [s1 ob]. cbn [fst] in *.
    destruct (IH s1 Hinv1) as (Hinv2 & Hkeep2).
    destruct (get_blocks s1 reads) as [s2 obs]. cbn [fst] in *.
    split; [exact Hinv2|]. intros Hfd.
    destruct (Hkeep1 Hfd) as [Hr1 Hf1]. destruct (Hkeep2 Hf1) as [Hr2 Hf2].
    split; [congruence|exact Hf2].
Qed.

End FilterNeverRejects.

(** Bytes that are no ICY stream at all: a first byte that declares a block of
    4081 bytes, of which only a part arrives. *)
Lemma filter_never_rejects_witness :
  let s := mk_source unit true None 0 0 0
             (mk_mp3 blank_meta_data None None None None 0 16 16 0 build_metadata_zeroed
                     0 0 1400 None 0) in
  let run := ingest unit (fun y b => (y, b, 0)) (fun y _ => y) metadata s
                    [repeat xff 40; repeat x00 7] in
  running _ (fst run) = true /\
  build_metadata_len (state _ (fst run)) = 4081 /\
  build_metadata_offset (state _ (fst run)) = 31.
Proof.
  cbv zeta.
  destruct (filter_never_rejects unit (fun y b => (y, b, 0)) (fun y _ => y) metadata
              (mk_source unit true None 0 0 0
                 (mk_mp3 blank_meta_data None None None None 0 16 16 0
                         build_metadata_zeroed 0 0 1400 None 0))
              [repeat xff 40; repeat x00 7] eq_refl) as (_ & Hkeep).
  split; [exact (proj1 (Hkeep eq_refl))|]. split; vm_compute; reflexivity.
Defined.

End FormatMp3Facts.

(** ** Properties of slave.c *)

Module SlaveFacts.
Import Slave.

(** *** Redirect peers *)

Definition live (now : Z) (h : redirect_host) : bool := negb (expired now h).

Lemma blen_cons {A} (x : A) (l : list A) : blen (x :: l) = 1 + blen l.
Proof. unfold blen. simpl length. lia. Qed.

(** Once the selection has counted down to zero or below, no 302 is sent. *)
Lemma redirect_walk_past (now : Z) (mp : string) (c : listener_t) (hosts : list redirect_host) :
  forall which, which <= 0 -> snd (redirect_walk now which mp c hosts) = [].
Proof.
  induction hosts as [|h hosts IH]; intros which Hw; simpl; [reflexivity|].
  destruct (expired now h).
  - replace (0 <? which) with false by (symmetry; apply Z.ltb_ge; lia).
    specialize (IH which Hw).
    destruct (redirect_walk now which mp c hosts) as [[kept dropped] sent].
    simpl in *. exact IH.
  - specialize (IH (which - 1) ltac:(lia)).
    destruct (redirect_walk now (which - 1) mp c hosts) as [[kept dropped] sent].
    simpl in *. replace (which - 1 =? 0) with false by (symmetry; apply Z.eqb_neq; lia).
    exact IH.
Qed.

Lemma redirect_walk_spec (now : Z) (mp : string) (c : listener_t) (hosts : list redirect_host) :
  forall which,
    let r := redirect_walk now which mp c hosts in
    fst (fst r) = List.filter (live now) hosts /\
    snd (fst r) = blen hosts - blen (fst (fst r)) /\
    (length (snd r) <= 1)%nat /\
    (forall h loc, In (h, loc) (snd r) ->
                   In h (fst (fst r)) /\ loc = redirect_location mp c h).
Proof.
  induction hosts as [|h hosts IH]; intros which; cbv zeta; simpl.
  - split; [reflexivity|]. split; [reflexivity|]. split; [lia|]. intros h0 loc [].
  - unfold live at 1. destruct (expired now h) eqn:Eh; simpl negb; cbv iota.
    + specialize (IH (if 0 <? which then which - 1 else which)). cbv zeta in IH.
      destruct (redirect_walk now _ mp c hosts) as [[kept dropped] sent].
      simpl in *. destruct IH as (Hk & Hd & Hl & Hs).
      rewrite blen_cons. split; [exact Hk|]. split; [lia|]. split; [exact Hl|exact Hs].
    + pose proof (redirect_walk_past now mp c hosts (which - 1)) as Hpast.
      specialize (IH (which - 1)). cbv zeta in IH.
      destruct (redirect_walk now (which - 1) mp c hosts) as [[kept dropped] sent].
      simpl in *. destruct IH as (Hk & Hd & Hl & Hs).
      rewrite !blen_cons. split; [congruence|]. split; [lia|].
      destruct (which - 1 =? 0) eqn:Ew.
      * apply Z.eqb_eq in Ew. rewrite Hpast by lia. simpl. split; [lia|].
        intros h' loc [E|[]]. inversion E. subst. auto.
      * split; [exact Hl|]. intros h' loc Hin.
        destruct (Hs h' loc Hin) as [H1 H2]. auto.
Qed.

(** C9 (as amended).  On every lookup performed by redirect_client (the counter
    agreeing with the list, as the functions of this file keep it), every host
    of the redirectors list whose next_update is not 0 and whose
    next_update + 10 is less than the current time is removed from the list,
    with global.redirect_count decremented for each; the hosts with
    next_update 0 (the configured ones) and the hosts not yet expired stay, in
    their order.  At most one 302 is sent, for a host that stays on the list:
    an expired host is never selected as the redirect destination. *)
Theorem redirect_client_expires
        (now which : Z) (mp : string) (c : listener_t) (g : redirect_state) :
  redirect_count g = blen (redirectors g) ->
  let r := redirect_client now which mp c g in
  let g' := fst (fst r) in
  let sent := snd r in
  redirectors g' = List.filter (live now) (redirectors g) /\
  redirect_count g' = blen (redirectors g') /\
  (forall h, In h (redirectors g) ->
             next_update h <> 0 -> next_update h + 10 < now ->
             ~ In h (redirectors g')) /\
  (forall h, In h (redirectors g) ->
             next_update h = 0 \/ now <= next_update h + 10 ->
             In h (redirectors g')) /\
  (length sent <= 1)%nat /\
  (snd (fst r) = 1 <-> sent <> []) /\
  (snd (fst r) = 0 <-> sent = []) /\
  (forall h loc, In (h, loc) sent ->
                 In h (redirectors g') /\
                 ~ (next_update h <> 0 /\ next_update h + 10 < now) /\
                 loc = redirect_location mp c h).
Proof.
  intros Hcount. cbv zeta.
  assert (Hlive : forall h, live now h = true <->
                            next_update h = 0 \/ now <= next_update h + 10).
  { intros h. unfold live, expired. rewrite negb_true_iff, andb_false_iff.
    rewrite negb_false_iff, Z.eqb_eq, Z.ltb_ge. tauto. }
  unfold redirect_client.
  destruct (redirect_count g =? 0) eqn:E0.
  - apply Z.eqb_eq in E0. rewrite E0 in Hcount.
    assert (Hnil : redirectors g = []) by (apply FormatMp3Facts.blen_nil_inv; lia).
    simpl. rewrite Hnil. simpl.
    repeat split; auto; try lia; try congruence; try (intros h []); try (intros h loc []).
  - pose proof (redirect_walk_spec now mp c (redirectors g) which) as H. cbv zeta in H.
    destruct (redirect_walk now which mp c (redirectors g)) as [[kept dropped] sent].
    simpl in *. destruct H as (Hk & Hd & Hl & Hs). subst kept.
    split; [reflexivity|]. split; [lia|].
    split; [|split; [|split; [exact Hl|split; [|split]]]].
    + intros h Hin Hnz Hold Hkept. apply filter_In in Hkept. destruct Hkept as [_ Hlv].
      apply Hlive in Hlv. lia.
    + intros h Hin Hlv. apply filter_In. split; [exact Hin|]. apply Hlive. exact Hlv.
    + destruct sent; split; intros H; try discriminate; try congruence.
    + destruct sent; split; intros H; try discriminate; try congruence.
    + intros h loc Hin. destruct (Hs h loc Hin) as [Hkept Hloc].
      split; [exact Hkept|]. split; [|exact Hloc].
      apply filter_In in Hkept. destruct Hkept as [_ Hlv]. apply Hlive in Hlv. lia.
Qed.

(** A peer from the configuration: redirector_setup adds it with interval 0,
    which leaves its next_update at 0. *)
Definition configured_peer : redirect_state :=
  redirector_add 100 "peer.example.org" 8000 0 (mk_redirects [] 0).

Definition anonymous : listener_t := mk_listener None None None.

(** C9, the claim as stated fails for a host whose next_update is 0: at time
    100 its next_update + 10 is less than the current time, yet the lookup
    keeps it on the list and sends the listener to it. *)
Lemma redirect_client_keeps_configured_peer :
  let h := mk_redirect "peer.example.org" 8000 0 in
  let r := redirect_client 100 1 "/live" anonymous configured_peer in
  redirectors configured_peer = [h] /\
  next_update h + 10 < 100 /\
  redirectors (fst (fst r)) = [h] /\
  redirect_count (fst (fst r)) = 1 /\
  snd r = [(h, "http://peer.example.org:8000/live")].
Proof. vm_compute. repeat split; reflexivity. Qed.

(** Two peers of which the first was last touched at time 50: at time 100 the
    lookup drops it, and redirects to the other when the draw was the second. *)
Definition two_peers : redirect_state :=
  mk_redirects [mk_redirect "old.example.org" 8000 50;
                mk_redirect "new.example.org" 8001 95] 2.

Lemma redirect_client_expires_witness :
  let r := redirect_client 100 2 "/live" anonymous two_peers in
  let g' := fst (fst r) in
  let sent := snd r in
  redirect_count two_peers = blen (redirectors two_peers) /\
  redirectors g' = List.filter (live 100) (redirectors two_peers) /\
  redirect_count g' = blen (redirectors g') /\
  (forall h, In h (redirectors two_peers) ->
             next_update h <> 0 -> next_update h + 10 < 100 ->
             ~ In h (redirectors g')) /\
  (forall h, In h (redirectors two_peers) ->
             next_update h = 0 \/ 100 <= next_update h + 10 ->
             In h (redirectors g')) /\
  (length sent <= 1)%nat /\
  (snd (fst r) = 1 <-> sent <> []) /\
  (snd (fst r) = 0 <-> sent = []) /\
  (forall h loc, In (h, loc) sent ->
                 In h (redirectors g') /\
                 ~ (next_update h <> 0 /\ next_update h + 10 < 100) /\
                 loc = redirect_location "/live" anonymous h).
Proof.
  cbv zeta. split; [reflexivity|].
  exact (redirect_client_expires 100 2 "/live" anonymous two_peers eq_refl).
Defined.

Example two_peers_lookup :
  redirect_client 100 2 "/live" anonymous two_peers
  = (mk_redirects [mk_redirect "new.example.org" 8001 95] 1, 1,
     [(mk_redirect "new.example.org" 8001 95, "http://new.example.org:8001/live")]).
Proof. vm_compute. reflexivity. Qed.

(** The host is on the list of redirectors. *)
Definition listed (srv : string) (prt : Z) (hosts : list redirect_host) : Prop :=
  exists h, In h hosts /\ server h = srv /\ port h = prt.

Lemma find_slave_host_None (srv : string) (prt : Z) (hosts : list redirect_host) :
  find_slave_host srv prt hosts = None <-> ~ listed srv prt hosts.
Proof.
  unfold find_slave_host, listed. rewrite list_find_None, Forall_forall.
  split.
  - intros H (h & Hin & Hs & Hp). apply (H h); [|split; assumption].
    apply list_elem_of_In. exact Hin.
  - intros H h Hin [Hs Hp]. apply H. exists h. split; [|auto].
    apply list_elem_of_In. exact Hin.
Qed.

Lemma find_slave_host_Some (srv : string) (prt : Z) (hosts : list redirect_host)
      (i : nat) (h : redirect_host) :
  find_slave_host srv prt hosts = Some (i, h) ->
  hosts !! i = Some h /\ server h = srv /\ port h = prt /\
  (forall j h', hosts !! j = Some h' -> (j < i)%nat ->
                ~ (server h' = srv /\ port h' = prt)).
Proof.
  unfold find_slave_host. intros H. apply list_find_Some in H.
  destruct H as (Hi & [Hs Hp] & Hfirst).
  split; [exact Hi|]. split; [exact Hs|]. split; [exact Hp|].
  intros j h' Hj Hlt. exact (Hfirst j h' Hj Hlt).
Qed.

(** C10.  redirector_update leaves the list of redirectors and
    global.redirect_count as they are unless the request supplies rserver,
    an rport that parses to more than 0 and an interval of at least 5, both
    read with atoi into an [int].  With
    those, a host that is not on the list is added (at the front, due at
    now + interval) only while global.redirect_count is below max_redirects,
    the comparison being made in unsigned int, which is the plain comparison
    for counts that are not negative; for a host that is on the list, its
    first entry has next_update set to now + interval and nothing else
    changes. *)
Theorem redirector_update_guarded
        (now max_redirects : Z) (query : vars) (g : redirect_state) :
  (query !! "rserver" = None \/
   (forall v, query !! "rport" = Some v -> atoi v <= 0) \/
   (forall v, query !! "interval" = Some v -> atoi v < 5) ->
   redirector_update now max_redirects query g = g) /\
  (forall rserver rp iv,
      query !! "rserver" = Some rserver ->
      query !! "rport" = Some rp -> 0 < atoi rp ->
      query !! "interval" = Some iv -> 5 <= atoi iv ->
      let g' := redirector_update now max_redirects query g in
      (~ listed rserver (atoi rp) (redirectors g) ->
       (to_uint (redirect_count g) < to_uint max_redirects ->
        g' = mk_redirects
               (mk_redirect rserver (atoi rp) (now + atoi iv) :: redirectors g)
               (redirect_count g + 1)) /\
       (to_uint max_redirects <= to_uint (redirect_count g) -> g' = g)) /\
      (listed rserver (atoi rp) (redirectors g) ->
       exists i h,
         redirectors g !! i = Some h /\ server h = rserver /\ port h = atoi rp /\
         (forall j h', redirectors g !! j = Some h' -> (j < i)%nat ->
                       ~ (server h' = rserver /\ port h' = atoi rp)) /\
         redirect_count g' = redirect_count g /\
         length (redirectors g') = length (redirectors g) /\
         redirectors g' !! i = Some (mk_redirect rserver (atoi rp) (now + atoi iv)) /\
         (forall j, j <> i -> redirectors g' !! j = redirectors g !! j))) /\
  (0 <= redirect_count g < 2 ^ 32 -> 0 <= max_redirects < 2 ^ 32 ->
   (to_uint (redirect_count g) < to_uint max_redirects
    <-> redirect_count g < max_redirects)).
Proof.
  split; [|split].
  - intros H. unfold redirector_update.
    destruct (query !! "rserver") as [rserver|]; [|reflexivity].
    destruct (query !! "rport") as [rp|]; [|reflexivity].
    destruct (atoi rp <=? 0) eqn:Erp; [reflexivity|]. apply Z.leb_gt in Erp.
    destruct (query !! "interval") as [iv|]; [|reflexivity].
    destruct (atoi iv <? 5) eqn:Eiv; [reflexivity|]. apply Z.ltb_ge in Eiv.
    exfalso. destruct H as [H|[H|H]]; [discriminate| |].
    + specialize (H rp eq_refl). lia.
    + specialize (H iv eq_refl). lia.
  - intros rserver rp iv Hs Hp Hrp Hi Hiv. cbv zeta.
    unfold redirector_update. rewrite Hs, Hp, Hi.
    replace (atoi rp <=? 0) with false by (symmetry; apply Z.leb_gt; lia).
    replace (atoi iv <? 5) with false by (symmetry; apply Z.ltb_ge; lia).
    split.
    + intros Hnot. apply find_slave_host_None in Hnot. rewrite Hnot. split.
      * intros Hlt.
        replace (_ <? _) with true by (symmetry; apply Z.ltb_lt; exact Hlt).
        unfold redirector_add.
        replace (atoi iv =? 0) with false by (symmetry; apply Z.eqb_neq; lia).
        reflexivity.
      * intros Hge.
        replace (_ <? _) with false by (symmetry; apply Z.ltb_ge; exact Hge).
        reflexivity.
    + intros Hlisted.
      destruct (find_slave_host rserver (atoi rp) (redirectors g)) as [[i h]|] eqn:Ef.
      * destruct (find_slave_host_Some _ _ _ _ _ Ef) as (Hl & Hsrv & Hprt & Hfirst).
        exists i, h. simpl.
        assert (Hlen : (i < length (redirectors g))%nat)
          by (apply lookup_lt_is_Some; eauto).
        repeat split; auto.
        -- apply length_insert.
        -- rewrite Hsrv, Hprt. apply list_lookup_insert_eq. exact Hlen.
        -- intros j Hj. apply list_lookup_insert_ne. congruence.
      * exfalso. apply find_slave_host_None in Ef. contradiction.
  - intros Hc Hm. rewrite !FormatMp3Facts.to_uint_small by lia. tauto.
Qed.

(** A slave announces itself with an interval of 30 s to a master that knows
    one peer already and allows two. *)
Definition touch_query : vars :=
  <["rserver" := "slave.example.org"]>
    (<["rport" := "8000"]> (<["interval" := "30"]> ∅)).

Lemma redirector_update_guarded_witness :
  let g := configured_peer in
  let g' := redirector_update 100 2 touch_query g in
  (touch_query !! "rserver" = Some "slave.example.org" /\
   touch_query !! "rport" = Some "8000" /\ 0 < atoi "8000" /\
   touch_query !! "interval" = Some "30" /\ 5 <= atoi "30" /\
   ~ listed "slave.example.org" (atoi "8000") (redirectors g) /\
   to_uint (redirect_count g) < to_uint 2) /\
  g' = mk_redirects
         (mk_redirect "slave.example.org" (atoi "8000") (100 + atoi "30") :: redirectors g)
         (redirect_count g + 1).
Proof.
  cbv zeta.
  assert (H : touch_query !! "rserver" = Some "slave.example.org" /\
              touch_query !! "rport" = Some "8000" /\ 0 < atoi "8000" /\
              touch_query !! "interval" = Some "30" /\ 5 <= atoi "30" /\
              ~ listed "slave.example.org" (atoi "8000") (redirectors configured_peer) /\
              to_uint (redirect_count configured_peer) < to_uint 2).
  { split; [reflexivity|]. split; [reflexivity|]. split; [reflexivity|].
    split; [reflexivity|]. split; [vm_compute; discriminate|].
    split; [|reflexivity].
    intros (h & [<-|[]] & Hs & _). discriminate. }
  split; [exact H|].
  destruct H as (H1 & H2 & H3 & H4 & H5 & H6 & H7).
  destruct (redirector_update_guarded 100 2 touch_query configured_peer) as (_ & Hadd & _).
  destruct (Hadd _ _ _ H1 H2 H3 H4 H5) as [Hnew _].
  exact (proj1 (Hnew H6) H7).
Defined.

(** rport is read into an [int]: a value beyond its range comes out as its low
    32 bits, here 8000, and the request touches the peer listed with that
    port. *)
Example redirector_update_port_wraps :
  let query : vars :=
    <["rserver" := "peer.example.org"]>
      (<["rport" := "4294975296"]> (<["interval" := "30"]> ∅)) in
  atoi "4294975296" = 8000 /\
  redirector_update 200 2 query configured_peer
  = mk_redirects [mk_redirect "peer.example.org" 8000 230] 1.
Proof. vm_compute. split; reflexivity. Qed.

(** *** Starting relays *)

(** relay_startup adds one to the counter when it spawns the thread, and
    leaves it alone otherwise; it spawns only while the counter is at most 3. *)
Lemma relay_startup_counter (time_ms : Z) (d : demand) (g : globals) (c : relay_client) :
  let r := relay_startup time_ms d g c in
  (snd r = Spawned ->
   relays_connecting g <= 3 /\
   relays_connecting (fst (fst r)) = relays_connecting g + 1) /\
  (snd r <> Spawned -> relays_connecting (fst (fst r)) = relays_connecting g).
Proof.
  cbv zeta. unfold relay_startup.
  repeat match goal with
         | |- context [match ?x with _ => _ end] =>
             lazymatch x with
             | 3 <? relays_connecting g => fail
             | _ => destruct x
             end
         end;
    try (simpl; split; [discriminate|reflexivity]);
    destruct (3 <? relays_connecting g) eqn:E; simpl;
      (split; [try discriminate|try reflexivity; try congruence]);
      try (intros _; apply Z.ltb_ge in E; split; [lia|reflexivity]).
Qed.

(** The counter is the number of relay-open threads that are running. *)
Definition counted (s : starting) : Prop :=
  relays_connecting (glob s) = blen (opening s) /\
  0 <= relays_connecting (glob s) <= 4.

Lemma happen_counted (s : starting) (h : happening) : counted s -> counted (happen s h).
Proof.
  intros [Hc Hr]. destruct h as [time_ms d c|n now]; simpl.
  - pose proof (relay_startup_counter time_ms d (glob s) c) as H. cbv zeta in H.
    destruct (relay_startup time_ms d (glob s) c) as [[g c'] r]. simpl in H.
    destruct H as [Hsp Hno].
    destruct r; unfold counted; simpl.
    + rewrite Hno by discriminate. auto.
    + rewrite Hno by discriminate. auto.
    + destruct (Hsp eq_refl) as [Hle ->]. rewrite blen_cons. lia.
  - destruct (opening s !! n) as [c|] eqn:En; [|split; assumption].
    unfold counted. simpl.
    assert (Hlen : (n < length (opening s))%nat) by (apply lookup_lt_is_Some; eauto).
    assert (Hdel : blen (delete n (opening s)) = blen (opening s) - 1).
    { unfold blen. rewrite length_delete by eauto. lia. }
    rewrite Hdel. unfold blen in *. lia.
Qed.

(** C3 (as amended).  In every state the relays can reach from
    slave_initialize, whatever the workers and the relay-open threads do in
    whatever order, relays_connecting is the number of relays between the
    spawning of their relay-open task and the end of start_relay_stream, and
    it never exceeds 4: relay_startup holds a relay back only when the counter
    is above 3, so a fourth task is started while three are running, and none
    while four are. *)
Theorem relays_connecting_bounded (hs : list happening) :
  let s := fold_left happen hs slave_initialize in
  relays_connecting (glob s) = blen (opening s) /\
  0 <= relays_connecting (glob s) <= 4 /\
  (forall time_ms d c,
      relays_connecting (glob s) = 4 ->
      snd (relay_startup time_ms d (glob s) c) <> Spawned /\
      relays_connecting (fst (fst (relay_startup time_ms d (glob s) c))) = 4).
Proof.
  cbv zeta.
  assert (H : counted (fold_left happen hs slave_initialize)).
  { assert (H0 : counted slave_initialize) by (split; [reflexivity|simpl; lia]).
    revert H0. generalize slave_initialize.
    induction hs as [|h hs IH]; intros s Hs; simpl; [exact Hs|].
    apply IH. apply happen_counted. exact Hs. }
  destruct H as [Hc Hr]. split; [exact Hc|]. split; [exact Hr|].
  intros time_ms d c H4.
  pose proof (relay_startup_counter time_ms d (glob (fold_left happen hs slave_initialize)) c)
    as H. cbv zeta in H. destruct H as [Hsp Hno].
  assert (Hns : snd (relay_startup time_ms d (glob (fold_left happen hs slave_initialize)) c)
                <> Spawned).
  { intros E. destruct (Hsp E) as [Hle _]. lia. }
  split; [exact Hns|]. rewrite (Hno Hns). exact H4.
Qed.

(** A relay that is configured to run, with its source reserved. *)
Definition running_relay (mount : string) : relay_client :=
  mk_relay_client
    (mk_relay mount [mk_master "master.example.org" 8000 mount None 4 false]
              None None 1 0 120 1 0 (Some (mk_source_ref 1 true)) None None)
    relay_startup_ops 0 true.

(** C3, the claim as stated fails: when four relays come up for a start one
    after the other, the fourth is started too and the counter stands at 4. *)
Lemma four_relays_connecting :
  let s := fold_left happen
             [Visit 0 (mk_demand 0 None) (running_relay "/a");
              Visit 0 (mk_demand 0 None) (running_relay "/b");
              Visit 0 (mk_demand 0 None) (running_relay "/c");
              Visit 0 (mk_demand 0 None) (running_relay "/d")]
             slave_initialize in
  relays_connecting (glob s) = 4 /\ length (opening s) = 4%nat /\
  3 < relays_connecting (glob s).
Proof. vm_compute. repeat split; reflexivity. Qed.

Definition four_visits : list happening :=
  [Visit 0 (mk_demand 0 None) (running_relay "/a");
   Visit 0 (mk_demand 0 None) (running_relay "/b");
   Visit 0 (mk_demand 0 None) (running_relay "/c");
   Visit 0 (mk_demand 0 None) (running_relay "/d")].

(** With four relays being opened a fifth is held back for 200 ms. *)
Lemma relays_connecting_bounded_witness :
  let s := fold_left happen four_visits slave_initialize in
  let r := relay_startup 1000 (mk_demand 0 None) (glob s) (running_relay "/e") in
  relays_connecting (glob s) = 4 /\
  snd r <> Spawned /\
  relays_connecting (fst (fst r)) = 4 /\
  schedule_ms (snd (fst r)) = 1200.
Proof.
  cbv zeta.
  destruct (relays_connecting_bounded four_visits) as (_ & _ & Hheld).
  cbv zeta in Hheld.
  assert (H4 : relays_connecting (glob (fold_left happen four_visits slave_initialize)) = 4)
    by reflexivity.
  destruct (Hheld 1000 (mk_demand 0 None) (running_relay "/e") H4) as [Hns Hsame].
  split; [exact H4|]. split; [exact Hns|]. split; [exact Hsame|]. reflexivity.
Defined.

(** *** The relay diff *)

(** Two masters agree in what relay_has_changed compares. *)
Definition same_master (newmaster oldmaster : relay_server_master) : Prop :=
  m_mount newmaster = m_mount oldmaster /\
  m_ip newmaster = m_ip oldmaster /\
  m_port newmaster = m_port oldmaster.

(** A candidate relay agrees with a running one: the masters element-wise on
    mount, ip and port, and mp3metadata. *)
Definition same_details (new old : relay_server) : Prop :=
  Forall2 same_master (masters new) (masters old) /\
  mp3metadata new = mp3metadata old.

Lemma masters_differ_false (olds news : list relay_server_master) :
  masters_differ olds news = false <-> Forall2 same_master news olds.
Proof.
  revert news. induction olds as [|o olds IH]; intros [|n news]; simpl.
  - split; [constructor|reflexivity].
  - split; [discriminate|]. intros H. inversion H.
  - split; [discriminate|]. intros H. inversion H.
  - destruct (String.eqb (m_mount n) (m_mount o)) eqn:Em; simpl.
    + destruct (String.eqb (m_ip n) (m_ip o)) eqn:Ei; simpl.
      * destruct (m_port n =? m_port o) eqn:Ep; simpl.
        -- apply String.eqb_eq in Em, Ei. apply Z.eqb_eq in Ep.
           rewrite IH. split.
           ++ intros H. constructor; [split; auto|exact H].
           ++ intros H. inversion H. assumption.
        -- apply Z.eqb_neq in Ep. split; [discriminate|].
           intros H. inversion H as [|? ? ? ? [_ [_ Hp]] ?]. contradiction.
      * apply String.eqb_neq in Ei. split; [discriminate|].
        intros H. inversion H as [|? ? ? ? [_ [Hi _]] ?]. contradiction.
    + apply String.eqb_neq in Em. split; [discriminate|].
      intros H. inversion H as [|? ? ? ? [Hm _] ?]. contradiction.
Qed.

Lemma set_on_demand_same (r : relay_server) : set_on_demand (on_demand r) r = r.
Proof. destruct r. reflexivity. Qed.

(** relay_has_changed returns 0 exactly for relays that agree, and then
    carries the candidate's on_demand over to the existing relay. *)
Lemma relay_has_changed_spec (new old : relay_server) :
  (same_details new old ->
   relay_has_changed new old = (0, new, set_on_demand (on_demand new) old)) /\
  (~ same_details new old ->
   relay_has_changed new old = (1, set_source (source old) new, old)).
Proof.
  unfold relay_has_changed, same_details. split.
  - intros [Hm Hmeta]. apply masters_differ_false in Hm. rewrite Hm, Hmeta, Z.eqb_refl.
    simpl. destruct (on_demand new =? on_demand old) eqn:E; simpl; [|reflexivity].
    apply Z.eqb_eq in E. rewrite E, set_on_demand_same. reflexivity.
  - intros Hnot. destruct (masters_differ (masters old) (masters new)) eqn:Em;
      [reflexivity|].
    apply masters_differ_false in Em.
    destruct (mp3metadata new =? mp3metadata old) eqn:E; simpl; [|reflexivity].
    apply Z.eqb_eq in E. exfalso. apply Hnot. auto.
Qed.

Lemma classic_same_details (new old : relay_server) :
  same_details new old \/ ~ same_details new old.
Proof.
  unfold same_details.
  destruct (masters_differ (masters old) (masters new)) eqn:Em.
  - right. intros [H _]. apply masters_differ_false in H. congruence.
  - apply masters_differ_false in Em.
    destruct (Z.eq_dec (mp3metadata new) (mp3metadata old)) as [E|E]; [left|right]; tauto.
Qed.

(** A candidate and the running relay it stands for. *)
Definition stands_for (new old : relay_server) : Prop :=
  localmount new = localmount old /\ same_details new old.

(** A relay of /a from m1:8000 that runs, and the same relay in the new
    configuration, now on demand. *)
Definition relay_a (demand : Z) (src : option source_ref) : relay_server :=
  mk_relay "/a" [mk_master "m1" 8000 "/a" None 4 false] None None 1 demand 120 1 0
           src None None.

(** The fifth scenario of the specification: the port of the master changes,
    and the running relay is restarted with the new details. *)
Example relay_diff_port_change :
  let old := relay_a 0 (Some (mk_source_ref 7 true)) in
  let new := mk_relay "/a" [mk_master "m1" 8001 "/a" None 4 false] None None 1 0 120 1 0
                      None None None in
  update_relay_set true [old] [new] []
  = ([new], [], [new],
     [Restarting (set_new_details (Some new) old); Woken 7]).
Proof. vm_compute. reflexivity. Qed.

(** *** Opening the upstream connection *)

(** The target a 302 with Location [location] sends the relay to. *)
Definition next_target (location : string) : target :=
  redirect_target (String.substring 7 (String.length location - 7) location).

(** A master with its skip flag set. *)
Definition raised (m : relay_server_master) : relay_server_master :=
  mk_master (m_ip m) (m_port m) (m_mount m) (m_bind m) (m_timeout m) true.

Section OpenRelayFacts.

Variable upstream : nat -> target -> reply.

(** What the loop does, read off the connections it made: it makes at most
    [left] of them, the first to the target given; every connection but the
    last was answered by a 302 to an http:// Location, which the next one
    follows; the stream is accepted exactly when the last one is; and the
    NULL pointer is read exactly when the last one is answered by a 302
    without Location. *)
Lemma connect_loop_spec (left : nat) :
  forall n t,
    let e := fst (connect_loop upstream left n t) in
    let ts := snd (connect_loop upstream left n t) in
    (length ts <= left)%nat /\
    ((0 < left)%nat -> ts !! 0%nat = Some t) /\
    (forall j tj, ts !! j = Some tj -> (S j < length ts)%nat ->
                  exists location,
                    upstream (n + j) tj = Redirect (Some location) /\
                    String.prefix "http://" location = true /\
                    ts !! S j = Some (next_target location)) /\
    (e = Connected <->
     exists tl, ts !! (length ts - 1)%nat = Some tl /\
                upstream (n + (length ts - 1)) tl = Accepted) /\
    (e = NullRead <->
     exists tl, ts !! (length ts - 1)%nat = Some tl /\
                upstream (n + (length ts - 1)) tl = Redirect None).
Proof.
  induction left as [|left IH]; intros n t; cbv zeta; simpl.
  - split; [lia|]. split; [lia|]. split; [intros j tj H; discriminate|].
    split; (split; [discriminate|intros (tl & H & _); discriminate]).
  - assert (Hone : forall e0,
               (e0 = Connected <-> upstream n t = Accepted) ->
               (e0 = NullRead <-> upstream n t = Redirect None) ->
               (length [t] <= S left)%nat /\
               ((0 < S left)%nat -> [t] !! 0%nat = Some t) /\
               (forall j tj, [t] !! j = Some tj -> (S j < length [t])%nat ->
                   exists location,
                     upstream (n + j) tj = Redirect (Some location) /\
                     String.prefix "http://" location = true /\
                     [t] !! S j = Some (next_target location)) /\
               (e0 = Connected <->
                exists tl, [t] !! (length [t] - 1)%nat = Some tl /\
                           upstream (n + (length [t] - 1)) tl = Accepted) /\
               (e0 = NullRead <->
                exists tl, [t] !! (length [t] - 1)%nat = Some tl /\
                           upstream (n + (length [t] - 1)) tl = Redirect None)).
    { intros e0 Hc Hn. simpl. rewrite Nat.add_0_r.
      split; [lia|]. split; [reflexivity|].
      split; [intros j tj _ H; lia|]. split.
      - rewrite Hc. split; [intros H; exists t; auto|].
        intros (tl & H & Htl). inversion H. subst tl. exact Htl.
      - rewrite Hn. split; [intros H; exists t; auto|].
        intros (tl & H & Htl). inversion H. subst tl. exact Htl. }
    destruct (upstream n t) as [| |[location|]|message|] eqn:Er.
    + apply (Hone GaveUp); split; discriminate.
    + apply (Hone GaveUp); split; discriminate.
    + destruct (String.prefix "http://" location) eqn:Ep; simpl negb; cbv iota.
      * specialize (IH (S n) (next_target location)). cbv zeta in IH.
        fold (next_target location).
        destruct (connect_loop upstream left (S n) (next_target location)) as [e ts].
        simpl in *. destruct IH as (Hlen & Hhead & Hchain & Hok & Hnull).
        split; [lia|]. split; [reflexivity|]. split; [|].
        -- intros j tj Hj Hlt. destruct j as [|j]; simpl in Hj.
           ++ inversion Hj. subst tj. exists location. rewrite Nat.add_0_r.
              split; [exact Er|]. split; [exact Ep|]. simpl.
              apply Hhead. lia.
           ++ destruct (Hchain j tj Hj ltac:(lia)) as (l & H1 & H2 & H3).
              exists l. replace (n + S j)%nat with (S n + j)%nat by lia. auto.
        -- rewrite Hok, Hnull. destruct ts as [|t1 ts].
           ++ simpl. rewrite Nat.add_0_r. split; split;
                try (intros (tl & H & _); discriminate);
                intros (tl & H & Htl); inversion H; subst tl; congruence.
           ++ assert (E1 : (length (t1 :: ts) - 1 = length ts)%nat) by (simpl; lia).
              assert (E2 : (length (t1 :: ts) - 0 = S (length ts))%nat) by (simpl; lia).
              assert (E3 : (n + S (length ts) = S (n + length ts))%nat) by lia.
              rewrite E1, E2, E3. split; reflexivity.
      * apply (Hone GaveUp); split; discriminate.
    + apply (Hone NullRead); split; [discriminate|discriminate|auto|auto].
    + apply (Hone GaveUp); split; discriminate.
    + apply (Hone Connected); split; [auto|auto|discriminate|discriminate].
Qed.

(** A master that answers every connection with a 302 to an http:// Location
    is given up after [left] connections. *)
Lemma connect_loop_redirected (left : nat) :
  (forall n t, exists location,
        upstream n t = Redirect (Some location) /\
        String.prefix "http://" location = true) ->
  forall n t, fst (connect_loop upstream left n t) = GaveUp /\
              length (snd (connect_loop upstream left n t)) = left.
Proof.
  intros Hloop. induction left as [|left IH]; intros n t; simpl; [auto|].
  destruct (Hloop n t) as (location & -> & ->). simpl.
  specialize (IH (S n) (redirect_target
                          (String.substring 7 (String.length location - 7) location))).
  destruct (connect_loop upstream left _ _) as [e ts]. simpl in *.
  destruct IH as [-> ->]. auto.
Qed.

(** While no 302 comes without its Location, the NULL pointer is not read. *)
Lemma connect_loop_returns (left : nat) :
  (forall n t, upstream n t <> Redirect None) ->
  forall n t, fst (connect_loop upstream left n t) <> NullRead.
Proof.
  intros Hsafe. induction left as [|left IH]; intros n t; simpl; [discriminate|].
  pose proof (Hsafe n t) as Hnt.
  destruct (upstream n t) as [| |[location|]|message|]; try discriminate;
    [|congruence].
  destruct (negb (String.prefix "http://" location)); [discriminate|].
  specialize (IH (S n) (redirect_target
                          (String.substring 7 (String.length location - 7) location))).
  destruct (connect_loop upstream left _ _) as [e ts]. exact IH.
Qed.

(** X20.  open_relay_connection makes at most 10 connections, the first to
    the master it is called for, and so follows at most 9 of at most 10
    redirects: every connection but the last was answered by a 302 with an
    http:// Location, which the next connection follows.  When the last
    connection is accepted it returns 0 with the master in use and the
    masters untouched.  When the last connection is answered by a 302
    without a Location header the code reads through a NULL pointer and does
    not return.  In every other case, in particular when the tenth connection
    is redirected again or a Location does not begin with http://, it returns
    -1 with the master in use and its skip flag set, the master otherwise as
    it was and the other masters untouched.  Under a master that redirects
    forever to http:// Locations it makes exactly 10 connections and returns
    -1. *)
Theorem open_relay_connection_redirect_limit
        (relay : relay_server) (i : nat) (master : relay_server_master) :
  masters relay !! i = Some master ->
  let t0 := mk_target (m_ip master) (m_port master) (m_mount master) in
  let e := fst (connect_loop upstream 10 0 t0) in
  let ts := snd (connect_loop upstream 10 0 t0) in
  let r := open_relay_connection upstream relay i master in
  (1 <= length ts <= 10)%nat /\
  ts !! 0%nat = Some t0 /\
  (forall j tj, ts !! j = Some tj -> (S j < length ts)%nat ->
                exists location,
                  upstream j tj = Redirect (Some location) /\
                  String.prefix "http://" location = true /\
                  ts !! S j = Some (next_target location)) /\
  ((exists tl, ts !! (length ts - 1)%nat = Some tl /\
               upstream (length ts - 1) tl = Accepted) ->
   exists relay', r = Some (0, relay', ts) /\
                  in_use relay' = Some i /\ masters relay' = masters relay) /\
  ((exists tl, ts !! (length ts - 1)%nat = Some tl /\
               upstream (length ts - 1) tl = Redirect None) ->
   r = None) /\
  ((forall tl, ts !! (length ts - 1)%nat = Some tl ->
               upstream (length ts - 1) tl <> Accepted /\
               upstream (length ts - 1) tl <> Redirect None) ->
   exists relay', r = Some (-1, relay', ts) /\
                  in_use relay' = Some i /\
                  masters relay' !! i = Some (raised master) /\
                  forall k, k <> i -> masters relay' !! k = masters relay !! k) /\
  (forall j tj location,
      ts !! j = Some tj -> upstream j tj = Redirect (Some location) ->
      (String.prefix "http://" location = false \/ j = 9%nat) ->
      length ts = S j /\ exists relay', r = Some (-1, relay', ts)) /\
  ((forall n t, exists location,
         upstream n t = Redirect (Some location) /\
         String.prefix "http://" location = true) ->
   length ts = 10%nat /\ exists relay', r = Some (-1, relay', ts)).
Proof.
  intros Hmaster. cbv zeta. unfold open_relay_connection.
  set (t0 := mk_target (m_ip master) (m_port master) (m_mount master)).
  pose proof (connect_loop_spec 10 0 t0) as Hspec. cbv zeta in Hspec.
  pose proof (fun H => connect_loop_redirected 10 H 0%nat t0) as Hred.
  destruct (connect_loop upstream 10 0 t0) as [e ts]. simpl in Hspec, Hred.
  destruct Hspec as (Hlen & Hhead & Hchain & Hok & Hnull).
  specialize (Hhead ltac:(lia)).
  assert (Hlen1 : (1 <= length ts)%nat).
  { destruct ts; [discriminate|simpl; lia]. }
  assert (Hilt : (i < length (masters relay))%nat) by (apply lookup_lt_is_Some; eauto).
  cbn [fst snd].
  assert (Hgave :
            exists relay',
              Some (-1, set_masters (<[i:=set_skip true master]>
                                       (masters (set_in_use (Some i) relay)))
                                    (set_in_use (Some i) relay), ts)
              = Some (-1, relay', ts) /\
              in_use relay' = Some i /\
              masters relay' !! i = Some (raised master) /\
              forall k, k <> i -> masters relay' !! k = masters relay !! k).
  { eexists. split; [reflexivity|]. split; [reflexivity|]. split.
    - cbn [masters set_masters set_in_use].
      rewrite list_lookup_insert_eq by exact Hilt. destruct master; reflexivity.
    - intros k Hk. cbn [masters set_masters set_in_use].
      apply list_lookup_insert_ne. congruence. }
  assert (Hlast : forall j tj location,
             ts !! j = Some tj -> upstream j tj = Redirect (Some location) ->
             String.prefix "http://" location = false \/ j = 9%nat ->
             e = GaveUp /\ length ts = S j).
  { intros j tj location Hj Hr Hwhy.
    assert (Hjlt : (j < length ts)%nat) by (apply lookup_lt_is_Some; eauto).
    assert (Hend : length ts = S j).
    { destruct (Nat.eq_dec (length ts) (S j)) as [E|E]; [exact E|exfalso].
      destruct (Hchain j tj Hj ltac:(lia)) as (l & H1 & H2 & H3).
      rewrite Hr in H1. inversion H1. subst l.
      destruct Hwhy as [Hp|H9]; [congruence|lia]. }
    split; [|exact Hend].
    destruct e; [exfalso|reflexivity|exfalso].
    - destruct (proj1 Hok eq_refl) as (tl & Htl & Hacc).
      rewrite Hend in Htl, Hacc. replace (S j - 1)%nat with j in * by lia.
      rewrite Hj in Htl. inversion Htl. subst tl. congruence.
    - destruct (proj1 Hnull eq_refl) as (tl & Htl & Hacc).
      rewrite Hend in Htl, Hacc. replace (S j - 1)%nat with j in * by lia.
      rewrite Hj in Htl. inversion Htl. subst tl. congruence. }
  split; [lia|]. split; [exact Hhead|]. split; [exact Hchain|].
  split; [|split; [|split; [|split]]].
  - intros Hacc. apply Hok in Hacc. subst e.
    eexists. split; [reflexivity|]. split; reflexivity.
  - intros Hnl. apply Hnull in Hnl. subst e. reflexivity.
  - intros Hother.
    assert (He : e = GaveUp).
    { destruct e; [exfalso|reflexivity|exfalso].
      - destruct (proj1 Hok eq_refl) as (tl & Htl & Hacc).
        destruct (Hother tl Htl) as [H _]. contradiction.
      - destruct (proj1 Hnull eq_refl) as (tl & Htl & Hacc).
        destruct (Hother tl Htl) as [_ H]. contradiction. }
    subst e. exact Hgave.
  - intros j tj location Hj Hr Hwhy.
    destruct (Hlast j tj location Hj Hr Hwhy) as [He Hl]. split; [exact Hl|].
    subst e. destruct Hgave as (relay' & E & _). eauto.
  - intros H. destruct (Hred H) as [He Hl]. split; [exact Hl|].
    subst e. destruct Hgave as (relay' & E & _). eauto.
Qed.

End OpenRelayFacts.

(** The fourth scenario of the specification: two hosts that redirect to each
    other. *)
Definition redirect_loop (n : nat) (t : target) : reply :=
  if String.eqb (t_server t) "m1" then Redirect (Some "http://m2:8000/live")
  else Redirect (Some "http://m1:8000/live").

Definition looping_relay : relay_server :=
  mk_relay "/live" [mk_master "m1" 8000 "/live" None 4 false] None None 1 0 120 1 0
           (Some (mk_source_ref 1 true)) None None.

Lemma open_relay_connection_redirect_limit_witness :
  let master := mk_master "m1" 8000 "/live" None 4 false in
  (masters looping_relay !! 0%nat = Some master /\
   forall n t, exists location,
       redirect_loop n t = Redirect (Some location) /\
       String.prefix "http://" location = true) /\
  length (snd (connect_loop redirect_loop 10 0 (mk_target "m1" 8000 "/live"))) = 10%nat /\
  exists relay',
    open_relay_connection redirect_loop looping_relay 0 master
    = Some (-1, relay',
            snd (connect_loop redirect_loop 10 0 (mk_target "m1" 8000 "/live"))).
Proof.
  cbv zeta.
  assert (Hloop : forall n t, exists location,
             redirect_loop n t = Redirect (Some location) /\
             String.prefix "http://" location = true).
  { intros n t. unfold redirect_loop. destruct (String.eqb (t_server t) "m1");
      eexists; split; reflexivity. }
  split; [split; [reflexivity|exact Hloop]|].
  destruct (open_relay_connection_redirect_limit redirect_loop looping_relay 0
              (mk_master "m1" 8000 "/live" None 4 false) eq_refl)
    as (_ & _ & _ & _ & _ & _ & _ & Hforever).
  exact (Hforever Hloop).
Defined.

(** The third scenario: the master redirects to a peer, which accepts. *)
Example redirect_followed :
  let upstream (n : nat) (t : target) :=
    if String.eqb (t_server t) "master" then Redirect (Some "http://peer:9000/live")
    else Accepted in
  let relay := mk_relay "/live" [mk_master "master" 8000 "/live" None 4 false]
                        None None 1 0 120 1 0 (Some (mk_source_ref 1 true)) None None in
  open_relay_connection upstream relay 0 (mk_master "master" 8000 "/live" None 4 false)
  = Some (0, set_in_use (Some 0%nat) relay,
          [mk_target "master" 8000 "/live"; mk_target "peer" 9000 "/live"]).
Proof. vm_compute. reflexivity. Qed.

(** C5: a master that answers the relay's request with a 302 that has no
    Location header.  [httpp_getvar (parser, "location")] is NULL, the code
    passes it to [strncmp], and the failure path that returns -1 and sets the
    skip flag is never reached. *)
Lemma redirect_without_location :
  let master := mk_master "m1" 8000 "/live" None 4 false in
  let upstream (n : nat) (t : target) := Redirect None in
  connect_loop upstream 10 0 (mk_target "m1" 8000 "/live")
  = (NullRead, [mk_target "m1" 8000 "/live"]) /\
  open_relay_connection upstream looping_relay 0 master = None.
Proof. split; reflexivity. Qed.

(** *** The redirect list as a whole *)

(** [global.redirect_count] is the length of the list. *)
Definition counted_hosts (g : redirect_state) : Prop :=
  redirect_count g = blen (redirectors g).

Lemma redirector_add_counted (now : Z) (srv : string) (prt i : Z) (g : redirect_state) :
  counted_hosts g -> counted_hosts (redirector_add now srv prt i g).
Proof. unfold counted_hosts. simpl. rewrite blen_cons. lia. Qed.

Lemma blen_insert {A} (i : nat) (x : A) (l : list A) : blen (<[i := x]> l) = blen l.
Proof. unfold blen. rewrite length_insert. reflexivity. Qed.

Lemma redirect_call_run_counted (g : redirect_state) (call : Z * redirect_call) :
  counted_hosts g -> counted_hosts (redirect_call_run g call).
Proof.
  intros Hg. destruct call as [now [config|config|config query|which mp c|]];
    unfold redirect_call_run; simpl fst; simpl snd; cbv iota beta.
  - unfold redirector_setup. revert g Hg.
    induction (redirect_hosts config) as [|redir l IH]; intros g Hg; simpl; [exact Hg|].
    apply IH. apply redirector_add_counted. exact Hg.
  - unfold update_master_as_slave.
    destruct (master_server config) as [srv|]; [|exact Hg].
    destruct ((master_redirect config =? 0) || (max_redirects config =? 0)); [exact Hg|].
    destruct (find_slave_host srv (master_server_port config) (redirectors g))
      as [[i redirect]|].
    + unfold counted_hosts in *. simpl. rewrite blen_insert. exact Hg.
    + apply redirector_add_counted. exact Hg.
  - unfold redirector_update.
    destruct (query !! "rserver") as [rserver|]; [|exact Hg].
    destruct (query !! "rport") as [rp|]; [|exact Hg].
    destruct (atoi rp <=? 0); [exact Hg|].
    destruct (query !! "interval") as [iv|]; [|exact Hg].
    destruct (atoi iv <? 5); [exact Hg|].
    destruct (find_slave_host rserver (atoi rp) (redirectors g)) as [[i redirect]|].
    + unfold counted_hosts in *. simpl. rewrite blen_insert. exact Hg.
    + destruct (to_uint (redirect_count g) <? to_uint (max_redirects config));
        [apply redirector_add_counted|]; exact Hg.
  - unfold redirect_client. destruct (redirect_count g =? 0); [exact Hg|].
    pose proof (redirect_walk_spec now mp c (redirectors g) which) as H.
    cbv zeta in H.
    destruct (redirect_walk now which mp c (redirectors g)) as [[kept dropped] sent].
    simpl in *. destruct H as (_ & Hd & _). unfold counted_hosts in *. simpl. lia.
  - reflexivity.
Qed.

(** X1.  Every function of slave.c that writes the list of redirectors keeps
    global.redirect_count equal to the length of the list: after any sequence
    of calls of redirector_setup, update_master_as_slave, redirector_update,
    redirect_client and redirector_clearall, made at any times with any
    arguments, the counter is the number of hosts listed, and so it is never
    negative and it is 0 exactly when the list is empty. *)
Theorem redirect_count_is_length (calls : list (Z * redirect_call)) (g : redirect_state) :
  redirect_count g = blen (redirectors g) ->
  let g' := fold_left redirect_call_run calls g in
  redirect_count g' = blen (redirectors g') /\
  0 <= redirect_count g' /\
  (redirect_count g' = 0 <-> redirectors g' = []).
Proof.
  intros Hg. cbv zeta.
  assert (H : counted_hosts (fold_left redirect_call_run calls g)).
  { revert g Hg. induction calls as [|call calls IH]; intros g Hg; simpl; [exact Hg|].
    apply IH. apply redirect_call_run_counted. exact Hg. }
  unfold counted_hosts in H. split; [exact H|]. rewrite H.
  split; [apply FormatMp3Facts.blen_nonneg|]. split.
  - apply FormatMp3Facts.blen_nil_inv.
  - intros ->. reflexivity.
Qed.

Definition peer_config : ice_config :=
  mk_config [("a.example.org", 8000); ("b.example.org", 8000)]
            (Some "master.example.org") 8001 1 2 120.

Definition peer_query : vars :=
  <["rserver" := "c.example.org"]> (<["rport" := "8000"]> (<["interval" := "30"]> ∅)).

Definition redirect_day : list (Z * redirect_call) :=
  [(100, Setup peer_config); (100, MasterAsSlave peer_config);
   (130, Update peer_config peer_query); (220, MasterAsSlave peer_config);
   (400, Lookup 2 "/live" anonymous)].

Lemma redirect_count_is_length_witness :
  let g' := fold_left redirect_call_run redirect_day (mk_redirects [] 0) in
  redirect_count g' = blen (redirectors g') /\ redirect_count g' = 2.
Proof.
  cbv zeta. split.
  - apply (redirect_count_is_length redirect_day (mk_redirects [] 0)). reflexivity.
  - vm_compute. reflexivity.
Defined.

(** The server and port an entry stands for. *)
Definition host_key (h : redirect_host) : string * Z := (server h, port h).

Definition distinct_hosts (g : redirect_state) : Prop :=
  NoDup (map host_key (redirectors g)).

(** The calls that look a host up before they add it. *)
Definition looks_first (call : Z * redirect_call) : Prop :=
  match snd call with
  | Setup _ => False
  | _ => True
  end.

Lemma not_listed_key (srv : string) (prt : Z) (hosts : list redirect_host) :
  ~ listed srv prt hosts -> (srv, prt) ∉ map host_key hosts.
Proof.
  intros Hn Hin. apply list_elem_of_In, in_map_iff in Hin. destruct Hin as (h & Hk & Hin).
  apply Hn. exists h. unfold host_key in Hk. inversion Hk. auto.
Qed.

Lemma touch_keeps_keys (hosts : list redirect_host) (i : nat) (h : redirect_host) (t : Z) :
  hosts !! i = Some h ->
  map host_key (<[i := mk_redirect (server h) (port h) t]> hosts) = map host_key hosts.
Proof.
  revert i. induction hosts as [|h0 hosts IH]; intros [|i] Hi; simpl in *;
    try discriminate.
  - inversion Hi. subst. reflexivity.
  - f_equal. apply IH. exact Hi.
Qed.

Lemma filter_keeps_distinct (P : redirect_host -> bool) (hosts : list redirect_host) :
  NoDup (map host_key hosts) -> NoDup (map host_key (List.filter P hosts)).
Proof.
  induction hosts as [|h hosts IH]; simpl; intros Hnd; [constructor|].
  inversion Hnd as [|? ? Hnotin Hnd']. subst.
  destruct (P h); simpl; [|auto]. constructor; [|auto].
  intros Hin. apply Hnotin. apply list_elem_of_In, in_map_iff in Hin.
  destruct Hin as (h' & Hk & Hin).
  apply list_elem_of_In, in_map_iff. exists h'. split; [exact Hk|].
  apply filter_In in Hin. tauto.
Qed.

Lemma redirect_call_run_distinct (g : redirect_state) (call : Z * redirect_call) :
  looks_first call -> distinct_hosts g -> distinct_hosts (redirect_call_run g call).
Proof.
  intros Hcall Hg. destruct call as [now [config|config|config query|which mp c|]];
    unfold redirect_call_run; simpl fst; simpl snd; cbv iota beta.
  - destruct Hcall.
  - unfold update_master_as_slave.
    destruct (master_server config) as [srv|]; [|exact Hg].
    destruct ((master_redirect config =? 0) || (max_redirects config =? 0)); [exact Hg|].
    destruct (find_slave_host srv (master_server_port config) (redirectors g))
      as [[i redirect]|] eqn:Ef.
    + apply find_slave_host_Some in Ef. destruct Ef as (Hi & _).
      unfold distinct_hosts in *. simpl. rewrite (touch_keeps_keys _ _ _ _ Hi). exact Hg.
    + apply find_slave_host_None in Ef. unfold distinct_hosts in *. simpl.
      constructor; [apply not_listed_key; exact Ef|exact Hg].
  - unfold redirector_update.
    destruct (query !! "rserver") as [rserver|]; [|exact Hg].
    destruct (query !! "rport") as [rp|]; [|exact Hg].
    destruct (atoi rp <=? 0); [exact Hg|].
    destruct (query !! "interval") as [iv|]; [|exact Hg].
    destruct (atoi iv <? 5); [exact Hg|].
    destruct (find_slave_host rserver (atoi rp) (redirectors g)) as [[i redirect]|] eqn:Ef.
    + apply find_slave_host_Some in Ef. destruct Ef as (Hi & _).
      unfold distinct_hosts in *. simpl. rewrite (touch_keeps_keys _ _ _ _ Hi). exact Hg.
    + apply find_slave_host_None in Ef.
      destruct (to_uint (redirect_count g) <? to_uint (max_redirects config)); [|exact Hg].
      unfold distinct_hosts in *. simpl.
      constructor; [apply not_listed_key; exact Ef|exact Hg].
  - unfold redirect_client. destruct (redirect_count g =? 0); [exact Hg|].
    pose proof (redirect_walk_spec now mp c (redirectors g) which) as H.
    cbv zeta in H.
    destruct (redirect_walk now which mp c (redirectors g)) as [[kept dropped] sent].
    simpl in *. destruct H as (Hk & _). unfold distinct_hosts in *. simpl.
    rewrite Hk. apply filter_keeps_distinct. exact Hg.
  - constructor.
Qed.

(** X2.  redirector_update and update_master_as_slave look a host up with
    find_slave_host before they add it, and redirect_client and
    redirector_clearall only remove entries: a list of redirectors on which no
    server and port is listed twice stays so under any sequence of these
    calls.  On such a list the entry find_slave_host returns is the only one
    for its server and port. *)
Theorem redirect_hosts_stay_distinct
        (calls : list (Z * redirect_call)) (g : redirect_state) :
  NoDup (map host_key (redirectors g)) ->
  Forall looks_first calls ->
  let g' := fold_left redirect_call_run calls g in
  NoDup (map host_key (redirectors g')) /\
  (forall srv prt i h j h',
      find_slave_host srv prt (redirectors g') = Some (i, h) ->
      redirectors g' !! j = Some h' -> server h' = srv -> port h' = prt ->
      j = i).
Proof.
  intros Hg Hcalls. cbv zeta.
  assert (H : distinct_hosts (fold_left redirect_call_run calls g)).
  { revert g Hg. induction Hcalls as [|call calls Hcall Hcalls IH]; intros g Hg; simpl;
      [exact Hg|].
    apply IH. apply redirect_call_run_distinct; assumption. }
  split; [exact H|].
  intros srv prt i h j h' Ef Hj Hs Hp.
  apply find_slave_host_Some in Ef. destruct Ef as (Hi & Hs' & Hp' & _).
  unfold distinct_hosts in H.
  apply (NoDup_lookup (map host_key (redirectors (fold_left redirect_call_run calls g)))
                      j i (srv, prt)); [exact H| |].
  - rewrite list_lookup_fmap, Hj. simpl. unfold host_key. congruence.
  - rewrite list_lookup_fmap, Hi. simpl. unfold host_key. congruence.
Qed.

Lemma redirect_hosts_stay_distinct_witness :
  let calls := [(100, MasterAsSlave peer_config); (130, Update peer_config peer_query);
                (140, Update peer_config peer_query); (220, MasterAsSlave peer_config)] in
  let g' := fold_left redirect_call_run calls (mk_redirects [] 0) in
  NoDup (map host_key (redirectors g')) /\ redirect_count g' = 2.
Proof.
  cbv zeta. split.
  - apply (redirect_hosts_stay_distinct
             [(100, MasterAsSlave peer_config); (130, Update peer_config peer_query);
              (140, Update peer_config peer_query); (220, MasterAsSlave peer_config)]
             (mk_redirects [] 0)).
    + constructor.
    + repeat constructor.
  - vm_compute. reflexivity.
Defined.

(** X3.  redirect_client sends the listener to the host at position
    [which - 1] of the list as it stands when the lookup begins, [which >= 1]
    being the random selection, provided that host is not expired; it then
    returns 1.  When that host is expired, or the selection lies beyond the
    list, no 302 is sent and 0 is returned, even if other hosts stay on the
    list. *)
Theorem redirect_client_selection
        (now which : Z) (mp : string) (c : listener_t) (g : redirect_state) :
  redirect_count g = blen (redirectors g) ->
  1 <= which ->
  let r := redirect_client now which mp c g in
  match redirectors g !! Z.to_nat (which - 1) with
  | Some h =>
      if expired now h then snd r = [] /\ snd (fst r) = 0
      else snd r = [(h, redirect_location mp c h)] /\ snd (fst r) = 1
  | None => snd r = [] /\ snd (fst r) = 0
  end.
Proof.
  intros Hcount Hwhich. cbv zeta.
  assert (Hwalk : forall hosts w, 1 <= w ->
             snd (redirect_walk now w mp c hosts)
             = match hosts !! Z.to_nat (w - 1) with
               | Some h => if expired now h then [] else [(h, redirect_location mp c h)]
               | None => []
               end).
  { induction hosts as [|h hosts IH]; intros w Hw; simpl; [reflexivity|].
    pose proof (redirect_walk_past now mp c hosts (w - 1)) as Hpast.
    specialize (IH (w - 1)).
    destruct (Z.eq_dec w 1) as [->|Hne].
    - simpl. specialize (Hpast ltac:(lia)).
      destruct (expired now h); simpl;
        destruct (redirect_walk now (1 - 1) mp c hosts) as [[kept dropped] sent];
        simpl in *; rewrite Hpast; reflexivity.
    - specialize (IH ltac:(lia)).
      replace (Z.to_nat (w - 1)) with (S (Z.to_nat (w - 1 - 1))) by lia. simpl.
      replace (0 <? w) with true by (symmetry; apply Z.ltb_lt; lia).
      replace (w - 1 =? 0) with false by (symmetry; apply Z.eqb_neq; lia).
      destruct (expired now h);
        destruct (redirect_walk now (w - 1) mp c hosts) as [[kept dropped] sent];
        simpl in *; exact IH. }
  unfold redirect_client. destruct (redirect_count g =? 0) eqn:E0.
  - apply Z.eqb_eq in E0. rewrite E0 in Hcount.
    rewrite (FormatMp3Facts.blen_nil_inv (redirectors g)) by lia. simpl. auto.
  - specialize (Hwalk (redirectors g) which Hwhich).
    destruct (redirect_walk now which mp c (redirectors g)) as [[kept dropped] sent].
    simpl in *. rewrite Hwalk.
    destruct (redirectors g !! Z.to_nat (which - 1)) as [h|]; [|auto].
    destruct (expired now h); auto.
Qed.

Lemma redirect_client_selection_witness :
  let r := redirect_client 100 2 "/live" anonymous two_peers in
  snd r = [(mk_redirect "new.example.org" 8001 95, "http://new.example.org:8001/live")] /\
  snd (fst r) = 1.
Proof.
  cbv zeta.
  exact (redirect_client_selection 100 2 "/live" anonymous two_peers eq_refl ltac:(lia)).
Defined.

(** *** The Location of a redirect *)

Definition is_digit (c : ascii) : bool :=
  let n := Z.of_nat (nat_of_ascii c) in (48 <=? n) && (n <=? 57).

Fixpoint all_digits (s : string) : bool :=
  match s with
  | EmptyString => true
  | String c s' => is_digit c && all_digits s'
  end.

(** Characters of a host name: anything but the two at which the relay cuts
    the Location. *)
Fixpoint host_chars (s : string) : bool :=
  match s with
  | EmptyString => true
  | String c s' => negb (Ascii.eqb c ":" || Ascii.eqb c "/") && host_chars s'
  end.

Definition digit_count (p : Z) : nat :=
  if p <? 10 then 1 else if p <? 100 then 2 else if p <? 1000 then 3
  else if p <? 10000 then 4 else 5.

(** What holds of the decimal form of a port number. *)
Definition port_decimal (p : Z) : bool :=
  all_digits (decimal_int p)
  && (digits 0 (decimal_int p) =? p)
  && Nat.eqb (String.length (decimal_int p)) (digit_count p).

Fixpoint all_below (n : nat) (p : Z) (f : Z -> bool) : bool :=
  match n with
  | O => true
  | S n' => f p && all_below n' (p + 1) f
  end.

Lemma all_below_spec (n : nat) (f : Z -> bool) :
  forall p, all_below n p f = true ->
            forall q, p <= q < p + Z.of_nat n -> f q = true.
Proof.
  induction n as [|n IH]; intros p H q Hq; [lia|].
  simpl in H. apply andb_true_iff in H. destruct H as [Hp Hrest].
  destruct (Z.eq_dec q p) as [->|Hne]; [exact Hp|].
  apply (IH (p + 1) Hrest). lia.
Qed.

Lemma port_decimal_ok (p : Z) : 0 <= p < 65536 -> port_decimal p = true.
Proof.
  intros Hp.
  assert (H : all_below (Z.to_nat 65536) 0 port_decimal = true) by (vm_compute; reflexivity).
  apply (all_below_spec _ _ _ H). lia.
Qed.

Lemma digits_app (d rest : string) :
  all_digits d = true ->
  forall acc, digits acc (d ++ rest) = digits (digits acc d) rest.
Proof.
  induction d as [|c d IH]; intros Hd acc; simpl; [reflexivity|].
  simpl in Hd. apply andb_true_iff in Hd. destruct Hd as [Hc Hd].
  unfold is_digit in Hc. cbv zeta in Hc. rewrite Hc. apply IH. exact Hd.
Qed.

Lemma atoi_digit (c : ascii) (s : string) :
  is_digit c = true -> atoi (String c s) = to_int (to_long (digits 0 (String c s))).
Proof.
  destruct c as [[] [] [] [] [] [] [] []]; intros H; vm_compute in H;
    try discriminate; reflexivity.
Qed.

Lemma to_int_small (z : Z) : - 2 ^ 31 <= z < 2 ^ 31 -> to_int z = z.
Proof. intros H. unfold to_int. rewrite Z.mod_small by lia. lia. Qed.

Lemma to_long_small (z : Z) : - 2 ^ 63 <= z < 2 ^ 63 -> to_long z = z.
Proof. intros H. unfold to_long. lia. Qed.

Lemma substring_0_ge (s : string) :
  forall n, (String.length s <= n)%nat -> String.substring 0 n s = s.
Proof.
  induction s as [|c s IH]; intros [|n] H; simpl in *; try reflexivity; try lia.
  rewrite IH by lia. reflexivity.
Qed.

Lemma host_length_app (s rest : string) :
  host_chars s = true -> host_length (s ++ String ":" rest) = String.length s.
Proof.
  induction s as [|c s IH]; simpl; intros H; [reflexivity|].
  apply andb_true_iff in H. destruct H as [Hc Hs].
  apply negb_true_iff in Hc. rewrite Hc. rewrite IH by exact Hs. reflexivity.
Qed.

Lemma get_app (s rest : string) :
  String.get (String.length s) (s ++ rest) = String.get 0 rest.
Proof. induction s as [|c s IH]; simpl; [reflexivity|exact IH]. Qed.

Lemma substring_app (s rest : string) :
  forall n, String.substring (String.length s) n (s ++ rest) = String.substring 0 n rest.
Proof. induction s as [|c s IH]; intros n; simpl; [reflexivity|apply IH]. Qed.

Lemma substring_0_app (s rest : string) :
  String.substring 0 (String.length s) (s ++ rest) = s.
Proof. induction s as [|c s IH]; simpl; [destruct rest; reflexivity|now rewrite IH]. Qed.

(** No slash in the string. *)
Fixpoint no_slash (s : string) : bool :=
  match s with
  | EmptyString => true
  | String c s' => negb (Ascii.eqb c "/") && no_slash s'
  end.

Lemma index_slash_cons (c : ascii) (s : string) :
  Ascii.eqb c "/" = false ->
  String.index 0 "/" (String c s)
  = match String.index 0 "/" s with Some n => Some (S n) | None => None end.
Proof.
  intros Hc.
  change (String.index 0 "/" (String c s))
    with (if (if ascii_dec "/" c then String.prefix "" s else false) then Some 0%nat
          else match String.index 0 "/" s with Some n => Some (S n) | None => None end).
  destruct (ascii_dec "/" c) as [E|E]; [|reflexivity].
  subst c. discriminate.
Qed.

Lemma index_slash (s rest : string) :
  no_slash s = true ->
  String.index 0 "/" (s ++ String "/" rest) = Some (String.length s).
Proof.
  induction s as [|c s IH]; intros H.
  - destruct rest; reflexivity.
  - simpl in H. apply andb_true_iff in H. destruct H as [Hc Hs].
    apply negb_true_iff in Hc.
    change (String c s ++ String "/" rest)%string with (String c (s ++ String "/" rest)%string).
    rewrite (index_slash_cons _ _ Hc), IH by exact Hs. reflexivity.
Qed.

Lemma no_slash_app (a b : string) :
  no_slash a = true -> no_slash b = true -> no_slash (a ++ b) = true.
Proof.
  induction a as [|c a IH]; simpl; intros Ha Hb; [exact Hb|].
  apply andb_true_iff in Ha. destruct Ha as [Hc Ha]. rewrite Hc. simpl. auto.
Qed.

Lemma host_chars_no_slash (s : string) : host_chars s = true -> no_slash s = true.
Proof.
  induction s as [|c s IH]; simpl; intros H; [reflexivity|].
  apply andb_true_iff in H. destruct H as [Hc Hs].
  apply negb_true_iff, orb_false_iff in Hc. destruct Hc as [_ Hc].
  rewrite Hc. simpl. auto.
Qed.

Lemma all_digits_no_slash (s : string) : all_digits s = true -> no_slash s = true.
Proof.
  induction s as [|c s IH]; simpl; intros H; [reflexivity|].
  apply andb_true_iff in H. destruct H as [Hc Hs]. rewrite (IH Hs), andb_true_r.
  destruct (Ascii.eqb c "/") eqn:E; [|reflexivity].
  apply Ascii.eqb_eq in E. subst c. discriminate.
Qed.

Lemma string_app_assoc (a b c : string) : ((a ++ b) ++ c = a ++ (b ++ c))%string.
Proof.
  induction a as [|x a IH]; [reflexivity|].
  change (String x ((a ++ b) ++ c) = String x (a ++ (b ++ c)))%string.
  f_equal. exact IH.
Qed.

Lemma substring_app_S (s rest : string) (c : ascii) :
  forall n, String.substring (S (String.length s)) n (s ++ String c rest)
            = String.substring 0 n rest.
Proof. induction s as [|x s IH]; intros n; simpl; [reflexivity|apply IH]. Qed.

Lemma prefix_app (a b : string) : String.prefix a (a ++ b) = true.
Proof.
  induction a as [|x a IH]; [destruct b; reflexivity|].
  change (String.prefix (String x a) (String x a ++ b))
    with (if ascii_dec x x then String.prefix a (a ++ b) else false).
  destruct (ascii_dec x x) as [_|E]; [exact IH|contradiction].
Qed.

(** The Location for a listener without credentials is the whole URL. *)
Lemma redirect_location_plain (mp : string) (c : listener_t) (h : redirect_host) :
  username c = None \/ password c = None ->
  0 <= port h < 65536 ->
  redirect_location mp c h
  = ("http://" ++ server h ++ ":" ++ decimal_int (port h) ++ mp
     ++ match queryargs c with Some a => a | None => "" end)%string.
Proof.
  intros Hanon Hp. pose proof (port_decimal_ok (port h) Hp) as Hd.
  unfold port_decimal in Hd. apply andb_true_iff in Hd. destruct Hd as [_ Hlen].
  apply Nat.eqb_eq in Hlen.
  assert (Hle : (String.length (decimal_int (port h)) <= 5)%nat).
  { rewrite Hlen. unfold digit_count. repeat destruct (_ <? _); lia. }
  unfold redirect_location.
  assert (E : (let '(user, colon, pass, at_sign, len) :=
                 match username c, password c with
                 | Some u, Some p =>
                     (u, ":", p, "@",
                      (String.length mp + String.length (server h) + 15
                       + String.length match queryargs c with Some a => a | None => "" end
                       + String.length u + String.length p)%nat)
                 | _, _ =>
                     ("", "", "", "",
                      (String.length mp + String.length (server h) + 15
                       + String.length match queryargs c with Some a => a | None => "" end)%nat)
                 end in
               String.substring 0 (len - 1)
                 ("http://" ++ user ++ colon ++ pass ++ at_sign ++ server h ++ ":"
                  ++ decimal_int (port h) ++ mp
                  ++ match queryargs c with Some a => a | None => "" end))%string
              = String.substring 0
                  (String.length mp + String.length (server h) + 15
                   + String.length match queryargs c with Some a => a | None => "" end - 1)
                  ("http://" ++ server h ++ ":" ++ decimal_int (port h) ++ mp
                   ++ match queryargs c with Some a => a | None => "" end)%string).
  { destruct Hanon as [E|E]; rewrite E; [|destruct (username c)]; reflexivity. }
  rewrite E. apply substring_0_ge.
  rewrite !FormatMp3Facts.length_append. cbn [String.length]. lia.
Qed.

(** X4.  The Location redirect_client writes is the whole URL
    http://server:port/mount?args for a listener without credentials and a
    port below 65536.  For a listener with a user name and a password the
    buffer is sized two characters short (the ':' and the '@' are not
    counted): the URL with the credentials is whole only for ports below
    10000, and for a port of five digits its last character is cut off. *)
Theorem redirect_location_complete (mp : string) (c : listener_t) (h : redirect_host) :
  0 <= port h < 65536 ->
  let args := match queryargs c with Some a => a | None => "" end in
  match username c, password c with
  | Some u, Some pw =>
      let full := ("http://" ++ u ++ ":" ++ pw ++ "@" ++ server h ++ ":"
                   ++ decimal_int (port h) ++ mp ++ args)%string in
      redirect_location mp c h
      = if port h <? 10000 then full
        else String.substring 0 (String.length full - 1) full
  | _, _ =>
      redirect_location mp c h
      = ("http://" ++ server h ++ ":" ++ decimal_int (port h) ++ mp ++ args)%string
  end.
Proof.
  intros Hp. cbv zeta.
  destruct (username c) as [u|] eqn:Eu;
    [destruct (password c) as [pw|] eqn:Epw|].
  - pose proof (port_decimal_ok (port h) Hp) as Hd.
    unfold port_decimal in Hd. apply andb_true_iff in Hd. destruct Hd as [_ Hlen].
    apply Nat.eqb_eq in Hlen.
    unfold redirect_location. rewrite Eu, Epw.
    destruct (port h <? 10000) eqn:E4.
    + assert (Hle : (String.length (decimal_int (port h)) <= 4)%nat).
      { rewrite Hlen. unfold digit_count. rewrite E4.
        destruct (port h <? 10); [lia|]. destruct (port h <? 100); [lia|].
        destruct (port h <? 1000); lia. }
      apply substring_0_ge. rewrite !FormatMp3Facts.length_append. cbn [String.length]. lia.
    + assert (Hfive : String.length (decimal_int (port h)) = 5%nat).
      { rewrite Hlen. unfold digit_count. apply Z.ltb_ge in E4.
        rewrite !(proj2 (Z.ltb_ge _ _)) by lia. reflexivity. }
      f_equal. rewrite !FormatMp3Facts.length_append. cbn [String.length]. lia.
  - apply redirect_location_plain; auto.
  - apply redirect_location_plain; auto.
Qed.

Definition with_credentials : listener_t := mk_listener (Some "me") (Some "pw") None.

Lemma redirect_location_complete_witness :
  redirect_location "/live" with_credentials (mk_redirect "peer" 10000 0)
  = "http://me:pw@peer:10000/liv" /\
  redirect_location "/live" with_credentials (mk_redirect "peer" 8000 0)
  = "http://me:pw@peer:8000/live".
Proof.
  split.
  - exact (redirect_location_complete "/live" with_credentials (mk_redirect "peer" 10000 0)
             ltac:(simpl; lia)).
  - exact (redirect_location_complete "/live" with_credentials (mk_redirect "peer" 8000 0)
             ltac:(simpl; lia)).
Defined.

(** X5.  A relay that follows the 302 redirect_client sends lands on the peer:
    for a listener without credentials, a peer whose name holds neither ':'
    nor '/' and whose port is below 65536, and a mount point that begins with
    '/', the Location begins with http:// and open_relay_connection reads
    from it the peer's server and port and the mount point with the query
    arguments. *)
Theorem redirect_location_followed (mp : string) (c : listener_t) (h : redirect_host) :
  username c = None \/ password c = None ->
  host_chars (server h) = true ->
  0 <= port h < 65536 ->
  let args := match queryargs c with Some a => a | None => "" end in
  let location := redirect_location (String "/" mp) c h in
  String.prefix "http://" location = true /\
  next_target location = mk_target (server h) (port h) (String "/" mp ++ args).
Proof.
  intros Hanon Hhost Hp. cbv zeta.
  rewrite (redirect_location_plain _ c h Hanon Hp).
  set (args := match queryargs c with Some a => a | None => "" end).
  pose proof (port_decimal_ok (port h) Hp) as Hd.
  unfold port_decimal in Hd. apply andb_true_iff in Hd. destruct Hd as [Hd Hlen].
  apply andb_true_iff in Hd. destruct Hd as [Hdig Hval].
  apply Z.eqb_eq in Hval. apply Nat.eqb_eq in Hlen.
  set (dec := decimal_int (port h)) in *.
  set (tail := (String "/" mp ++ args)%string).
  set (uri := (server h ++ String ":" (dec ++ tail))%string).
  assert (Eloc : ("http://" ++ server h ++ ":" ++ dec ++ tail)%string
                 = ("http://" ++ uri)%string) by reflexivity.
  rewrite Eloc. clear Eloc.
  split; [apply prefix_app|].
  unfold next_target.
  assert (Euri : String.substring 7 (String.length ("http://" ++ uri) - 7) ("http://" ++ uri)
                 = uri).
  { change (String.substring 7 (String.length ("http://" ++ uri) - 7) ("http://" ++ uri))
      with (String.substring 0 (String.length uri - 0) uri).
    apply substring_0_ge. lia. }
  rewrite Euri. unfold redirect_target.
  assert (Euri2 : uri = ((server h ++ String ":" dec) ++ String "/" (mp ++ args))%string).
  { subst uri tail. rewrite string_app_assoc. reflexivity. }
  assert (Hidx : String.index 0 "/" uri = Some (String.length (server h ++ String ":" dec))).
  { rewrite Euri2. apply index_slash. apply no_slash_app.
    - apply host_chars_no_slash. exact Hhost.
    - apply (all_digits_no_slash dec). exact Hdig. }
  rewrite Hidx.
  assert (Hhl : host_length uri = String.length (server h)).
  { subst uri. apply host_length_app. exact Hhost. }
  rewrite Hhl.
  assert (Hget : String.get (String.length (server h)) uri = Some ":"%char).
  { subst uri. rewrite get_app. reflexivity. }
  rewrite Hget.
  assert (Hsrv : String.substring 0 (String.length (server h)) uri = server h).
  { subst uri. apply substring_0_app. }
  rewrite Hsrv.
  assert (Hmount : String.substring (String.length (server h ++ String ":" dec))
                     (String.length uri - String.length (server h ++ String ":" dec)) uri
                   = tail).
  { rewrite Euri2 at 2. rewrite substring_app.
    apply substring_0_ge. rewrite Euri2, FormatMp3Facts.length_append. subst tail.
    change (String "/" mp ++ args)%string with (String "/" (mp ++ args)%string). lia. }
  rewrite Hmount.
  assert (Hport : atoi (String.substring (S (String.length (server h)))
                          (String.length uri - S (String.length (server h))) uri)
                  = port h).
  { subst uri. rewrite substring_app_S. rewrite substring_0_ge
      by (rewrite !FormatMp3Facts.length_append; cbn [String.length]; rewrite ?FormatMp3Facts.length_append; lia).
    destruct dec as [|d0 dec'] eqn:Edec.
    - exfalso. simpl in Hlen. unfold digit_count in Hlen.
      revert Hlen. repeat destruct (_ <? _); discriminate.
    - change (String d0 dec' ++ tail)%string with (String d0 (dec' ++ tail)%string).
      simpl in Hdig. apply andb_true_iff in Hdig. destruct Hdig as [Hd0 Hdig'].
      rewrite (atoi_digit d0 _ Hd0).
      change (String d0 (dec' ++ tail)%string) with (String d0 dec' ++ tail)%string.
      rewrite digits_app by (simpl; rewrite Hd0, Hdig'; reflexivity).
      rewrite Hval.
      assert (H63 : 2 ^ 63 = 9223372036854775808) by reflexivity.
      assert (H31 : 2 ^ 31 = 2147483648) by reflexivity.
      change (digits (port h) tail) with (port h).
      rewrite to_long_small by lia. apply to_int_small. lia. }
  rewrite Hport. reflexivity.
Qed.

Lemma redirect_location_followed_witness :
  let location := redirect_location "/live" anonymous (mk_redirect "peer.example.org" 8000 0) in
  String.prefix "http://" location = true /\
  next_target location = mk_target "peer.example.org" 8000 "/live".
Proof.
  cbv zeta.
  exact (redirect_location_followed "live" anonymous (mk_redirect "peer.example.org" 8000 0)
           (or_introl eq_refl) eq_refl ltac:(simpl; lia)).
Defined.

(** *** When a relay is started *)

(** An on-demand relay is wanted: its source has listeners, or the fallback of
    its mount has (a source of another mount with listeners, or a file that is
    being served). *)
Definition in_demand (d : demand) : bool :=
  negb (d_listeners d =? 0)
  || match d_fallback d with
     | Some (FallbackSource other_mount listeners) => other_mount && negb (listeners =? 0)
     | Some (FallbackFile count) => 0 <? count
     | None => false
     end.

(** X6.  relay_startup starts a relay-open thread exactly when the relay (the
    new details, when some are pending) is not marked for cleanup and is
    running, the server is running, the relay is not on demand or is wanted,
    and at most 3 relays are connecting.  Then the counter goes up by one and
    the client loses CLIENT_ACTIVE.  In every other case the counter and
    CLIENT_ACTIVE are left alone; the client is released exactly when the
    relay is marked for cleanup or not running and has no source. *)
Theorem relay_startup_spawns (time_ms : Z) (d : demand) (g : globals) (c : relay_client) :
  let relay := shared_data (get_relay_details c) in
  let r := relay_startup time_ms d g c in
  (snd r = Spawned <->
   cleanup relay = 0 /\ running relay <> 0 /\ ice_running g = true /\
   (on_demand relay = 0 \/ in_demand d = true) /\ relays_connecting g <= 3) /\
  (snd r = Spawned ->
   relays_connecting (fst (fst r)) = relays_connecting g + 1 /\
   new_connections_slowdown (fst (fst r)) = new_connections_slowdown g /\
   active (snd (fst r)) = false /\
   shared_data (snd (fst r)) = relay) /\
  (snd r <> Spawned ->
   relays_connecting (fst (fst r)) = relays_connecting g /\
   active (snd (fst r)) = active c) /\
  (snd r = Release <->
   (cleanup relay <> 0 \/ running relay = 0) /\ source relay = None).
Proof.
  cbv zeta. unfold relay_startup.
  assert (Hact : active (get_relay_details c) = active c).
  { unfold get_relay_details. destruct (new_details (shared_data c)); reflexivity. }
  set (c1 := get_relay_details c) in *.
  set (relay := shared_data c1).
  destruct (cleanup relay =? 0) eqn:Ecl; simpl negb; cbv iota.
  - apply Z.eqb_eq in Ecl.
    destruct (running relay =? 0) eqn:Erun.
    + apply Z.eqb_eq in Erun.
      destruct (source relay) eqn:Esrc; simpl;
        (split; [split; [discriminate|intros (_ & H & _); contradiction]|]);
        (split; [discriminate|]); (split; [auto|]).
      * split; [discriminate|]. intros [_ H]. discriminate.
      * split; [auto|reflexivity].
    + apply Z.eqb_neq in Erun.
      destruct (ice_running g) eqn:Eice; simpl negb; cbv iota.
      * unfold in_demand.
        set (want := match d_fallback d with
                     | Some (FallbackSource other_mount listeners) =>
                         other_mount && negb (listeners =? 0)
                     | Some (FallbackFile count) => 0 <? count
                     | None => false
                     end).
        set (start_relay :=
               if negb (on_demand relay =? 0) then
                 match d_fallback d with
                 | Some (FallbackSource other_mount listeners) =>
                     if other_mount && negb (listeners =? 0) then 1 else d_listeners d
                 | Some (FallbackFile count) => if 0 <? count then 1 else d_listeners d
                 | None => d_listeners d
                 end
               else 1).
        assert (Hstart : negb (on_demand relay =? 0) && (start_relay =? 0) = false
                         <-> (on_demand relay = 0 \/
                              negb (d_listeners d =? 0) || want = true)).
        { subst start_relay want.
          destruct (on_demand relay =? 0) eqn:Eod; simpl negb.
          - apply Z.eqb_eq in Eod. simpl. tauto.
          - apply Z.eqb_neq in Eod. rewrite andb_true_l.
            destruct (d_fallback d) as [[other l|count]|]; simpl.
            + destruct (other && negb (l =? 0)); simpl.
              * rewrite orb_true_r. tauto.
              * rewrite orb_false_r. rewrite negb_true_iff. tauto.
            + destruct (0 <? count); simpl.
              * rewrite orb_true_r. tauto.
              * rewrite orb_false_r. rewrite negb_true_iff. tauto.
            + rewrite orb_false_r. rewrite negb_true_iff. tauto. }
        destruct (negb (on_demand relay =? 0) && (start_relay =? 0)) eqn:Eidle.
        -- simpl. split; [split; [discriminate|]|].
           { intros (_ & _ & _ & H & _). apply Hstart in H. discriminate. }
           split; [discriminate|]. split; [auto|].
           split; [discriminate|]. intros [[H|H] _]; contradiction.
        -- destruct (3 <? relays_connecting g) eqn:E3; simpl.
           ++ apply Z.ltb_lt in E3. split; [split; [discriminate|]|].
              { intros (_ & _ & _ & _ & H). lia. }
              split; [discriminate|]. split; [auto|].
              split; [discriminate|]. intros [[H|H] _]; contradiction.
           ++ apply Z.ltb_ge in E3. split; [split; [|reflexivity]|].
              { intros _. split; [exact Ecl|]. split; [exact Erun|]. split; [reflexivity|].
                split; [apply Hstart; reflexivity|lia]. }
              split; [intros _; auto|]. split; [congruence|].
              split; [discriminate|]. intros [[H|H] _]; contradiction.
      * simpl. split; [split; [discriminate|]|].
        { intros (_ & _ & H & _). discriminate. }
        split; [discriminate|]. split; [auto|].
        split; [discriminate|]. intros [[H|H] _]; contradiction.
  - apply Z.eqb_neq in Ecl.
    change (running (set_running 0 relay)) with 0.
    change (source (set_running 0 relay)) with (source relay).
    cbn [Z.eqb].
    destruct (source relay) eqn:Esrc; simpl;
      (split; [split; [discriminate|intros (H & _); contradiction]|]);
      (split; [discriminate|]); (split; [auto|]).
    + split; [discriminate|]. intros [_ H]. discriminate.
    + split; [auto|reflexivity].
Qed.

Lemma relay_startup_spawns_witness :
  snd (relay_startup 0 (mk_demand 0 None) (mk_globals true 0 3) (running_relay "/a"))
  = Spawned.
Proof.
  apply (proj1 (relay_startup_spawns 0 (mk_demand 0 None) (mk_globals true 0 3)
                  (running_relay "/a"))).
  simpl. repeat split; try discriminate; auto; lia.
Defined.

(** *** Copies of relays *)

Lemma same_master_copy (ms : list relay_server_master) :
  Forall2 same_master
          (map (fun from => mk_master (m_ip from) (m_port from) (m_mount from)
                                      (m_bind from) (m_timeout from) false) ms)
          ms.
Proof. induction ms as [|m ms IH]; simpl; constructor; [repeat split|exact IH]. Qed.

Lemma same_master_sym (a b : list relay_server_master) :
  Forall2 same_master a b -> Forall2 same_master b a.
Proof.
  induction 1 as [|x y a b (H1 & H2 & H3) _ IH]; constructor; [|exact IH].
  repeat split; congruence.
Qed.

Lemma same_details_copy (r : relay_server) : same_details (fst (relay_copy r)) r.
Proof. split; [apply same_master_copy|reflexivity]. Qed.

(** X7.  relay_copy gives a relay that is set to run, with no source, no
    master in use, no pending details and every skip flag clear, and takes
    the source away from the relay copied.  relay_has_changed does not tell a
    copy from its original, in either direction, whatever the skip flags and
    the sources are: it returns 0 and changes neither. *)
Theorem relay_copy_not_changed (r : relay_server) :
  let copy := fst (relay_copy r) in
  let r' := snd (relay_copy r) in
  relay_has_changed copy r = (0, copy, r) /\
  relay_has_changed copy r' = (0, copy, r') /\
  relay_has_changed r copy = (0, r, copy) /\
  running copy = 1 /\ cleanup copy = 0 /\ source copy = None /\
  in_use copy = None /\ new_details copy = None /\
  Forall (fun m => m_skip m = false) (masters copy) /\
  localmount copy = localmount r /\ on_demand copy = on_demand r /\
  interval copy = interval r /\
  r' = set_source None r.
Proof.
  cbv zeta.
  assert (Hod : forall a b, on_demand a = on_demand b -> set_on_demand (on_demand a) b = b).
  { intros a b E. rewrite E. apply set_on_demand_same. }
  split; [|split; [|split]].
  - rewrite (proj1 (relay_has_changed_spec _ r) (same_details_copy r)).
    rewrite Hod by reflexivity. reflexivity.
  - rewrite (proj1 (relay_has_changed_spec _ (snd (relay_copy r))) (same_details_copy r)).
    rewrite Hod by reflexivity. reflexivity.
  - assert (H : same_details r (fst (relay_copy r))).
    { destruct (same_details_copy r) as [H1 H2]. split; [|congruence].
      apply same_master_sym. exact H1. }
    rewrite (proj1 (relay_has_changed_spec r _) H).
    rewrite Hod by reflexivity. reflexivity.
  - simpl. repeat split; auto.
    induction (masters r) as [|m ms IH]; simpl; constructor; auto.
Qed.

(** *** The diff of relay lists in general *)

Lemma find_existing_Some (mount : string) (current : list relay_server)
      (before after : list relay_server) (found : relay_server) :
  find_existing mount current = Some (before, found, after) ->
  current = before ++ found :: after /\ localmount found = mount /\
  Forall (fun r => localmount r <> mount) before.
Proof.
  revert before. induction current as [|e rest IH]; intros before H; simpl in H;
    [discriminate|].
  destruct (String.eqb mount (localmount e)) eqn:E.
  - inversion H. subst. apply String.eqb_eq in E. auto.
  - destruct (find_existing mount rest) as [[[b f] a]|]; [|discriminate].
    inversion H. subst. destruct (IH b eq_refl) as (-> & Hm & Hb).
    apply String.eqb_neq in E. split; [reflexivity|]. split; [exact Hm|].
    constructor; [congruence|exact Hb].
Qed.

Lemma find_existing_None (mount : string) (current : list relay_server) :
  find_existing mount current = None ->
  Forall (fun r => localmount r <> mount) current.
Proof.
  induction current as [|e rest IH]; intros H; simpl in H; [constructor|].
  destruct (String.eqb mount (localmount e)) eqn:E; [discriminate|].
  destruct (find_existing mount rest) as [[[b f] a]|]; [discriminate|].
  apply String.eqb_neq in E. constructor; [congruence|auto].
Qed.

(** The mount is not one of the list. *)
Definition unlisted (mounts : list string) (r : relay_server) : bool :=
  negb (existsb (String.eqb (localmount r)) mounts).

Lemma filter_unlisted_other (mount : string) (mounts : list string)
      (l : list relay_server) :
  Forall (fun r => localmount r <> mount) l ->
  List.filter (unlisted (mount :: mounts)) l = List.filter (unlisted mounts) l.
Proof.
  induction 1 as [|r l Hr _ IH]; simpl; [reflexivity|].
  rewrite IH. unfold unlisted at 1 3. simpl.
  replace (String.eqb (localmount r) mount) with false
    by (symmetry; apply String.eqb_neq; exact Hr).
  reflexivity.
Qed.

(** The new list has one relay for each relay of the new configuration,
    whatever becomes of it. *)
Lemma update_relay_set_mounts (ice : bool) (updated : list relay_server) :
  forall current new_list,
    let r := update_relay_set ice current updated new_list in
    map localmount (fst (fst (fst r)))
    = rev (map localmount updated) ++ map localmount new_list /\
    map localmount (snd (fst r)) = map localmount updated /\
    (NoDup (map localmount current) ->
     snd (fst (fst r)) = List.filter (unlisted (map localmount updated)) current).
Proof.
  induction updated as [|relay rest IH]; intros current new_list; cbv zeta.
  - simpl. split; [reflexivity|]. split; [reflexivity|]. intros _.
    induction current as [|e l IHl]; simpl; [reflexivity|]. now rewrite <- IHl.
  - cbn [update_relay_set].
    destruct (find_existing (localmount relay) current) as [[[before existing] after]|] eqn:Ef.
    + destruct (find_existing_Some _ _ _ _ _ Ef) as (Ecur & Hm & Hb).
      set (step := if ice then
                     let '(changed, relay1, existing1) := relay_has_changed relay existing in
                     if negb (changed =? 0) then
                       let '(copy, relay2) := relay_copy relay1 in
                       (copy, relay2,
                        Restarting (set_new_details (Some copy) existing1)
                        :: match source existing1 with
                           | Some src => if src_has_client src then [Woken (src_id src)] else []
                           | None => []
                           end)
                     else (existing1, relay1, [])
                   else (existing, relay, [])).
      assert (Hstep : localmount (fst (fst step)) = localmount relay /\
                      localmount (snd (fst step)) = localmount relay).
      { subst step. destruct ice; [|simpl; auto].
        unfold relay_has_changed.
        destruct (masters_differ (masters existing) (masters relay)); simpl; auto.
        destruct (negb (mp3metadata relay =? mp3metadata existing)); simpl; auto.
        destruct (negb (on_demand relay =? on_demand existing)); simpl; auto. }
      destruct step as [[new relay'] effects]. simpl in Hstep. destruct Hstep as [Hn Hr].
      specialize (IH (before ++ after) (new :: new_list)). cbv zeta in IH.
      destruct (update_relay_set ice (before ++ after) rest (new :: new_list))
        as [[[result current'] rest'] effects'].
      simpl in *. destruct IH as (IH1 & IH2 & IH3).
      split; [rewrite IH1, Hn, <- app_assoc; reflexivity|].
      split; [rewrite IH2, Hr; reflexivity|].
      intros Hnd. subst current. rewrite map_app in Hnd. simpl in Hnd.
      assert (Hafter : Forall (fun r => localmount r <> localmount relay) after).
      { apply NoDup_app in Hnd. destruct Hnd as (_ & _ & Hnd).
        apply NoDup_cons in Hnd. destruct Hnd as [Hnotin _].
        apply Forall_forall. intros r Hin E. apply Hnotin.
        rewrite Hm. rewrite <- E. apply list_elem_of_fmap. exists r. auto. }
      rewrite IH3.
      * rewrite !List.filter_app. simpl.
        rewrite (filter_unlisted_other _ _ before Hb).
        rewrite (filter_unlisted_other _ _ after Hafter).
        replace (unlisted (localmount relay :: map localmount rest) existing) with false;
          [reflexivity|].
        unfold unlisted. simpl. rewrite Hm, String.eqb_refl. reflexivity.
      * rewrite map_app. apply NoDup_app in Hnd. destruct Hnd as (H1 & H2 & H3).
        apply NoDup_cons in H3. destruct H3 as [H3 H4].
        apply NoDup_app. split; [exact H1|]. split; [|exact H4].
        intros x Hx Hx'. apply (H2 x Hx). right. exact Hx'.
    + pose proof (find_existing_None _ _ Ef) as Hnone.
      specialize (IH current (fst (relay_copy relay) :: new_list)). cbv zeta in IH.
      cbn [relay_copy fst] in IH |- *.
      destruct (update_relay_set ice current rest _) as [[[result current'] rest'] effects'].
      simpl in *. destruct IH as (IH1 & IH2 & IH3).
      split; [rewrite IH1, <- app_assoc; reflexivity|].
      split; [rewrite IH2; reflexivity|].
      intros Hnd. rewrite (IH3 Hnd). symmetry. apply filter_unlisted_other. exact Hnone.
Qed.

(** What the diff leaves in the new list for a relay of the configuration:
    a relay of the same mount which, while the server runs, agrees with it in
    the details relay_has_changed compares and in on_demand. *)
Definition settled (ice : bool) (u x : relay_server) : Prop :=
  localmount x = localmount u /\
  (ice = true -> same_details u x /\ on_demand x = on_demand u).

Lemma update_relay_set_settles (ice : bool) (updated : list relay_server) :
  forall current new_list,
    let r := update_relay_set ice current updated new_list in
    exists xs, fst (fst (fst r)) = rev xs ++ new_list /\
               Forall2 (settled ice) (snd (fst r)) xs.
Proof.
  induction updated as [|relay rest IH]; intros current new_list; cbv zeta.
  - exists []. simpl. split; [reflexivity|constructor].
  - cbn [update_relay_set].
    destruct (find_existing (localmount relay) current) as [[[before existing] after]|] eqn:Ef.
    + destruct (find_existing_Some _ _ _ _ _ Ef) as (Ecur & Hm & Hb).
      set (step := if ice then
                     let '(changed, relay1, existing1) := relay_has_changed relay existing in
                     if negb (changed =? 0) then
                       let '(copy, relay2) := relay_copy relay1 in
                       (copy, relay2,
                        Restarting (set_new_details (Some copy) existing1)
                        :: match source existing1 with
                           | Some src => if src_has_client src then [Woken (src_id src)] else []
                           | None => []
                           end)
                     else (existing1, relay1, [])
                   else (existing, relay, [])).
      assert (Hstep : settled ice (snd (fst step)) (fst (fst step))).
      { subst step. destruct ice; [|split; [exact Hm|discriminate]].
        destruct (classic_same_details relay existing) as [Hs|Hs].
        - rewrite (proj1 (relay_has_changed_spec relay existing) Hs). simpl.
          split; [exact Hm|]. intros _. split; [exact Hs|reflexivity].
        - rewrite (proj2 (relay_has_changed_spec relay existing) Hs). simpl.
          split; [reflexivity|]. intros _. split; [|reflexivity].
          split; [|reflexivity]. simpl. apply same_master_sym, same_master_copy. }
      destruct step as [[new relay'] effects]. simpl in Hstep.
      destruct (IH (before ++ after) (new :: new_list)) as (xs & E1 & E2).
      destruct (update_relay_set ice (before ++ after) rest (new :: new_list))
        as [[[result current'] rest'] effects'].
      simpl in *. exists (new :: xs). split.
      * rewrite E1. simpl. rewrite <- app_assoc. reflexivity.
      * constructor; assumption.
    + destruct (IH current (fst (relay_copy relay) :: new_list)) as (xs & E1 & E2).
      cbn [relay_copy fst] in E1, E2 |- *.
      destruct (update_relay_set ice current rest _) as [[[result current'] rest'] effects'].
      simpl in *. eexists (_ :: xs). split.
      * rewrite E1. simpl. rewrite <- app_assoc. reflexivity.
      * constructor; [|exact E2]. split; [reflexivity|]. intros _.
        split; [|reflexivity]. split; [|reflexivity]. simpl.
        apply same_master_sym, same_master_copy.
Qed.

Lemma find_existing_app (mount : string) (before after : list relay_server)
      (found : relay_server) :
  Forall (fun r => localmount r <> mount) before -> localmount found = mount ->
  find_existing mount (before ++ found :: after) = Some (before, found, after).
Proof.
  intros Hb Hm. induction Hb as [|r before Hr _ IH]; simpl.
  - rewrite Hm, String.eqb_refl. reflexivity.
  - replace (String.eqb mount (localmount r)) with false
      by (symmetry; apply String.eqb_neq; congruence).
    rewrite IH. reflexivity.
Qed.

Lemma update_relay_set_settled (ice : bool) (us xs : list relay_server) :
  Forall2 (settled ice) us xs -> NoDup (map localmount us) ->
  forall acc, update_relay_set ice (rev xs) us acc = (rev xs ++ acc, [], us, []).
Proof.
  induction 1 as [|u x us xs [Hm Hs] Hall IH]; intros Hnd acc; [reflexivity|].
  simpl in Hnd. apply NoDup_cons in Hnd. destruct Hnd as [Hnotin Hnd].
  assert (Hbefore : Forall (fun r => localmount r <> localmount u) (rev xs)).
  { apply Forall_forall. intros r Hin E. apply Hnotin.
    apply list_elem_of_In, in_rev in Hin.
    apply list_elem_of_In. clear - Hall Hin E.
    induction Hall as [|u' x' us xs [Hm' _] _ IH']; [destruct Hin|].
    destruct Hin as [->|Hin]; [left; congruence|right; auto]. }
  cbn [update_relay_set rev].
  rewrite (find_existing_app _ _ [] x Hbefore Hm).
  assert (Hstep : (if ice then
                     let '(changed, relay1, existing1) := relay_has_changed u x in
                     if negb (changed =? 0) then
                       let '(copy, relay2) := relay_copy relay1 in
                       (copy, relay2,
                        Restarting (set_new_details (Some copy) existing1)
                        :: match source existing1 with
                           | Some src => if src_has_client src then [Woken (src_id src)] else []
                           | None => []
                           end)
                     else (existing1, relay1, [])
                   else (x, u, [])) = (x, u, [])).
  { destruct ice; [|reflexivity]. destruct (Hs eq_refl) as [Hsame Hod].
    rewrite (proj1 (relay_has_changed_spec u x) Hsame). simpl.
    rewrite <- Hod, set_on_demand_same. reflexivity. }
  rewrite Hstep, app_nil_r, (IH Hnd). rewrite <- app_assoc. reflexivity.
Qed.

(** *** The diff against the same set of relays *)

(** What the diff keeps of a running relay [x] whose candidate [u] agrees
    with it: the relay itself, with the on_demand of the candidate. *)
Definition kept (u x x' : relay_server) : Prop :=
  on_demand x' = on_demand u /\
  localmount x' = localmount x /\ masters x' = masters x /\
  r_username x' = r_username x /\ r_password x' = r_password x /\
  mp3metadata x' = mp3metadata x /\ interval x' = interval x /\
  running x' = running x /\ cleanup x' = cleanup x /\
  source x' = source x /\ in_use x' = in_use x /\
  new_details x' = new_details x.

(** The candidate set is the running set: no mount is listed twice, every
    candidate agrees with the running relay of its mount, and every running
    relay has a candidate.  The order of the two lists is free. *)
Definition same_set (updated current : list relay_server) : Prop :=
  NoDup (map localmount updated) /\ NoDup (map localmount current) /\
  Forall (fun u => exists x, In x current /\ stands_for u x) updated /\
  Forall (fun x => In (localmount x) (map localmount updated)) current.

Lemma same_mount_same_relay (l : list relay_server) (a b : relay_server) :
  NoDup (map localmount l) -> In a l -> In b l -> localmount a = localmount b -> a = b.
Proof.
  induction l as [|r l IH]; intros Hnd Ha Hb E; [destruct Ha|].
  simpl in Hnd. apply NoDup_cons in Hnd. destruct Hnd as [Hnotin Hnd].
  assert (Hin : forall c, In c l -> localmount c ∈ map localmount l).
  { intros c Hc. apply list_elem_of_fmap. exists c. split; [reflexivity|].
    apply list_elem_of_In. exact Hc. }
  destruct Ha as [->|Ha], Hb as [->|Hb].
  - reflexivity.
  - exfalso. apply Hnotin. rewrite E. apply Hin. exact Hb.
  - exfalso. apply Hnotin. rewrite <- E. apply Hin. exact Ha.
  - apply IH; assumption.
Qed.

Lemma NoDup_mounts_remove (before after : list relay_server) (x : relay_server) :
  NoDup (map localmount (before ++ x :: after)) ->
  NoDup (map localmount (before ++ after)).
Proof.
  rewrite !map_app. simpl. intros Hnd.
  apply NoDup_app in Hnd. destruct Hnd as (H1 & H2 & H3).
  apply NoDup_cons in H3. destruct H3 as [H3 H4].
  apply NoDup_app. split; [exact H1|]. split; [|exact H4].
  intros y Hy Hy'. apply (H2 y Hy). right. exact Hy'.
Qed.

(** Candidates that agree with the running relays of their mounts are met by
    those relays, wherever they stand in the list: nothing is installed,
    restarted or woken. *)
Lemma update_relay_set_matched (updated : list relay_server) :
  forall current acc,
    NoDup (map localmount updated) -> NoDup (map localmount current) ->
    Forall (fun u => exists x, In x current /\ stands_for u x) updated ->
    exists xs,
      fst (fst (fst (update_relay_set true current updated acc))) = rev xs ++ acc /\
      snd (fst (update_relay_set true current updated acc)) = updated /\
      snd (update_relay_set true current updated acc) = [] /\
      Forall2 (fun u x' => exists x, In x current /\ stands_for u x /\ kept u x x')
              updated xs.
Proof.
  induction updated as [|u rest IH]; intros current acc Hndu Hndc Hall.
  - exists []. simpl. repeat split. constructor.
  - inversion Hall as [|? ? (x & Hx & Hmount & Hsame) Hrest]. subst.
    simpl in Hndu. apply NoDup_cons in Hndu. destruct Hndu as [Hnotin Hndu].
    cbn [update_relay_set].
    destruct (find_existing (localmount u) current) as [[[before found] after]|] eqn:Ef.
    + destruct (find_existing_Some _ _ _ _ _ Ef) as (Ecur & Hm & Hb).
      assert (Efound : found = x).
      { apply (same_mount_same_relay current); [exact Hndc| |exact Hx|congruence].
        rewrite Ecur. apply in_or_app. right. left. reflexivity. }
      subst found.
      rewrite (proj1 (relay_has_changed_spec u x) Hsame). cbn [Z.eqb negb].
      assert (Hrest' : Forall (fun u' => exists x', In x' (before ++ after) /\
                                                    stands_for u' x') rest).
      { apply Forall_forall. intros u' Hu'.
        pose proof (proj1 (Forall_forall _ _) Hrest u' Hu') as (x' & Hx' & Hst').
        exists x'. split; [|exact Hst'].
        assert (Hne : x' <> x).
        { intros ->. apply Hnotin. destruct Hst' as [Hm' _].
          rewrite Hmount, <- Hm'. apply list_elem_of_fmap. exists u'. auto. }
        rewrite Ecur in Hx'. apply in_app_or in Hx'.
        apply in_or_app. destruct Hx' as [H|[H|H]]; [auto|congruence|auto]. }
      rewrite Ecur in Hndc.
      destruct (IH (before ++ after) (set_on_demand (on_demand u) x :: acc) Hndu
                   (NoDup_mounts_remove _ _ _ Hndc) Hrest') as (xs & E1 & E2 & E3 & E4).
      destruct (update_relay_set true (before ++ after) rest _)
        as [[[result current'] rest'] effects'].
      cbn [fst snd] in *. subst.
      exists (set_on_demand (on_demand u) x :: xs).
      split; [simpl; rewrite <- app_assoc; reflexivity|].
      split; [reflexivity|]. split; [reflexivity|].
      constructor.
      * exists x. split; [apply in_or_app; right; left; reflexivity|].
        split; [split; assumption|]. unfold kept. repeat split.
      * eapply Forall2_impl; [exact E4|].
        intros u' x'' (x0 & Hx0 & Hst0 & Hk0). exists x0.
        split; [|auto]. apply in_app_or in Hx0. apply in_or_app.
        destruct Hx0; [left|right; right]; assumption.
    + exfalso. pose proof (find_existing_None _ _ Ef) as Hnone.
      apply (proj1 (Forall_forall _ _) Hnone x).
      * apply list_elem_of_In. exact Hx.
      * congruence.
Qed.

(** C6.  relay_has_changed returns 0 whenever the two lists of masters match
    element-wise on mount, ip and port and mp3metadata is equal (and 1
    otherwise); it then leaves the candidate alone and reconciles a difference
    in on_demand in place on the existing relay.  Applying the diff with a
    candidate set that is the running set (the same mounts, none listed
    twice, each candidate agreeing with the running relay of its mount, the
    two lists in any order) therefore restarts nothing: update_relay_set
    installs no client, gives no relay new_details, wakes no client, leaves no
    relay to shut down, and returns, in the reverse order of the candidates,
    the running relays themselves, each with the on_demand of its candidate
    and otherwise as it was. *)
Theorem relay_diff_same_set (updated current : list relay_server) (new old : relay_server) :
  (same_details new old ->
   relay_has_changed new old = (0, new, set_on_demand (on_demand new) old) /\
   kept new old (snd (relay_has_changed new old))) /\
  (relay_has_changed new old = (0, new, set_on_demand (on_demand new) old)
   \/ fst (fst (relay_has_changed new old)) = 1) /\
  (fst (fst (relay_has_changed new old)) = 0 -> same_details new old) /\
  (same_set updated current ->
   exists xs,
     update_relay_set true current updated [] = (rev xs, [], updated, []) /\
     Forall2 (fun u x' => exists x, In x current /\ stands_for u x /\ kept u x x')
             updated xs).
Proof.
  destruct (relay_has_changed_spec new old) as [Hsame Hdiff].
  split; [|split; [|split]].
  - intros H. rewrite (Hsame H). split; [reflexivity|]. unfold kept. simpl.
    repeat split.
  - destruct (classic_same_details new old) as [H|H].
    + left. exact (Hsame H).
    + right. rewrite (Hdiff H). reflexivity.
  - intros H0. destruct (classic_same_details new old) as [H|H]; [exact H|].
    rewrite (Hdiff H) in H0. discriminate.
  - intros (Hndu & Hndc & Hall & Hcover).
    destruct (update_relay_set_matched updated current [] Hndu Hndc Hall)
      as (xs & E1 & E2 & E3 & E4).
    pose proof (update_relay_set_mounts true updated current []) as Hm. cbv zeta in Hm.
    destruct Hm as (_ & _ & Hleft). specialize (Hleft Hndc).
    destruct (update_relay_set true current updated [])
      as [[[result current'] rest'] effects].
    cbn [fst snd] in *. subst. rewrite app_nil_r.
    exists xs. split; [|exact E4]. f_equal. f_equal. f_equal.
    clear - Hcover. induction Hcover as [|x l Hx _ IH]; simpl; [reflexivity|].
    rewrite IH. unfold unlisted.
    replace (existsb (String.eqb (localmount x)) (map localmount updated)) with true;
      [reflexivity|].
    symmetry. apply existsb_exists. exists (localmount x).
    split; [exact Hx|apply String.eqb_refl].
Qed.

(** Two running relays, in the order update_relay_set left them after the
    configuration listed /a before /b, and that configuration again, with /a
    now on demand. *)
Definition relay_b : relay_server :=
  mk_relay "/b" [mk_master "m2" 8000 "/b" None 4 false] None None 1 0 120 1 0
           (Some (mk_source_ref 2 true)) None None.

Lemma relay_diff_same_set_witness :
  let current := [relay_b; relay_a 0 (Some (mk_source_ref 7 true))] in
  let updated := [relay_a 1 None; set_source None relay_b] in
  same_set updated current /\
  (exists xs, update_relay_set true current updated [] = (rev xs, [], updated, [])) /\
  update_relay_set true current updated []
  = ([relay_b; relay_a 1 (Some (mk_source_ref 7 true))], [], updated, []).
Proof.
  cbv zeta.
  assert (Hset : same_set [relay_a 1 None; set_source None relay_b]
                          [relay_b; relay_a 0 (Some (mk_source_ref 7 true))]).
  { split; [apply (bool_decide_unpack _); vm_compute; exact I|].
    split; [apply (bool_decide_unpack _); vm_compute; exact I|].
    split.
    - constructor; [|constructor; [|constructor]].
      + exists (relay_a 0 (Some (mk_source_ref 7 true))).
        split; [right; left; reflexivity|].
        split; [reflexivity|]. split; [repeat constructor|reflexivity].
      + exists relay_b. split; [left; reflexivity|].
        split; [reflexivity|]. split; [repeat constructor|reflexivity].
    - constructor; [right; left; reflexivity|].
      constructor; [left; reflexivity|constructor]. }
  split; [exact Hset|].
  destruct (relay_diff_same_set [relay_a 1 None; set_source None relay_b]
              [relay_b; relay_a 0 (Some (mk_source_ref 7 true))]
              (relay_a 1 None) (relay_a 0 (Some (mk_source_ref 7 true))))
    as (_ & _ & _ & Hdiff).
  destruct (Hdiff Hset) as (xs & E & _).
  split; [exists xs; exact E|]. vm_compute. reflexivity.
Defined.

(** X8.  After update_relays the relay list holds one relay for each relay of
    the new configuration, with its mount, in reverse order; every relay it
    releases has cleanup set; and when the mounts of the running relays are
    distinct, the relays released are exactly the running relays whose mount
    is not in the new configuration, in their order.  With an empty
    configuration (the shutdown of the slave thread) every relay is released
    and the list is left empty. *)
Theorem update_relays_accounts
        (ice : bool) (current updated : list relay_server) :
  let r := update_relays ice (Some current) updated in
  let released := snd (fst (fst r)) in
  (exists active_relays,
      fst (fst (fst r)) = Some active_relays /\
      map localmount active_relays = rev (map localmount updated)) /\
  map localmount (snd (fst r)) = map localmount updated /\
  Forall (fun x => cleanup x = 1) released /\
  (NoDup (map localmount current) ->
   released
   = map (set_cleanup 1) (List.filter (unlisted (map localmount updated)) current)) /\
  (updated = [] ->
   r = (Some [], map (set_cleanup 1) current, [], flat_map shutdown_request current)).
Proof.
  cbv zeta. unfold update_relays.
  pose proof (update_relay_set_mounts ice updated current []) as H. cbv zeta in H.
  destruct (update_relay_set ice current updated []) as [[[result current'] rest'] effects]
    eqn:E.
  simpl in *. destruct H as (H1 & H2 & H3). rewrite app_nil_r in H1.
  split; [exists result; auto|]. split; [exact H2|].
  split; [apply Forall_forall; intros x Hx; apply list_elem_of_fmap in Hx;
          destruct Hx as (y & -> & _); reflexivity|].
  split; [intros Hnd; rewrite (H3 Hnd); reflexivity|].
  intros ->. simpl in E. inversion E. reflexivity.
Qed.

Lemma update_relays_accounts_witness :
  let current := [relay_a 0 (Some (mk_source_ref 1 true)); relay_b] in
  let r := update_relays true (Some current) [relay_a 1 None] in
  snd (fst (fst r)) = [set_cleanup 1 relay_b] /\
  fst (fst (fst r)) = Some [relay_a 1 (Some (mk_source_ref 1 true))].
Proof.
  cbv zeta. split.
  - apply (update_relays_accounts true
             [relay_a 0 (Some (mk_source_ref 1 true)); relay_b] [relay_a 1 None]).
    apply (bool_decide_unpack _). vm_compute. exact I.
  - vm_compute. reflexivity.
Defined.

(** X9.  The diff of relay lists is idempotent: when the mounts of the new
    configuration are distinct, applying update_relays again with the same
    configuration (as the first run left it) to the list the first run
    produced gives that list back as it is, releases no relay, installs and
    restarts none and wakes no client. *)
Theorem update_relays_idempotent
        (ice : bool) (current updated : list relay_server) :
  NoDup (map localmount updated) ->
  let r := update_relays ice (Some current) updated in
  exists active_relays,
    fst (fst (fst r)) = Some active_relays /\
    update_relays ice (Some active_relays) (snd (fst r))
    = (Some active_relays, [], snd (fst r), []).
Proof.
  intros Hnd. cbv zeta. unfold update_relays.
  pose proof (update_relay_set_mounts ice updated current []) as Hm. cbv zeta in Hm.
  destruct (update_relay_set_settles ice updated current []) as (xs & E1 & E2).
  destruct (update_relay_set ice current updated []) as [[[result current'] rest'] effects].
  simpl in *. destruct Hm as (_ & Hm & _). rewrite app_nil_r in E1. subst result.
  exists (rev xs). split; [reflexivity|].
  rewrite (update_relay_set_settled ice rest' xs E2) by (rewrite Hm; exact Hnd).
  rewrite app_nil_r. reflexivity.
Qed.

Lemma update_relays_idempotent_witness :
  let current := [relay_a 0 (Some (mk_source_ref 1 true)); relay_b] in
  let updated := [relay_a 1 None; mk_relay "/c" [mk_master "m3" 8000 "/c" None 4 false]
                                           None None 1 0 120 1 0 None None None] in
  let r := update_relays true (Some current) updated in
  exists active_relays,
    fst (fst (fst r)) = Some active_relays /\
    update_relays true (Some active_relays) (snd (fst r))
    = (Some active_relays, [], snd (fst r), []).
Proof.
  cbv zeta.
  apply (update_relays_idempotent true
           [relay_a 0 (Some (mk_source_ref 1 true)); relay_b]
           [relay_a 1 None; mk_relay "/c" [mk_master "m3" 8000 "/c" None 4 false]
                                     None None 1 0 120 1 0 None None None]).
  apply (bool_decide_unpack _). vm_compute. exact I.
Defined.

(** *** Trying the masters of a relay *)

(** The first connection of an attempt goes to the target given. *)
Lemma connect_loop_head (up : nat -> target -> reply) (left n : nat) (t : target) :
  exists ts, snd (connect_loop up (S left) n t) = t :: ts.
Proof.
  simpl. destruct (up n t) as [| |[location|]|message|]; simpl; eauto.
  destruct (negb (String.prefix "http://" location)); simpl; eauto.
  destruct (connect_loop up left (S n) _) as [e ts]. simpl. eauto.
Qed.

Lemma raised_set_skip (m : relay_server_master) : set_skip true m = raised m.
Proof. reflexivity. Qed.

Section OpenRelayMastersFacts.

Variable upstream : nat -> nat -> target -> reply.
Variable connection_complete_source : nat -> bool.
Variable still_running : nat -> bool.

Local Abbreviation open_relay_master :=
  (open_relay_master upstream connection_complete_source).
Local Abbreviation open_relay_from :=
  (open_relay_from upstream connection_complete_source still_running).
Local Abbreviation open_relay :=
  (open_relay upstream connection_complete_source still_running).

(** No master answers with a 302 that lacks its Location header. *)
Definition locations_sent : Prop :=
  forall i n t, upstream i n t <> Redirect None.

(** One round of the loop touches the master it is for and no other: it may
    raise its skip flag, and does so when the connection fails. *)
Lemma open_relay_master_spec (i : nat) (master : relay_server_master) (relay : relay_server)
      (connected : bool) (relay1 : relay_server) (conns : list (nat * target)) :
  masters relay !! i = Some master ->
  open_relay_master i master relay = Some (connected, relay1, conns) ->
  length (masters relay1) = length (masters relay) /\
  (forall j, j <> i -> masters relay1 !! j = masters relay !! j) /\
  (masters relay1 !! i = Some master \/
   m_skip master = false /\ masters relay1 !! i = Some (raised master)) /\
  (forall j t, In (j, t) conns -> j = i /\ m_skip master = false) /\
  (connected = true ->
   in_use relay1 = Some i /\ masters relay1 !! i = Some master /\
   m_skip master = false /\ connection_complete_source i = true) /\
  (connected = false ->
   (exists m', masters relay1 !! i = Some m' /\ m_skip m' = true) \/
   connection_complete_source i = false).
Proof.
  intros Hi. unfold Slave.open_relay_master.
  assert (Hlt : (i < length (masters relay))%nat) by (apply lookup_lt_is_Some; eauto).
  destruct (m_skip master) eqn:Eskip.
  - intros H. inversion H. subst.
    split; [reflexivity|]. split; [auto|]. split; [auto|].
    split; [intros j t []|]. split; [discriminate|]. eauto.
  - unfold open_relay_connection.
    destruct (connect_loop (upstream i) 10 0 _) as [e ts]. destruct e; simpl.
    + destruct (connection_complete_source i) eqn:Ec; intros H; inversion H; subst;
        (split; [reflexivity|]); (split; [auto|]); (split; [auto|]);
        (split; [intros j t Hin; apply in_map_iff in Hin;
                 destruct Hin as (t' & E & _); inversion E; auto|]).
      * split; [auto|discriminate].
      * split; [discriminate|auto].
    + intros H. inversion H. subst. cbn [masters set_masters set_in_use].
      rewrite raised_set_skip.
      split; [apply length_insert|].
      split; [intros j Hj; apply list_lookup_insert_ne; congruence|].
      split; [right; split; [reflexivity|apply list_lookup_insert_eq; exact Hlt]|].
      split; [intros j t Hin; apply in_map_iff in Hin;
              destruct Hin as (t' & E & _); inversion E; auto|].
      split; [discriminate|]. intros _. left. exists (raised master).
      split; [apply list_lookup_insert_eq; exact Hlt|reflexivity].
    + discriminate.
Qed.

Lemma open_relay_master_returns (i : nat) (master : relay_server_master)
      (relay : relay_server) :
  locations_sent -> exists r, open_relay_master i master relay = Some r.
Proof.
  intros Hsafe. unfold Slave.open_relay_master.
  destruct (m_skip master); [eauto|]. unfold open_relay_connection.
  pose proof (connect_loop_returns (upstream i) 10 (Hsafe i) 0%nat
                (mk_target (m_ip master) (m_port master) (m_mount master))) as Hr.
  destruct (connect_loop (upstream i) 10 0 _) as [e ts]. simpl in Hr.
  destruct e; simpl; [destruct (connection_complete_source i)| |]; eauto.
  contradiction.
Qed.

(** With every master flagged nothing is tried. *)
Lemma open_relay_from_skipped (rest : list relay_server_master) :
  forall (i : nat) (master : relay_server_master) (relay : relay_server),
    Forall (fun m => m_skip m = true) (master :: rest) ->
    open_relay_from i master rest relay = Some (-1, relay, []).
Proof.
  induction rest as [|next rest IH]; intros i master relay Hall;
    inversion Hall as [|? ? Hsk Hrest]; subst;
    cbn [Slave.open_relay_from]; unfold Slave.open_relay_master; rewrite Hsk;
    [reflexivity|].
  destruct (still_running i); [|reflexivity].
  rewrite (IH (S i) next relay Hrest). reflexivity.
Qed.

Lemma open_relay_from_returns (rest : list relay_server_master) :
  locations_sent ->
  forall (i : nat) (master : relay_server_master) (relay : relay_server),
    exists r, open_relay_from i master rest relay = Some r.
Proof.
  intros Hsafe. induction rest as [|next rest IH]; intros i master relay;
    cbn [Slave.open_relay_from];
    destruct (open_relay_master_returns i master relay Hsafe) as ([[c r1] cs] & E);
    rewrite E.
  - destruct c; eauto.
  - destruct c; [eauto|]. destruct (still_running i); [|eauto].
    destruct (IH (S i) next r1) as ([[ret r2] cs2] & E2). rewrite E2. eauto.
Qed.

Lemma open_relay_from_spec (rest : list relay_server_master) :
  forall (i : nat) (master : relay_server_master) (relay : relay_server)
         (ret : Z) (relay' : relay_server) (conns : list (nat * target)),
    masters relay !! i = Some master ->
    (forall k m, rest !! k = Some m -> masters relay !! (S i + k)%nat = Some m) ->
    length (masters relay) = (S i + length rest)%nat ->
    open_relay_from i master rest relay = Some (ret, relay', conns) ->
    (ret = 1 \/ ret = -1) /\
    length (masters relay') = length (masters relay) /\
    (forall j m, masters relay !! j = Some m ->
                 masters relay' !! j = Some m \/
                 m_skip m = false /\ masters relay' !! j = Some (raised m)) /\
    (forall j t, In (j, t) conns ->
                 exists m, masters relay !! j = Some m /\ m_skip m = false) /\
    (ret = 1 ->
     exists j m, in_use relay' = Some j /\ masters relay' !! j = Some m /\
                 m_skip m = false /\ connection_complete_source j = true) /\
    (ret = -1 -> (forall j, still_running j = true) ->
     forall j m', (i <= j)%nat -> masters relay' !! j = Some m' ->
                  m_skip m' = true \/ connection_complete_source j = false).
Proof.
  induction rest as [|next rest IH];
    intros i master relay ret relay' conns Hi Hrest Hlen;
    cbn [Slave.open_relay_from];
    (destruct (open_relay_master i master relay) as [[[connected relay1] conns1]|] eqn:Em;
     [|discriminate]);
    destruct (open_relay_master_spec i master relay connected relay1 conns1 Hi Em)
      as (Hl1 & Hother & Hat & Hconns & Hyes & Hno);
    assert (Hkeep : forall j m, masters relay !! j = Some m ->
                masters relay1 !! j = Some m \/
                m_skip m = false /\ masters relay1 !! j = Some (raised m))
      by (intros j m Hj; destruct (Nat.eq_dec j i) as [->|Hne];
          [rewrite Hi in Hj; inversion Hj; subst m; exact Hat
          |left; rewrite Hother by exact Hne; exact Hj]);
    assert (Hcs : forall j t, In (j, t) conns1 ->
                exists m, masters relay !! j = Some m /\ m_skip m = false)
      by (intros j t Hin; destruct (Hconns j t Hin) as [-> Hs]; eauto);
    assert (Hdone : connected = true ->
              (1 = 1 \/ 1 = -1) /\
              length (masters relay1) = length (masters relay) /\
              (forall j m, masters relay !! j = Some m ->
                 masters relay1 !! j = Some m \/
                 m_skip m = false /\ masters relay1 !! j = Some (raised m)) /\
              (forall j t, In (j, t) conns1 ->
                 exists m, masters relay !! j = Some m /\ m_skip m = false) /\
              (1 = 1 ->
               exists j m, in_use relay1 = Some j /\ masters relay1 !! j = Some m /\
                           m_skip m = false /\ connection_complete_source j = true) /\
              (1 = -1 -> (forall j, still_running j = true) ->
               forall j m', (i <= j)%nat -> masters relay1 !! j = Some m' ->
                            m_skip m' = true \/ connection_complete_source j = false))
      by (intros Hc; destruct (Hyes Hc) as (Hu & Hm & Hs & Hcc);
          split; [auto|]; split; [exact Hl1|]; split; [exact Hkeep|];
          split; [exact Hcs|]; split; [intros _; exists i, master; auto|discriminate]).
  - (* the last master *)
    destruct connected; intros H; inversion H; subst; [apply Hdone; reflexivity|].
    split; [auto|]. split; [exact Hl1|]. split; [exact Hkeep|]. split; [exact Hcs|].
    split; [discriminate|].
    intros _ _ j m' Hj Hm'. simpl in Hlen.
    assert (j = i) by (apply lookup_lt_Some in Hm'; lia).
    subst j. destruct (Hno eq_refl) as [(m & Hm & Hs)|H0]; [|auto].
    rewrite Hm in Hm'. inversion Hm'. subst. auto.
  - destruct connected; [intros H; inversion H; subst; apply Hdone; reflexivity|].
    destruct (still_running i) eqn:Erun.
    + assert (Hnext : masters relay1 !! S i = Some next).
      { rewrite Hother by lia. specialize (Hrest 0%nat next eq_refl).
        rewrite Nat.add_0_r in Hrest. exact Hrest. }
      assert (Hrest1 : forall k m, rest !! k = Some m ->
                                   masters relay1 !! (S (S i) + k)%nat = Some m).
      { intros k m Hk. rewrite Hother by lia. specialize (Hrest (S k) m Hk).
        replace (S (S i) + k)%nat with (S i + S k)%nat by lia. exact Hrest. }
      destruct (open_relay_from (S i) next rest relay1) as [[[ret2 relay2] conns2]|] eqn:E2;
        [|discriminate].
      specialize (IH (S i) next relay1 ret2 relay2 conns2 Hnext Hrest1
                     ltac:(simpl in Hlen |- *; lia) E2).
      intros H. inversion H. subst ret2 relay2 conns. clear H.
      destruct IH as (Hret & Hl2 & Hkeep2 & Hcs2 & Hyes2 & Hno2).
      split; [exact Hret|]. split; [lia|]. split; [|split; [|split; [exact Hyes2|]]].
      * intros j m Hj. destruct (Hkeep j m Hj) as [H1|[Hs H1]].
        -- exact (Hkeep2 j m H1).
        -- right. split; [exact Hs|].
           destruct (Hkeep2 j _ H1) as [H2|[Hs2 _]]; [exact H2|discriminate].
      * intros j t Hin. apply in_app_or in Hin. destruct Hin as [Hin|Hin];
          [exact (Hcs j t Hin)|].
        destruct (Hcs2 j t Hin) as (m & Hm & Hs).
        destruct (Nat.eq_dec j i) as [->|Hne].
        -- destruct Hat as [Hat|[Hs' Hat]]; rewrite Hat in Hm; inversion Hm; subst.
           ++ eauto.
           ++ discriminate.
        -- rewrite Hother in Hm by exact Hne. eauto.
      * intros Hm1 Hall j m' Hj Hm'.
        destruct (Nat.eq_dec j i) as [->|Hne]; [|apply (Hno2 Hm1 Hall j m'); [lia|exact Hm']].
        destruct (Hno eq_refl) as [(m & Hm & Hs)|H0]; [|auto].
        left. destruct (Hkeep2 i m Hm) as [H2|[_ H2]]; rewrite H2 in Hm'; inversion Hm'; subst;
          auto.
    + intros H. inversion H. subst.
      split; [auto|]. split; [exact Hl1|]. split; [exact Hkeep|]. split; [exact Hcs|].
      split; [discriminate|].
      intros _ Hall. rewrite Hall in Erun. discriminate.
Qed.

(** A master that is not flagged is connected to, at its own address first. *)
Lemma open_relay_master_first (i : nat) (master : relay_server_master) (relay : relay_server)
      (connected : bool) (relay1 : relay_server) (conns : list (nat * target)) :
  m_skip master = false ->
  open_relay_master i master relay = Some (connected, relay1, conns) ->
  exists conns',
    conns = (i, mk_target (m_ip master) (m_port master) (m_mount master)) :: conns'.
Proof.
  intros Hs. unfold Slave.open_relay_master, open_relay_connection. rewrite Hs.
  destruct (connect_loop_head (upstream i) 9 0
              (mk_target (m_ip master) (m_port master) (m_mount master))) as (ts' & Hts).
  destruct (connect_loop (upstream i) 10 0
              (mk_target (m_ip master) (m_port master) (m_mount master))) as [e ts].
  simpl in Hts. subst ts.
  destruct e; simpl; [destruct (connection_complete_source i)| |];
    intros H; inversion H; subst; simpl; eauto.
Qed.

Lemma open_relay_from_first (rest : list relay_server_master) (i : nat)
      (master : relay_server_master) (relay : relay_server)
      (ret : Z) (relay' : relay_server) (conns : list (nat * target)) :
  m_skip master = false ->
  open_relay_from i master rest relay = Some (ret, relay', conns) ->
  exists conns',
    conns = (i, mk_target (m_ip master) (m_port master) (m_mount master)) :: conns'.
Proof.
  intros Hs.
  destruct rest as [|next rest']; cbn [Slave.open_relay_from];
    (destruct (open_relay_master i master relay) as [[[c r1] cs]|] eqn:E; [|discriminate]);
    destruct (open_relay_master_first i master relay c r1 cs Hs E) as (cs' & ->).
  - destruct c; intros H; inversion H; subst; eauto.
  - destruct c; [intros H; inversion H; subst; eauto|].
    destruct (still_running i); [|intros H; inversion H; subst; eauto].
    destruct (open_relay_from (S i) next rest' r1) as [[[r2 rl2] c2]|]; [|discriminate].
    intros H. inversion H. subst. simpl. eauto.
Qed.

(** A master that is not flagged and answers its first connection with a 302
    without Location: nothing is returned. *)
Lemma open_relay_from_null (rest : list relay_server_master) (i : nat)
      (master : relay_server_master) (relay : relay_server) :
  m_skip master = false ->
  upstream i 0%nat (mk_target (m_ip master) (m_port master) (m_mount master))
  = Redirect None ->
  open_relay_from i master rest relay = None.
Proof.
  intros Hs Hnull.
  assert (E : open_relay_master i master relay = None).
  { unfold Slave.open_relay_master, open_relay_connection. rewrite Hs.
    cbn [connect_loop]. rewrite Hnull. reflexivity. }
  destruct rest; cbn [Slave.open_relay_from]; rewrite E; reflexivity.
Qed.

(** X10.  open_relay tries the masters of a relay in turn.  It returns
    whenever the relay has a master and no master answers with a 302 that
    lacks its Location header.  When it returns, it returns 1 or -1, it has
    connected for no master whose skip flag is set, has changed nothing of
    the masters but raised skip flags, and returns 1 only with the master in
    use connected, not flagged and its source completed; and when it returns
    -1 although the server kept running, every master is flagged or could not
    complete its source after connecting.  With no master at all, and when
    the first master is not flagged and answers its first connection with a
    302 without Location, the code reads through a NULL pointer. *)
Theorem open_relay_tries_in_turn (relay : relay_server) :
  (masters relay = [] -> open_relay relay = None) /\
  (forall master rest,
      masters relay = master :: rest -> m_skip master = false ->
      upstream 0%nat 0%nat (mk_target (m_ip master) (m_port master) (m_mount master))
      = Redirect None ->
      open_relay relay = None) /\
  (masters relay <> [] -> locations_sent ->
   exists ret relay' conns, open_relay relay = Some (ret, relay', conns)) /\
  (forall ret relay' conns,
     open_relay relay = Some (ret, relay', conns) ->
     (ret = 1 \/ ret = -1) /\
     length (masters relay') = length (masters relay) /\
     (forall j m, masters relay !! j = Some m ->
                  masters relay' !! j = Some m \/
                  m_skip m = false /\ masters relay' !! j = Some (raised m)) /\
     (forall j t, In (j, t) conns ->
                  exists m, masters relay !! j = Some m /\ m_skip m = false) /\
     (ret = 1 ->
      exists j m, in_use relay' = Some j /\ masters relay' !! j = Some m /\
                  m_skip m = false /\ connection_complete_source j = true) /\
     (ret = -1 -> (forall j, still_running j = true) ->
      forall j m', masters relay' !! j = Some m' ->
                   m_skip m' = true \/ connection_complete_source j = false)).
Proof.
  unfold Slave.open_relay. split; [intros ->; reflexivity|].
  split; [|split].
  - intros master rest Em Hs Hnull. rewrite Em.
    apply open_relay_from_null; assumption.
  - intros Hne Hsafe. destruct (masters relay) as [|master rest]; [contradiction|].
    destruct (open_relay_from_returns rest Hsafe 0 master relay) as ([[ret r'] cs] & E).
    eauto.
  - intros ret relay' conns.
    destruct (masters relay) as [|master rest] eqn:Em; [discriminate|]. intros E.
    pose proof (open_relay_from_spec rest 0 master relay ret relay' conns) as H.
    rewrite Em in H. specialize (H eq_refl (fun k m Hk => Hk) eq_refl E).
    destruct H as (H1 & H2 & H3 & H4 & H5 & H6).
    split; [exact H1|].
    split; [exact H2|]. split; [exact H3|]. split; [exact H4|]. split; [exact H5|].
    intros Hr Hall j m' Hj. apply (H6 Hr Hall j m'); [lia|exact Hj].
Qed.

(** X11.  Once every master of a relay is flagged, open_relay connects
    nowhere: it returns -1 and leaves the relay as it is.  relay_reset clears
    every skip flag and nothing else, and after it open_relay begins again
    with a connection to the first master of the list: every result it
    returns lists that connection first, and it returns one whenever no
    master answers with a 302 that lacks its Location header. *)
Theorem relay_reset_retries (relay : relay_server) (master : relay_server_master)
        (rest : list relay_server_master) :
  masters relay = master :: rest ->
  (Forall (fun m => m_skip m = true) (masters relay) ->
   open_relay relay = Some (-1, relay, [])) /\
  Forall2 (fun m m' => m_skip m' = false /\ raised m' = raised m)
          (masters relay) (masters (relay_reset relay)) /\
  set_masters (masters relay) (relay_reset relay) = relay /\
  relay_reset (relay_reset relay) = relay_reset relay /\
  (forall ret relay' conns,
      open_relay (relay_reset relay) = Some (ret, relay', conns) ->
      exists conns',
        conns = (0%nat, mk_target (m_ip master) (m_port master) (m_mount master))
                :: conns') /\
  (locations_sent ->
   exists ret relay' conns,
     open_relay (relay_reset relay)
     = Some (ret, relay', (0%nat, mk_target (m_ip master) (m_port master) (m_mount master))
                          :: conns)).
Proof.
  intros Em.
  assert (Hfirst : forall ret relay' conns,
             open_relay (relay_reset relay) = Some (ret, relay', conns) ->
             exists conns',
               conns = (0%nat, mk_target (m_ip master) (m_port master) (m_mount master))
                       :: conns').
  { intros ret relay' conns. unfold Slave.open_relay, relay_reset.
    cbn [masters set_masters]. rewrite Em. cbn [map]. intros E.
    exact (open_relay_from_first (map (set_skip false) rest) 0 (set_skip false master)
             _ ret relay' conns eq_refl E). }
  split; [|split; [|split; [|split; [|split; [exact Hfirst|]]]]].
  - intros Hall. unfold Slave.open_relay. rewrite Em in *.
    rewrite (open_relay_from_skipped rest 0 master relay Hall). reflexivity.
  - unfold relay_reset. cbn [masters set_masters].
    clear Em Hfirst. induction (masters relay) as [|m ms IH]; simpl; constructor;
      [split; reflexivity|exact IH].
  - destruct relay. reflexivity.
  - clear Em Hfirst. destruct relay as [lm ms un pw md od iv rn cl src iu nd].
    unfold relay_reset, set_masters. simpl. f_equal.
    rewrite map_map. apply map_ext. intros m. reflexivity.
  - intros Hsafe.
    assert (Hne : masters (relay_reset relay) <> []).
    { unfold relay_reset. cbn [masters set_masters]. rewrite Em. discriminate. }
    unfold Slave.open_relay in *.
    destruct (masters (relay_reset relay)) as [|m1 rest1] eqn:Em1; [contradiction|].
    destruct (open_relay_from_returns rest1 Hsafe 0 m1 (relay_reset relay))
      as ([[ret r'] cs] & E).
    rewrite E in Hfirst. destruct (Hfirst ret r' cs eq_refl) as (cs' & ->).
    exists ret, r', cs'. exact E.
Qed.

End OpenRelayMastersFacts.

(** A relay with two masters of which the first refuses and the second
    accepts. *)
Definition two_masters : relay_server :=
  mk_relay "/live" [mk_master "m1" 8000 "/live" None 4 false;
                    mk_master "m2" 8000 "/live" None 4 false]
           None None 1 0 120 1 0 (Some (mk_source_ref 1 true)) None None.

Definition second_accepts (i n : nat) (t : target) : reply :=
  if String.eqb (t_server t) "m2" then Accepted else Refused "busy".

Lemma second_accepts_locations : locations_sent second_accepts.
Proof.
  intros i n t. unfold second_accepts.
  destruct (String.eqb (t_server t) "m2"); discriminate.
Qed.

Lemma open_relay_tries_in_turn_witness :
  open_relay second_accepts (fun _ => true) (fun _ => true) two_masters
  = Some (1,
          set_in_use (Some 1%nat)
            (set_masters [mk_master "m1" 8000 "/live" None 4 true;
                          mk_master "m2" 8000 "/live" None 4 false] two_masters),
          [(0%nat, mk_target "m1" 8000 "/live"); (1%nat, mk_target "m2" 8000 "/live")]) /\
  exists ret relay' conns,
    open_relay second_accepts (fun _ => true) (fun _ => true) two_masters
    = Some (ret, relay', conns) /\ (ret = 1 \/ ret = -1).
Proof.
  split; [vm_compute; reflexivity|].
  destruct (open_relay_tries_in_turn second_accepts (fun _ => true) (fun _ => true)
              two_masters) as (_ & _ & Hret & Hspec).
  destruct (Hret ltac:(discriminate) second_accepts_locations)
    as (ret & relay' & conns & E).
  exists ret, relay', conns. split; [exact E|].
  exact (proj1 (Hspec ret relay' conns E)).
Defined.

Lemma relay_reset_retries_witness :
  let flagged := set_masters [mk_master "m1" 8000 "/live" None 4 true;
                              mk_master "m2" 8000 "/live" None 4 true] two_masters in
  open_relay second_accepts (fun _ => true) (fun _ => true) flagged
  = Some (-1, flagged, []) /\
  exists ret relay' conns,
    open_relay second_accepts (fun _ => true) (fun _ => true) (relay_reset flagged)
    = Some (ret, relay', (0%nat, mk_target "m1" 8000 "/live") :: conns).
Proof.
  cbv zeta.
  destruct (relay_reset_retries second_accepts (fun _ => true) (fun _ => true)
              (set_masters [mk_master "m1" 8000 "/live" None 4 true;
                            mk_master "m2" 8000 "/live" None 4 true] two_masters)
              (mk_master "m1" 8000 "/live" None 4 true)
              [mk_master "m2" 8000 "/live" None 4 true] eq_refl)
    as (Hskip & _ & _ & _ & _ & Hagain).
  split; [apply Hskip; repeat constructor|exact (Hagain second_accepts_locations)].
Defined.

End SlaveFacts.
